(** * caldp: packaging of job outputs and the counting logger

    A shallow embedding of [caldp/log.py] and [caldp/file_ops.py].

    Python objects that are mutated in place (the logger, the process
    working directory, the file system, standard output) are threaded
    explicitly: every operation takes the state it reads and returns the
    state it leaves behind.  An operation that can raise returns a
    [result], and the state is returned next to it, since a Python
    exception does not undo the effects that happened before it. *)

From Stdlib Require Import ZArith List String Ascii Lia Bool.
From Stdlib Require Floats Uint63.
From stdpp Require Import base option list strings pretty gmap.

Open Scope string_scope.
Open Scope Z_scope.
Open Scope list_scope.

(** ** Python exceptions and results *)

Inductive exn : Type :=
| NameError (name : string)
| UnboundLocalError (name : string)
| AssertionError (msg : string)
| ValueError
| FileNotFoundError (path : string)
| NotADirectoryError (path : string)
| IsADirectoryError (path : string)
| FileExistsError (path : string)
| SameFileError (path : string)
| ZeroDivisionError
| ExternalError (msg : string).

Inductive result (A : Type) : Type :=
| Ok (a : A)
| Raise (e : exn).

Arguments Ok {A} a.
Arguments Raise {A} e.

Definition is_ok {A} (r : result A) : bool :=
  match r with Ok _ => true | Raise _ => false end.

(** ** Python strings

    A Python [str] is a Rocq [string]; the model covers text whose
    characters fit in one byte. *)

Module PyStr.

Definition chr (n : nat) : ascii := ascii_of_nat n.
Definition ord (c : ascii) : nat := nat_of_ascii c.

Definition LF : ascii := chr 10.
Definition backslash : ascii := chr 92.
Definition squote : ascii := chr 39.
Definition dquote : ascii := chr 34.

Definition nl : string := String LF "".

(** [s.startswith(p)] *)
Definition startswith (s p : string) : bool := String.prefix p s.

(** [s.endswith(p)] *)
Definition endswith (s p : string) : bool :=
  String.prefix (String.rev p) (String.rev s).

(** [s.split(c)] for a separator of one character *)
Fixpoint split (c : ascii) (s : string) : list string :=
  match s with
  | EmptyString => [EmptyString]
  | String a s' =>
      if Ascii.eqb a c then EmptyString :: split c s'
      else match split c s' with
           | h :: t => String a h :: t
           | [] => [String a EmptyString]
           end
  end.

(** [sep.join(l)] *)
Definition join (sep : string) (l : list string) : string := String.concat sep l.

(** [l[-1]] on a list that [split] returned (never empty) *)
Definition last_item (l : list string) : string := List.last l EmptyString.

(** [c in s] *)
Fixpoint contains (c : ascii) (s : string) : bool :=
  match s with
  | EmptyString => false
  | String a s' => Ascii.eqb a c || contains c s'
  end.

(** [s[n:]] *)
Fixpoint drop (n : nat) (s : string) : string :=
  match n, s with
  | O, _ => s
  | S k, EmptyString => EmptyString
  | S k, String _ s' => drop k s'
  end.

(** The white space that [int] strips: tab to carriage return, the
    space, and the two one-byte characters beyond ASCII that count as
    white space (next line, no-break space). *)
Definition is_space (c : ascii) : bool :=
  let n := ord c in
  ((9 <=? n)%nat && (n <=? 13)%nat) || (n =? 32)%nat
  || (n =? 133)%nat || (n =? 160)%nat.

Definition is_digit (c : ascii) : bool :=
  let n := ord c in (48 <=? n)%nat && (n <=? 57)%nat.

Definition digit_val (c : ascii) : Z := Z.of_nat (ord c) - 48.

Fixpoint lstrip_ws (l : list ascii) : list ascii :=
  match l with
  | c :: l' => if is_space c then lstrip_ws l' else l
  | [] => []
  end.

Definition strip_ws (l : list ascii) : list ascii :=
  List.rev (lstrip_ws (List.rev (lstrip_ws l))).

(** Digits of a decimal literal: single underscores are allowed between
    digits, nowhere else. *)
Fixpoint digits_value (acc : Z) (after_underscore : bool) (l : list ascii)
  : option Z :=
  match l with
  | [] => if after_underscore then None else Some acc
  | c :: l' =>
      if is_digit c then digits_value (10 * acc + digit_val c) false l'
      else if Ascii.eqb c "_"%char then
             if after_underscore then None else digits_value acc true l'
           else None
  end.

Definition unsigned_value (l : list ascii) : option Z :=
  match l with
  | c :: _ => if is_digit c then digits_value 0 false l else None
  | [] => None
  end.

(** [int(s)] for a string [s], base ten: [None] stands for [ValueError]. *)
Definition int_of_str (s : string) : option Z :=
  match strip_ws (list_ascii_of_string s) with
  | c :: l' =>
      if Ascii.eqb c "-"%char then Z.opp <$> unsigned_value l'
      else if Ascii.eqb c "+"%char then unsigned_value l'
      else unsigned_value (c :: l')
  | [] => None
  end.

Definition hex_digit (n : nat) : ascii :=
  if (n <? 10)%nat then chr (48 + n) else chr (87 + n).

Definition hex2 (n : nat) : string :=
  String (hex_digit (n / 16)) (String (hex_digit (n mod 16)) EmptyString).

Definition repr_char (quote c : ascii) : string :=
  let n := ord c in
  if Ascii.eqb c backslash then String backslash (String backslash EmptyString)
  else if Ascii.eqb c quote then String backslash (String quote EmptyString)
  else if (n =? 9)%nat then String backslash "t"
  else if (n =? 10)%nat then String backslash "n"
  else if (n =? 13)%nat then String backslash "r"
  else if (n <? 32)%nat || (n =? 127)%nat
          || ((128 <=? n)%nat && (n <=? 160)%nat) || (n =? 173)%nat
       then String backslash (String "x"%char (hex2 n))
  else String c EmptyString.

Fixpoint repr_body (quote : ascii) (s : string) : string :=
  match s with
  | EmptyString => EmptyString
  | String c s' => repr_char quote c +:+ repr_body quote s'
  end.

(** [repr(s)] of a string: single quotes, unless the text holds a single
    quote and no double quote. *)
Definition repr (s : string) : string :=
  let quote :=
    if contains squote s && negb (contains dquote s) then dquote else squote in
  String quote (repr_body quote s +:+ String quote EmptyString).

End PyStr.

(** The values that the callers in this repository pass to the logger. *)
Inductive pyval : Type :=
| VStr (s : string)
| VInt (z : Z)
| VBool (b : bool)
| VNone.

(** [str(v)] *)
Definition str (v : pyval) : string :=
  match v with
  | VStr s => s
  | VInt z => pretty z
  | VBool true => "True"
  | VBool false => "False"
  | VNone => "None"
  end.

(** ** log.py: the counting logger *)

Module Log.

Definition DEFAULT_VERBOSITY_LEVEL : Z := 50.

(** Severity under which a record reaches [logging.Logger]. *)
Inductive levelname : Type := DEBUG | INFO | WARNING | ERROR.

(** What the logger leaves behind outside itself: the records handed to
    the [logging.Logger] it wraps (its sink), oldest first, and the text
    that [write] puts on [sys.stdout].  What the handlers of [logging]
    then write for a record, and on which stream, is the subject of
    [LogHandlers]. *)
Record Sink : Type := {
  records : list (levelname * string);
  stdout : string;
}.

Definition emit (lv : levelname) (msg : string) (o : Sink) : Sink :=
  {| records := records o ++ [(lv, msg)]; stdout := stdout o |}.

Definition stdout_write (s : string) (o : Sink) : Sink :=
  {| records := records o; stdout := stdout o +:+ s |}.

Definition empty_sink : Sink := {| records := []; stdout := EmptyString |}.

(** The attributes of a [CaldpLogger] that its methods read or assign
    after construction.  The handler list, the formatter and the console
    stream configure [logging.Logger], which is the sink here. *)
Record CaldpLogger : Type := {
  filters : list (string -> string);
  errors : Z;
  warnings : Z;
  infos : Z;
  debugs : Z;
  eol_pending : bool;
  verbose_level : Z;
}.

(** The keyword arguments the methods look at. *)
Record Keys : Type := {
  k_end : option string;
  k_sep : option string;
  k_verbosity : option Z;
}.

Definition no_keys : Keys :=
  {| k_end := None; k_sep := None; k_verbosity := None |}.

Definition set_eol_pending (b : bool) (self : CaldpLogger) : CaldpLogger :=
  {| filters := filters self; errors := errors self;
     warnings := warnings self; infos := infos self; debugs := debugs self;
     eol_pending := b; verbose_level := verbose_level self |}.

Definition set_verbose_level (z : Z) (self : CaldpLogger) : CaldpLogger :=
  {| filters := filters self; errors := errors self;
     warnings := warnings self; infos := infos self; debugs := debugs self;
     eol_pending := eol_pending self; verbose_level := z |}.

Definition set_counters (e w i d : Z) (self : CaldpLogger) : CaldpLogger :=
  {| filters := filters self; errors := e; warnings := w; infos := i;
     debugs := d; eol_pending := eol_pending self;
     verbose_level := verbose_level self |}.

(** [format]: join the stringified arguments, append the end, run the
    filters in registration order. *)
Definition format (self : CaldpLogger) (args : list pyval) (keys : Keys)
  : string :=
  let end_ := default PyStr.nl (k_end keys) in
  let sep := default " " (k_sep keys) in
  let output := PyStr.join sep (map str args) +:+ end_ in
  fold_left (fun out filt => filt out) (filters self) output.

(** [write]: format, remember whether a line is left open, write to
    standard output. *)
Definition write (self : CaldpLogger) (o : Sink) (args : list pyval)
  (keys : Keys) : CaldpLogger * Sink :=
  let output := format self args keys in
  (set_eol_pending (negb (PyStr.endswith output PyStr.nl)) self,
   stdout_write output o).

(** [eformat]: the end is forced to the empty string; an open line on
    standard output is closed first. *)
Definition eformat (self : CaldpLogger) (o : Sink) (args : list pyval)
  (keys : Keys) : CaldpLogger * Sink * string :=
  let keys' := {| k_end := Some EmptyString; k_sep := k_sep keys;
                  k_verbosity := k_verbosity keys |} in
  let '(self1, o1) :=
    if eol_pending self then write self o [] no_keys else (self, o) in
  (self1, o1, format self1 args keys').

Definition log_with (lv : levelname) (self : CaldpLogger) (o : Sink)
  (args : list pyval) (keys : Keys) : CaldpLogger * Sink :=
  let '(self1, o1, msg) := eformat self o args keys in
  (self1, emit lv msg o1).

Definition info (self : CaldpLogger) (o : Sink) (args : list pyval)
  (keys : Keys) : CaldpLogger * Sink :=
  let self1 := set_counters (errors self) (warnings self) (infos self + 1)
                 (debugs self) self in
  if verbose_level self1 >? -1 then log_with INFO self1 o args keys
  else (self1, o).

Definition warn (self : CaldpLogger) (o : Sink) (args : list pyval)
  (keys : Keys) : CaldpLogger * Sink :=
  let self1 := set_counters (errors self) (warnings self + 1) (infos self)
                 (debugs self) self in
  if verbose_level self1 >? -2 then log_with WARNING self1 o args keys
  else (self1, o).

Definition error (self : CaldpLogger) (o : Sink) (args : list pyval)
  (keys : Keys) : CaldpLogger * Sink :=
  let self1 := set_counters (errors self + 1) (warnings self) (infos self)
                 (debugs self) self in
  if verbose_level self1 >? -3 then log_with ERROR self1 o args keys
  else (self1, o).

Definition debug (self : CaldpLogger) (o : Sink) (args : list pyval)
  (keys : Keys) : CaldpLogger * Sink :=
  let self1 := set_counters (errors self) (warnings self) (infos self)
                 (debugs self + 1) self in
  log_with DEBUG self1 o args keys.

Definition should_output (self : CaldpLogger) (keys : Keys) : bool :=
  let verbosity := default DEFAULT_VERBOSITY_LEVEL (k_verbosity keys) in
  negb (verbose_level self <? verbosity).

Definition verbose (self : CaldpLogger) (o : Sink) (args : list pyval)
  (keys : Keys) : CaldpLogger * Sink :=
  if should_output self keys then debug self o args keys else (self, o).

Definition verbose_warning (self : CaldpLogger) (o : Sink)
  (args : list pyval) (keys : Keys) : CaldpLogger * Sink :=
  if should_output self keys then warn self o args keys else (self, o).

Definition status (self : CaldpLogger) : Z * Z * Z :=
  (errors self, warnings self, infos self).

Definition reset (self : CaldpLogger) : CaldpLogger :=
  set_counters 0 0 0 0 self.

(** The argument of [set_verbose]: an integer, or one of the two
    singletons [True] and [False]. *)
Inductive vlevel : Type :=
| LInt (z : Z)
| LBool (b : bool).

(** The number a level compares as ([True] is 1, [False] is 0). *)
Definition vlevel_num (l : vlevel) : Z :=
  match l with
  | LInt z => z
  | LBool true => 1
  | LBool false => 0
  end.

Definition set_verbose (self : CaldpLogger) (level : vlevel)
  : result (CaldpLogger * Z) :=
  if (-3 <=? vlevel_num level) && (vlevel_num level <=? 100) then
    let old_verbose := verbose_level self in
    let level' :=
      match level with
      | LBool true => DEFAULT_VERBOSITY_LEVEL
      | LBool false => 0
      | LInt z => z
      end in
    Ok (set_verbose_level level' self, old_verbose)
  else Raise (AssertionError "verbosity level must be in range -3..100").

Definition get_verbose (self : CaldpLogger) : Z := verbose_level self.

(** *** Construction and module import

    The names the module binds at top level, as far as [__init__] uses
    them: [THE_LOGGER] (line 229) and [warning = THE_LOGGER.warn]
    (line 233). *)
Record Globals : Type := {
  THE_LOGGER : option CaldpLogger;
  warning_bound : bool;
}.

Definition no_globals : Globals :=
  {| THE_LOGGER := None; warning_bound := false |}.

(** The call [warning(...)] inside [__init__]: a lookup of the global
    name, then [THE_LOGGER.warn]. *)
Definition call_warning (g : Globals) (o : Sink) (args : list pyval)
  : result Globals * Sink :=
  match warning_bound g, THE_LOGGER g with
  | true, Some lg =>
      let '(lg', o') := warn lg o args no_keys in
      (Ok {| THE_LOGGER := Some lg'; warning_bound := true |}, o')
  | _, _ => (Raise (NameError "warning"), o)
  end.

Definition bad_format_args (verbose_level : string) : list pyval :=
  [VStr "Bad format for CALDP_VERBOSITY =";
   VStr (PyStr.repr verbose_level);
   VStr "Use e.g. -1 to squelch info, 0 for no debug,  50 for default debug output. 100 max debug."].

Definition fresh_logger (level : Z) : CaldpLogger :=
  {| filters := []; errors := 0; warnings := 0; infos := 0; debugs := 0;
     eol_pending := false; verbose_level := level |}.

(** [CaldpLogger.__init__], with [env] the value of [CALDP_VERBOSITY] in
    the environment ([None] when it is not set).  The attribute
    [verbose_level] is assigned last, so the other attributes are those
    of [fresh_logger]. *)
Definition init (g : Globals) (env : option string) (o : Sink)
  : result CaldpLogger * Globals * Sink :=
  match env with
  | None => (Ok (fresh_logger 0), g, o)
  | Some v =>
      match PyStr.int_of_str v with
      | Some z => (Ok (fresh_logger z), g, o)
      | None =>
          match call_warning g o (bad_format_args v) with
          | (Ok g', o') => (Ok (fresh_logger DEFAULT_VERBOSITY_LEVEL), g', o')
          | (Raise e, o') => (Raise e, g, o')
          end
      end
  end.

(** Running the module body: [THE_LOGGER = CaldpLogger("CALDP")], then
    the bindings of the module level names. *)
Definition import_module (env : option string) (o : Sink)
  : result Globals * Sink :=
  match init no_globals env o with
  | (Ok lg, _, o') => (Ok {| THE_LOGGER := Some lg; warning_bound := true |}, o')
  | (Raise e, _, o') => (Raise e, o')
  end.

(** A call of one of the three counting functions. *)
Inductive call : Type :=
| CallError (args : list pyval) (keys : Keys)
| CallWarn (args : list pyval) (keys : Keys)
| CallInfo (args : list pyval) (keys : Keys).

Definition run_call (st : CaldpLogger * Sink) (c : call) : CaldpLogger * Sink :=
  match c with
  | CallError args keys => error (fst st) (snd st) args keys
  | CallWarn args keys => warn (fst st) (snd st) args keys
  | CallInfo args keys => info (fst st) (snd st) args keys
  end.

Definition run_calls (st : CaldpLogger * Sink) (cs : list call)
  : CaldpLogger * Sink :=
  fold_left run_call cs st.

Definition is_error (c : call) : bool :=
  match c with CallError _ _ => true | _ => false end.
Definition is_warn (c : call) : bool :=
  match c with CallWarn _ _ => true | _ => false end.
Definition is_info (c : call) : bool :=
  match c with CallInfo _ _ => true | _ => false end.

Definition count (p : call -> bool) (cs : list call) : Z :=
  Z.of_nat (length (filter (fun c => p c = true) cs)).

End Log.

(** ** The file system and the process state behind [os], [shutil],
    [glob] and [tarfile] *)

Module FS.

(** Contents of a regular file: plain bytes, or a gzip-compressed tar
    archive given by its members in the order they were added.  A member
    is a name with the contents of the file it was read from, or [None]
    for a directory entry. *)
#[local] Unset Elimination Schemes.
Inductive data : Type :=
| Raw (bytes : string)
| TarGz (members : list (string * option data)).
#[local] Set Elimination Schemes.

Abbreviation member := (string * option data)%type.

Inductive node : Type :=
| File (d : data)
| Dir.

(** The tree is a finite map from absolute paths, as lists of names from
    the root, to nodes.  The root is the empty list and is always a
    directory.  There are no symbolic links. *)
Abbreviation tree := (gmap (list string) node).

Definition node_at (t : tree) (p : list string) : option node :=
  match p with
  | [] => Some Dir
  | _ => t !! p
  end.

Inductive errno : Type := ENOENT | ENOTDIR.

Definition errno_exn (e : errno) (p : string) : exn :=
  match e with
  | ENOENT => FileNotFoundError p
  | ENOTDIR => NotADirectoryError p
  end.

Definition is_dot (c : string) : bool := String.eqb c "" || String.eqb c ".".

(** Path resolution by the operating system: every component is looked
    up in a directory that exists. *)
Fixpoint walk (t : tree) (cur : list string) (comps : list string)
  : errno + list string :=
  match comps with
  | [] => inr cur
  | c :: rest =>
      match node_at t cur with
      | Some Dir =>
          if is_dot c then walk t cur rest
          else if String.eqb c ".." then walk t (removelast cur) rest
          else walk t (cur ++ [c]) rest
      | Some (File _) => inl ENOTDIR
      | None => inl ENOENT
      end
  end.

Definition isabs (p : string) : bool := PyStr.startswith p "/".

Definition resolve (t : tree) (cwd : list string) (p : string)
  : errno + list string :=
  if String.eqb p "" then inl ENOENT
  else walk t (if isabs p then [] else cwd) (PyStr.split "/" p).

(** [os.stat(p)] *)
Definition stat (t : tree) (cwd : list string) (p : string) : errno + node :=
  match resolve t cwd p with
  | inl e => inl e
  | inr q => match node_at t q with
             | Some n => inr n
             | None => inl ENOENT
             end
  end.

(** The names in the directory at [q], in the order of the listing. *)
Definition child_name (q k : list string) : option string :=
  if decide (take (length q) k = q) then
    match drop (length q) k with
    | [n] => Some n
    | _ => None
    end
  else None.

Definition entries (t : tree) (q : list string) : list (string * node) :=
  omap (fun kn => (fun n => (n, snd kn)) <$> child_name q (fst kn))
       (map_to_list t).

(** The process and what it can touch. *)
Record World : Type := {
  fs : tree;
  cwd : list string;
  logger : Log.CaldpLogger;
  sink : Log.Sink;
  uploads : list (string * string * data);
}.

Definition set_fs (t : tree) (w : World) : World :=
  {| fs := t; cwd := cwd w; logger := logger w; sink := sink w;
     uploads := uploads w |}.

Definition set_cwd (c : list string) (w : World) : World :=
  {| fs := fs w; cwd := c; logger := logger w; sink := sink w;
     uploads := uploads w |}.

Definition set_log (l : Log.CaldpLogger) (o : Log.Sink) (w : World) : World :=
  {| fs := fs w; cwd := cwd w; logger := l; sink := o; uploads := uploads w |}.

Definition add_upload (u : string * string * data) (w : World) : World :=
  {| fs := fs w; cwd := cwd w; logger := logger w; sink := sink w;
     uploads := uploads w ++ [u] |}.

(** Computations that read and change the world and may raise. *)
Definition M (A : Type) : Type := World -> result A * World.

Definition ret {A} (a : A) : M A := fun w => (Ok a, w).

Definition raise {A} (e : exn) : M A := fun w => (Raise e, w).

Definition bind {A B} (m : M A) (k : A -> M B) : M B :=
  fun w =>
    match m w with
    | (Ok a, w') => k a w'
    | (Raise e, w') => (Raise e, w')
    end.

Definition read {A} (f : World -> A) : M A := fun w => (Ok (f w), w).

Definition update (f : World -> World) : M unit := fun w => (Ok tt, f w).

Declare Scope py_scope.
Delimit Scope py_scope with py.
Notation "x <- m ;; k" := (bind m (fun x => k))
  (at level 90, m at next level, right associativity) : py_scope.
Notation "m ;;; k" := (bind m (fun _ => k))
  (at level 90, right associativity) : py_scope.
Open Scope py_scope.

(** [os.getcwd()] *)
Definition getcwd (w : World) : string := "/" +:+ PyStr.join "/" (cwd w).

(** [os.chdir(p)] *)
Definition chdir (p : string) : M unit := fun w =>
  match resolve (fs w) (cwd w) p with
  | inl e => (Raise (errno_exn e p), w)
  | inr q =>
      match node_at (fs w) q with
      | Some Dir => (Ok tt, set_cwd q w)
      | Some (File _) => (Raise (NotADirectoryError p), w)
      | None => (Raise (FileNotFoundError p), w)
      end
  end.

(** [os.path.exists(p)] *)
Definition exists_ (w : World) (p : string) : bool :=
  match stat (fs w) (cwd w) p with inr _ => true | inl _ => false end.

(** [os.path.isdir(p)] *)
Definition isdir (w : World) (p : string) : bool :=
  match stat (fs w) (cwd w) p with inr Dir => true | _ => false end.

(** [os.remove(p)] *)
Definition remove (p : string) : M unit := fun w =>
  match resolve (fs w) (cwd w) p with
  | inl e => (Raise (errno_exn e p), w)
  | inr q =>
      match node_at (fs w) q with
      | Some (File _) => (Ok tt, set_fs (delete q (fs w)) w)
      | Some Dir => (Raise (IsADirectoryError p), w)
      | None => (Raise (FileNotFoundError p), w)
      end
  end.

(** Reading a whole file, as [open(p, "rb")] followed by reads. *)
Definition read_file (p : string) : M data := fun w =>
  match stat (fs w) (cwd w) p with
  | inl e => (Raise (errno_exn e p), w)
  | inr (File d) => (Ok d, w)
  | inr Dir => (Raise (IsADirectoryError p), w)
  end.

(** Creating or truncating a file and writing [d], as [open(p, "wb")]. *)
Definition write_file (p : string) (d : data) : M unit := fun w =>
  match resolve (fs w) (cwd w) p with
  | inl e => (Raise (errno_exn e p), w)
  | inr q =>
      match node_at (fs w) q with
      | Some Dir => (Raise (IsADirectoryError p), w)
      | _ => (Ok tt, set_fs (<[q := File d]> (fs w)) w)
      end
  end.

(** [os.path.join(a, b)] *)
Definition path_join (a b : string) : string :=
  if isabs b then b
  else if String.eqb a "" || PyStr.endswith a "/" then a +:+ b
  else a +:+ "/" +:+ b.

(** [os.path.basename(p)] *)
Definition basename (p : string) : string :=
  PyStr.last_item (PyStr.split "/" p).

(** [os.path.normpath(path)] *)
Definition normpath (path : string) : string :=
  if String.eqb path "" then "."
  else
    let initial_slashes : nat :=
      if PyStr.startswith path "/" then
        if PyStr.startswith path "//" && negb (PyStr.startswith path "///")
        then 2%nat else 1%nat
      else 0%nat in
    let step (new_comps : list string) (comp : string) : list string :=
      if is_dot comp then new_comps
      else if negb (String.eqb comp "..")
              || (Nat.eqb initial_slashes 0
                  && match new_comps with [] => true | _ => false end)
              || String.eqb (List.last new_comps "") ".."
           then new_comps ++ [comp]
           else removelast new_comps in
    let new_comps := fold_left step (PyStr.split "/" path) [] in
    let joined :=
      PyStr.join "" (repeat "/" initial_slashes) +:+ PyStr.join "/" new_comps in
    if String.eqb joined "" then "." else joined.

(** [os.path.abspath(p)] *)
Definition abspath (w : World) (p : string) : string :=
  normpath (if isabs p then p else path_join (getcwd w) p).

Fixpoint take_while (f : ascii -> bool) (l : list ascii) : list ascii :=
  match l with
  | c :: l' => if f c then c :: take_while f l' else []
  | [] => []
  end.

Fixpoint drop_while (f : ascii -> bool) (l : list ascii) : list ascii :=
  match l with
  | c :: l' => if f c then drop_while f l' else l
  | [] => []
  end.

Definition is_slash (c : ascii) : bool := Ascii.eqb c "/".

(** [os.path.split(p)], computed on the reversed text: the tail is what
    follows the last slash; the head is what precedes it, without its
    trailing slashes unless it consists of slashes only. *)
Definition path_split (p : string) : string * string :=
  let r := List.rev (list_ascii_of_string p) in
  let tail_r := take_while (fun c => negb (is_slash c)) r in
  let head_r := drop_while (fun c => negb (is_slash c)) r in
  let head_r' :=
    if forallb is_slash head_r then head_r else drop_while is_slash head_r in
  (string_of_list_ascii (List.rev head_r'),
   string_of_list_ascii (List.rev tail_r)).

(** *** fnmatch *)

Inductive tok : Type :=
| TStar
| TAny
| TLit (c : ascii)
| TClass (negated : bool) (items : list (ascii * ascii)).

Fixpoint index_of (c : ascii) (l : list ascii) : option nat :=
  match l with
  | [] => None
  | a :: l' => if Ascii.eqb a c then Some O else S <$> index_of c l'
  end.

(** The text between an opening bracket and the bracket that closes it:
    a leading exclamation mark and a closing bracket right after it do
    not close the class. *)
Definition bracket_stuff (l : list ascii) : option (list ascii) :=
  let n0 : nat :=
    match l with
    | "!"%char :: "]"%char :: _ => 2%nat
    | "!"%char :: _ => 1%nat
    | "]"%char :: _ => 1%nat
    | _ => 0%nat
    end in
  (fun k : nat => take (n0 + k) l) <$> index_of "]"%char (drop n0 l).

(** Single characters and ranges [a-b] of a class. *)
Fixpoint class_items (fuel : nat) (l : list ascii) : list (ascii * ascii) :=
  match fuel with
  | O => []
  | S n =>
      match l with
      | a :: "-"%char :: b :: rest => (a, b) :: class_items n rest
      | a :: rest => (a, a) :: class_items n rest
      | [] => []
      end
  end.

Definition class_of (stuff : list ascii) : tok :=
  match stuff with
  | "!"%char :: body => TClass true (class_items (length body) body)
  | _ => TClass false (class_items (length stuff) stuff)
  end.

(** [skip] counts the characters of the pattern still to be passed over
    because a class consumed them. *)
Fixpoint tokens (skip : nat) (pat : list ascii) : list tok :=
  match pat with
  | [] => []
  | c :: rest =>
      match skip with
      | S k => tokens k rest
      | O =>
          if Ascii.eqb c "*" then TStar :: tokens 0 rest
          else if Ascii.eqb c "?" then TAny :: tokens 0 rest
          else if Ascii.eqb c "[" then
                 match bracket_stuff rest with
                 | Some stuff => class_of stuff :: tokens (S (length stuff)) rest
                 | None => TLit c :: tokens 0 rest
                 end
               else TLit c :: tokens 0 rest
      end
  end.

Definition in_range (c : ascii) (r : ascii * ascii) : bool :=
  (PyStr.ord (fst r) <=? PyStr.ord c)%nat && (PyStr.ord c <=? PyStr.ord (snd r))%nat.

Definition tok_matches (t : tok) (c : ascii) : bool :=
  match t with
  | TStar => true
  | TAny => true
  | TLit a => Ascii.eqb a c
  | TClass negated items => xorb negated (existsb (in_range c) items)
  end.

Fixpoint match_tokens (ts : list tok) : list ascii -> bool :=
  match ts with
  | [] => fun s => match s with [] => true | _ => false end
  | TStar :: ts' =>
      let continue := match_tokens ts' in
      fix star (s : list ascii) : bool :=
        continue s || match s with [] => false | _ :: s' => star s' end
  | t :: ts' =>
      fun s => match s with
               | c :: s' => tok_matches t c && match_tokens ts' s'
               | [] => false
               end
  end.

(** [fnmatch.fnmatchcase(name, pat)]; on POSIX [fnmatch.filter] tests
    every name this way. *)
Definition fnmatch (name pat : string) : bool :=
  match_tokens (tokens 0 (list_ascii_of_string pat)) (list_ascii_of_string name).

(** *** glob *)

Definition is_magic_char (c : ascii) : bool :=
  Ascii.eqb c "*" || Ascii.eqb c "?" || Ascii.eqb c "[".

(** [glob.has_magic(s)] *)
Definition has_magic (s : string) : bool :=
  existsb is_magic_char (list_ascii_of_string s).

(** [glob._ishidden(name)] *)
Definition ishidden (name : string) : bool := PyStr.startswith name ".".

(** [glob._listdir(dirname, dir_fd, dironly)]: the names [os.scandir]
    reports, none when the directory cannot be read. *)
Definition glob_listdir (w : World) (dirname : string) (dironly : bool)
  : list string :=
  let arg := if String.eqb dirname "" then "." else dirname in
  match resolve (fs w) (cwd w) arg with
  | inr q =>
      match node_at (fs w) q with
      | Some Dir =>
          map fst
            (filter (fun e => negb dironly || match snd e with Dir => true | _ => false end = true)
                    (entries (fs w) q))
      | _ => []
      end
  | inl _ => []
  end.

(** [glob._glob1] *)
Definition glob1 (w : World) (dirname pattern : string) (dironly : bool)
  : list string :=
  let names := glob_listdir w dirname dironly in
  let names :=
    if negb (ishidden pattern)
    then filter (fun x => ishidden x = false) names else names in
  filter (fun x => fnmatch x pattern = true) names.

(** [glob._join] *)
Definition glob_join (dirname basename : string) : string :=
  if String.eqb dirname "" then basename
  else if String.eqb basename "" then dirname
  else path_join dirname basename.

(** [glob._glob0] *)
Definition glob0 (w : World) (dirname basename : string) : list string :=
  if negb (String.eqb basename "") then
    if exists_ w (glob_join dirname basename) then [basename] else []
  else if isdir w dirname then [basename] else [].

(** [glob._iglob] without the recursive double star; [fuel] bounds the
    number of nested directory patterns, and more fuel than the pattern
    has characters is always enough. *)
Fixpoint iglob (fuel : nat) (w : World) (pathname : string) (dironly : bool)
  : list string :=
  match fuel with
  | O => []
  | S n =>
      let '(dirname, base) := path_split pathname in
      if negb (has_magic pathname) then
        if negb (String.eqb base "") then
          if exists_ w pathname then [pathname] else []
        else if isdir w dirname then [pathname] else []
      else if String.eqb dirname "" then glob1 w "" base dironly
      else
        let dirs :=
          if negb (String.eqb dirname pathname) && has_magic dirname
          then iglob n w dirname true else [dirname] in
        flat_map
          (fun d =>
             map (path_join d)
                 (if has_magic base then glob1 w d base dironly
                  else glob0 w d base))
          dirs
  end.

(** [glob.glob(pathname)] for a pattern that is not empty. *)
Definition glob (w : World) (pathname : string) : list string :=
  iglob (S (String.length pathname)) w pathname false.

(** *** tarfile *)

Fixpoint lex_leb (a b : list string) : bool :=
  match a, b with
  | [], _ => true
  | _ :: _, [] => false
  | x :: a', y :: b' =>
      match String.compare x y with
      | Lt => true
      | Gt => false
      | Eq => lex_leb a' b'
      end
  end.

Fixpoint insert_sorted (x : list string) (l : list (list string))
  : list (list string) :=
  match l with
  | [] => [x]
  | y :: l' => if lex_leb x y then x :: l else y :: insert_sorted x l'
  end.

Definition sort_paths (l : list (list string)) : list (list string) :=
  foldr insert_sorted [] l.

Definition below (q k : list string) : option (list string) :=
  if decide (take (length q) k = q) then
    match drop (length q) k with
    | [] => None
    | r => Some r
    end
  else None.

(** Every directory between [q] and [q ++ r] exists. *)
Definition reachable (t : tree) (q r : list string) : bool :=
  forallb (fun i => match t !! (q ++ take i r) with
                    | Some Dir => true
                    | _ => false
                    end)
          (seq 1 (length r - 1)).

(** What lies under the directory [q], in the order in which [TarFile.add]
    visits it: depth first, the names of every directory sorted. *)
Definition descendants (t : tree) (q : list string) : list (list string) :=
  sort_paths
    (filter (fun r => reachable t q r = true)
            (omap (fun kn => below q (fst kn)) (map_to_list t))).

(** The member name [gettarinfo] derives from a path. *)
Definition arcname (name : string) : string :=
  string_of_list_ascii (drop_while is_slash (list_ascii_of_string name)).

(** [TarFile.add(name)] on the archive whose own absolute name is
    [self_name]: the members it appends. *)
Definition tar_add (w : World) (self_name name : string)
  : result (list member) :=
  if String.eqb (abspath w name) self_name then Ok []
  else
    match resolve (fs w) (cwd w) name with
    | inl e => Raise (errno_exn e name)
    | inr q =>
        match node_at (fs w) q with
        | None => Raise (FileNotFoundError name)
        | Some (File d) => Ok [(arcname name, Some d)]
        | Some Dir =>
            Ok ((arcname name, None)
                :: flat_map
                     (fun r =>
                        let sub := fold_left path_join r name in
                        if String.eqb (abspath w sub) self_name then []
                        else [(arcname sub,
                               match fs w !! (q ++ r) with
                               | Some (File d) => Some d
                               | _ => None
                               end)])
                     (descendants (fs w) q))
        end
    end.

(** [tarfile.open(tar, "x:gz")]: exclusive creation; the result is the
    absolute name the archive object keeps. *)
Definition tarfile_open_x (tar : string) : M string := fun w =>
  match resolve (fs w) (cwd w) tar with
  | inl e => (Raise (errno_exn e tar), w)
  | inr q =>
      match node_at (fs w) q with
      | Some _ => (Raise (FileExistsError tar), w)
      | None => (Ok (abspath w tar), set_fs (<[q := File (TarGz [])]> (fs w)) w)
      end
  end.

(** The body of the [with] block of [make_tar] and the closing of the
    archive: [acc] holds the members written so far.  When an [add]
    raises, the archive is closed with what it holds and the exception
    goes on. *)
Fixpoint tar_add_all (self_name tar : string) (file_list : list string)
  (acc : list member) : M unit :=
  match file_list with
  | [] => write_file tar (TarGz acc)
  | f :: rest =>
      fun w =>
        match tar_add w self_name f with
        | Ok ms => tar_add_all self_name tar rest (acc ++ ms) w
        | Raise e => (Raise e, snd (write_file tar (TarGz acc) w))
        end
  end.

(** *** shutil *)

Definition samefile (w : World) (a b : string) : bool :=
  match resolve (fs w) (cwd w) a, resolve (fs w) (cwd w) b with
  | inr qa, inr qb =>
      bool_decide (qa = qb)
      && match node_at (fs w) qa with Some _ => true | None => false end
  | _, _ => false
  end.

(** [shutil.copy(src, dst)] *)
Definition shutil_copy (src dst : string) : M string := fun w =>
  let dst' := if isdir w dst then path_join dst (basename src) else dst in
  if samefile w src dst' then (Raise (SameFileError src), w)
  else (d <- read_file src ;; write_file dst' d ;;; ret dst') w.

End FS.

(** ** file_ops.py *)

Module FileOps.

Import FS.

(** *** Floating point numbers of the progress display *)

(** [float(z)]: the nearest float, ties to the even one.  An integer
    too large for a float (from 2^1024 - 2^970 on) gives infinity here,
    where Python raises [OverflowError]. *)
Definition float_of_Z (z : Z) : PrimFloat.float :=
  FloatOps.SF2Prim
    (SpecFloat.binary_normalize FloatOps.prec FloatOps.emax z 0 false).

(** Rounding [n / d] to the nearest integer, ties to the even one. *)
Definition round_half_even (n d : Z) : Z :=
  let q := n / d in
  let r := n mod d in
  if (2 * r >? d) || ((2 * r =? d) && Z.odd q) then q + 1 else q.

Definition two_digits (n : Z) : string :=
  if n <? 10 then "0" +:+ pretty n else pretty n.

(** ["%.2f" % f] *)
Definition fmt_2f (f : PrimFloat.float) : string :=
  match FloatOps.Prim2SF f with
  | SpecFloat.S754_zero s => (if s then "-" else "") +:+ "0.00"
  | SpecFloat.S754_infinity s => if s then "-inf" else "inf"
  | SpecFloat.S754_nan => "nan"
  | SpecFloat.S754_finite s m e =>
      let hundredths :=
        if e <? 0 then round_half_even (Z.pos m * 100) (2 ^ (- e))
        else Z.pos m * 100 * 2 ^ e in
      (if s then "-" else "")
      +:+ pretty (hundredths / 100) +:+ "." +:+ two_digits (hundredths mod 100)
  end.

(** [str(f)] for a float that holds a whole number below ten to the
    sixteenth, which is what [float(os.path.getsize(...))] gives for
    every size below two to the fifty-third; other floats are printed as
    mantissa and exponent. *)
Definition str_float (f : PrimFloat.float) : string :=
  match FloatOps.Prim2SF f with
  | SpecFloat.S754_zero s => (if s then "-" else "") +:+ "0.0"
  | SpecFloat.S754_infinity s => if s then "-inf" else "inf"
  | SpecFloat.S754_nan => "nan"
  | SpecFloat.S754_finite s m e =>
      let whole := if e <? 0 then Z.pos m / 2 ^ (- e) else Z.pos m * 2 ^ e in
      let exact := if e <? 0 then Z.pos m mod 2 ^ (- e) =? 0 else true in
      if exact && (whole <? 10 ^ 16) then
        (if s then "-" else "") +:+ pretty whole +:+ ".0"
      else (if s then "-" else "") +:+ pretty (Z.pos m) +:+ "*2**" +:+ pretty e
  end.

(** *** What the module gets from outside the repository sources

    [get_output_path] is [caldp.process.get_output_path], which may read
    the world and may raise.  [new_client] is [boto3.client("s3")].
    [upload_fileobj] is the upload primitive of the client: for a body,
    a bucket and an object name it gives the byte counts it reports to
    the callback, in order, and the exception it ends with, if any.
    [getsize] is the size in bytes of a file with the given contents. *)
Record Env : Type := {
  get_output_path : string -> string -> World -> result string;
  new_client : result unit;
  upload_fileobj : data -> string -> string -> list Z * option exn;
  getsize : data -> Z;
}.

(** *** ProgressPercentage *)

Record ProgressPercentage : Type := {
  _filename : string;
  _size : PrimFloat.float;
  _seen_so_far : Z;
}.

Definition CR : string := String (PyStr.chr 13) EmptyString.

(** The line [__call__] writes. *)
Definition progress_line (filename : string) (seen : Z)
  (size percentage : PrimFloat.float) : string :=
  CR +:+ filename +:+ "  " +:+ pretty seen +:+ " / " +:+ str_float size
  +:+ "  (" +:+ fmt_2f percentage +:+ "%)".

Definition percentage_of (seen : Z) (size : PrimFloat.float) : PrimFloat.float :=
  PrimFloat.mul (PrimFloat.div (float_of_Z seen) size) (float_of_Z 100).

Definition is_zero (f : PrimFloat.float) : bool :=
  PrimFloat.eqb f PrimFloat.zero.

Section WithEnv.

Variable env : Env.

(** [ProgressPercentage.__init__].  [os.path.getsize] of a directory is
    the size of its entry, taken as 4096 here; [upload_tar] only gets
    here after it has opened the path as a file. *)
Definition progress_init (filename : string) : M ProgressPercentage := fun w =>
  match stat (fs w) (cwd w) filename with
  | inl e => (Raise (errno_exn e filename), w)
  | inr n =>
      let size := match n with File d => getsize env d | Dir => 4096 end in
      (Ok {| _filename := filename; _size := float_of_Z size;
             _seen_so_far := 0 |}, w)
  end.

(** The body of [ProgressPercentage.__call__], inside the lock: the
    counter is stored before the percentage is computed, so it keeps the
    increment when the division raises. *)
Definition progress_body (self : ProgressPercentage) (bytes_amount : Z)
  (out : string) : ProgressPercentage * string * option exn :=
  let seen := _seen_so_far self + bytes_amount in
  let self' := {| _filename := _filename self; _size := _size self;
                  _seen_so_far := seen |} in
  if is_zero (_size self) then (self', out, Some ZeroDivisionError)
  else
    (self',
     out +:+ progress_line (_filename self) seen (_size self)
               (percentage_of seen (_size self)),
     None).

(** [ProgressPercentage.__call__] called by one thread at a time. *)
Definition progress_call (self : ProgressPercentage) (bytes_amount : Z)
  : M ProgressPercentage := fun w =>
  let '(self', out, e) :=
    progress_body self bytes_amount (Log.stdout (sink w)) in
  let w' := set_log (logger w)
              {| Log.records := Log.records (sink w); Log.stdout := out |} w in
  match e with
  | None => (Ok self', w')
  | Some x => (Raise x, w')
  end.

Fixpoint progress_calls (self : ProgressPercentage) (amounts : list Z)
  : M ProgressPercentage :=
  match amounts with
  | [] => ret self
  | a :: rest => self' <- progress_call self a ;; progress_calls self' rest
  end.

(** [log.info(...)] on the logger of the process *)
Definition log_info (args : list pyval) : M unit :=
  update (fun w =>
            let '(l, o) := Log.info (logger w) (sink w) args Log.no_keys in
            set_log l o w).

Definition get_output_dir (output_uri : string) : M string := fun w =>
  if PyStr.startswith output_uri "file" then
    (Ok (PyStr.last_item (PyStr.split ":" output_uri)), w)
  else if PyStr.startswith output_uri "s3" then (Ok (abspath w "outputs"), w)
  else (Raise (UnboundLocalError "output_dir"), w).

Definition find_files (ipppssoot : string) : M (list string) :=
  let search_fits := ipppssoot +:+ "/*.fits" in
  let search_tra := ipppssoot +:+ "/*.tra" in
  let search_prev := ipppssoot +:+ "/previews/*" in
  read (fun w => glob w search_fits ++ glob w search_tra ++ glob w search_prev).

Definition make_tar (file_list : list string) (ipppssoot : string) : M string :=
  let tar := ipppssoot +:+ ".tar.gz" in
  log_info [VStr "Creating tarfile: "; VStr tar] ;;;
  present <- read (fun w => exists_ w tar) ;;
  (if present then remove tar else ret tt) ;;;
  self_name <- tarfile_open_x tar ;;
  tar_add_all self_name tar file_list [] ;;;
  log_info [VStr "Tar successful: "; VStr tar] ;;;
  let tar_dest := path_join ipppssoot tar in
  shutil_copy tar ipppssoot ;;;
  remove tar ;;;
  ret tar_dest.

(** [client.upload_fileobj(f, bucket, objectname, Callback=...)] *)
Definition client_upload (body : data) (bucket objectname : string)
  (callback : ProgressPercentage) : M unit :=
  let '(amounts, failure) := upload_fileobj env body bucket objectname in
  progress_calls callback amounts ;;;
  match failure with
  | Some e => raise e
  | None => update (add_upload (bucket, objectname, body))
  end.

Definition upload_tar (tar output_path : string) : M unit :=
  (fun w => (new_client env, w)) ;;;
  let parts := PyStr.split "/" (PyStr.drop 5 output_path) in
  let bucket := hd "" parts in
  let prefix := PyStr.join "/" (tl parts) in
  let objectname := prefix +:+ "/" +:+ basename tar in
  log_info [VStr ("Uploading: s3://" +:+ bucket +:+ "/" +:+ objectname)] ;;;
  if PyStr.startswith output_path "s3" then
    f <- read_file tar ;;
    callback <- progress_init tar ;;
    client_upload f bucket objectname callback
  else ret tt.

Definition tar_outputs (ipppssoot output_uri : string)
  : M (option (string * list string)) :=
  working_dir <- read getcwd ;;
  output_path <- (fun w => (get_output_path env output_uri ipppssoot w, w)) ;;
  output_dir <- get_output_dir output_uri ;;
  chdir output_dir ;;;
  file_list <- find_files ipppssoot ;;
  tar <- make_tar file_list ipppssoot ;;
  upload_tar tar output_path ;;;
  chdir working_dir ;;;
  if PyStr.startswith output_uri "file" then ret (Some (tar, file_list))
  else ret None.

End WithEnv.

End FileOps.

(** ** The progress callback called from several threads

    The storage client may call [ProgressPercentage.__call__] from its
    worker threads.  Each call is a thread that runs the body of
    [__call__] one step at a time; a schedule decides which thread moves
    next.  [with self._lock] is the only synchronisation. *)

Module Threads.

Import FS FileOps.

(** Where a call stands. *)
Inductive pc : Type :=
| Ready                       (* before [with self._lock] *)
| Entered                     (* holds the lock *)
| Loaded (v : Z)              (* has read [self._seen_so_far] *)
| Stored                      (* has assigned [self._seen_so_far] *)
| Wrote                       (* has written the progress line *)
| Returned (e : option exn).  (* has left the [with] block *)

Record thread : Type := {
  bytes_amount : Z;
  at_pc : pc;
}.

Record state : Type := {
  self : ProgressPercentage;
  lock : option nat;
  threads : list thread;
  lines : list string;
}.

Definition move (i : nat) (t : thread) (to : pc) (s : state) : list thread :=
  <[i := {| bytes_amount := bytes_amount t; at_pc := to |}]> (threads s).

Definition set_seen (v : Z) (p : ProgressPercentage) : ProgressPercentage :=
  {| _filename := _filename p; _size := _size p; _seen_so_far := v |}.

(** One step of thread [i]; [None] when it cannot move: it waits for the
    lock, it has returned, or there is no such thread. *)
Definition step (i : nat) (s : state) : option state :=
  match threads s !! i with
  | None => None
  | Some t =>
      match at_pc t with
      | Ready =>
          match lock s with
          | None => Some {| self := self s; lock := Some i;
                            threads := move i t Entered s; lines := lines s |}
          | Some _ => None
          end
      | Entered =>
          Some {| self := self s; lock := lock s;
                  threads := move i t (Loaded (_seen_so_far (self s))) s;
                  lines := lines s |}
      | Loaded v =>
          Some {| self := set_seen (v + bytes_amount t) (self s);
                  lock := lock s; threads := move i t Stored s;
                  lines := lines s |}
      | Stored =>
          if is_zero (_size (self s)) then
            Some {| self := self s; lock := None;
                    threads := move i t (Returned (Some ZeroDivisionError)) s;
                    lines := lines s |}
          else
            Some {| self := self s; lock := lock s;
                    threads := move i t Wrote s;
                    lines :=
                      lines s
                      ++ [progress_line (_filename (self s))
                            (_seen_so_far (self s)) (_size (self s))
                            (percentage_of (_seen_so_far (self s))
                               (_size (self s)))] |}
      | Wrote =>
          Some {| self := self s; lock := None;
                  threads := move i t (Returned None) s; lines := lines s |}
      | Returned _ => None
      end
  end.

(** A schedule names the thread to move at every turn; a thread that
    cannot move lets its turn pass. *)
Definition run (schedule : list nat) (s : state) : state :=
  fold_left (fun s i => default s (step i s)) schedule s.

Definition start (p : ProgressPercentage) (amounts : list Z) : state :=
  {| self := p; lock := None;
     threads := map (fun a => {| bytes_amount := a; at_pc := Ready |}) amounts;
     lines := [] |}.

Definition has_returned (t : thread) : bool :=
  match at_pc t with Returned _ => true | _ => false end.

Definition finished (s : state) : bool := forallb has_returned (threads s).

Definition sum (l : list Z) : Z := fold_right Z.add 0 l.

End Threads.

(** ** log.py: the functions built on the logger *)

Module LogTools.

Import Log.

(** [increment_errors(N)] *)
Definition increment_errors (self : CaldpLogger) (N : Z) : CaldpLogger :=
  set_counters (errors self + N) (warnings self) (infos self) (debugs self)
    self.

(** [standard_status()]: the three counts are read once, before the
    first of the three calls of [info]. *)
Definition standard_status (self : CaldpLogger) (o : Sink)
  : CaldpLogger * Sink :=
  let '(errors, warnings, infos) := status self in
  let '(self1, o1) := info self o [VInt errors; VStr "errors"] no_keys in
  let '(self2, o2) := info self1 o1 [VInt warnings; VStr "warnings"] no_keys in
  info self2 o2 [VInt infos; VStr "infos"] no_keys.

(** [srepr(obj)] *)
Definition srepr (obj : pyval) : string := PyStr.repr (str obj).

(** [s * n] for a string and an integer: nothing for [n <= 0]. *)
Fixpoint repeat_string (s : string) (n : nat) : string :=
  match n with
  | O => EmptyString
  | S k => s +:+ repeat_string s k
  end.

Definition mul (s : string) (n : Z) : string := repeat_string s (Z.to_nat n).

Definition len (s : string) : Z := Z.of_nat (String.length s).

(** A logging function as [divider] receives it in [func]. *)
Definition logfunc : Type :=
  CaldpLogger -> Sink -> list pyval -> Keys -> CaldpLogger * Sink.

(** [divider(name, char, n, func, **keys)]; [//] rounds down. *)
Definition divider (name char : string) (n : Z) (func : logfunc)
  (keys : Keys) (self : CaldpLogger) (o : Sink) : CaldpLogger * Sink :=
  if negb (String.eqb name EmptyString) then
    let n2 := (n - len name - 2) / 2 in
    func self o [VStr (mul char n2); VStr name; VStr (mul char n2)] keys
  else
    func self o [VStr (mul char n)] keys.

(** The calls that a client makes on the module, one after the other. *)
Inductive op : Type :=
| OWrite (args : list pyval) (keys : Keys)
| OInfo (args : list pyval) (keys : Keys)
| OWarn (args : list pyval) (keys : Keys)
| OError (args : list pyval) (keys : Keys)
| ODebug (args : list pyval) (keys : Keys)
| OVerbose (args : list pyval) (keys : Keys)
| OVerboseWarning (args : list pyval) (keys : Keys)
| OStandardStatus
| ODivider (name char : string) (n : Z) (keys : Keys)
| OIncrementErrors (N : Z)
| OReset.

Definition run_op (st : CaldpLogger * Sink) (c : op) : CaldpLogger * Sink :=
  match c with
  | OWrite args keys => write (fst st) (snd st) args keys
  | OInfo args keys => info (fst st) (snd st) args keys
  | OWarn args keys => warn (fst st) (snd st) args keys
  | OError args keys => error (fst st) (snd st) args keys
  | ODebug args keys => debug (fst st) (snd st) args keys
  | OVerbose args keys => verbose (fst st) (snd st) args keys
  | OVerboseWarning args keys => verbose_warning (fst st) (snd st) args keys
  | OStandardStatus => standard_status (fst st) (snd st)
  | ODivider name char n keys => divider name char n info keys (fst st) (snd st)
  | OIncrementErrors N => (increment_errors (fst st) N, snd st)
  | OReset => (reset (fst st), snd st)
  end.

Definition run_ops (st : CaldpLogger * Sink) (cs : list op)
  : CaldpLogger * Sink :=
  fold_left run_op cs st.

End LogTools.

(** ** log.py: handlers, formatters and what reaches the streams *)

Module LogHandlers.

Import Log.

(** Where a handler writes: the two standard streams, the log file that
    [logging.FileHandler] opened, or a file-like object that the caller
    passed to [add_stream_handler]. *)
Inductive stream : Type :=
| Stderr
| Stdout
| LogFile (path : string)
| FileLike (n : nat).

#[export] Instance stream_eq_dec : EqDecision stream.
Proof. solve_decision. Defined.

(** The numeric levels of [logging]. *)
Definition levelno (lv : levelname) : Z :=
  match lv with
  | DEBUG => 10
  | INFO => 20
  | WARNING => 30
  | ERROR => 40
  end.

Definition levelname_text (lv : levelname) : string :=
  match lv with
  | DEBUG => "DEBUG"
  | INFO => "INFO"
  | WARNING => "WARNING"
  | ERROR => "ERROR"
  end.

(** A formatter: the one [set_formatter] builds, with or without the
    time prefix, or the default of [logging], which prints the bare
    message. *)
Inductive Formatter : Type :=
| Bare
| Levelled (enable_time : bool).

(** [Formatter.format(record)] for a record made at the time that
    prints as [asctime]. *)
Definition format_record (f : Formatter) (asctime : string)
  (lv : levelname) (msg : string) : string :=
  match f with
  | Bare => msg
  | Levelled enable_time =>
      (if enable_time then asctime +:+ " - " else EmptyString)
      +:+ levelname_text lv +:+ " - " +:+ msg
  end.

(** A handler object. *)
Record Handler : Type := {
  target : stream;
  hlevel : Z;
  hformatter : Formatter;
}.

(** A [logging.Logger] object; its handlers are references to handler
    objects. *)
Record PyLogger : Type := {
  llevel : Z;
  propagate : bool;
  lhandlers : list nat;
}.

(** The state of [logging] and of the streams: the handler objects made
    so far (a reference is a position in this list), the loggers that
    [logging.getLogger] knows by name, and what has been written, oldest
    first. *)
Record Runtime : Type := {
  objs : list Handler;
  loggers : gmap string PyLogger;
  trace : list (stream * string);
}.

Definition set_objs (os : list Handler) (rt : Runtime) : Runtime :=
  {| objs := os; loggers := loggers rt; trace := trace rt |}.

Definition set_loggers (ls : gmap string PyLogger) (rt : Runtime) : Runtime :=
  {| objs := objs rt; loggers := ls; trace := trace rt |}.

Definition set_trace (tr : list (stream * string)) (rt : Runtime) : Runtime :=
  {| objs := objs rt; loggers := loggers rt; trace := tr |}.

Definition empty_runtime : Runtime :=
  {| objs := []; loggers := ∅; trace := [] |}.

(** The handler-side attributes of a [CaldpLogger]; [logger] is the
    logger registered under [name]. *)
Record Wiring : Type := {
  name : string;
  handlers : list nat;
  formatter : Formatter;
  console : option nat;
  log_file : option string;
  level : Z;
}.

Definition set_handlers (l : list nat) (self : Wiring) : Wiring :=
  {| name := name self; handlers := l; formatter := formatter self;
     console := console self; log_file := log_file self;
     level := level self |}.

Definition set_console (c : option nat) (self : Wiring) : Wiring :=
  {| name := name self; handlers := handlers self;
     formatter := formatter self; console := c; log_file := log_file self;
     level := level self |}.

Definition set_formatter_attr (f : Formatter) (self : Wiring) : Wiring :=
  {| name := name self; handlers := handlers self; formatter := f;
     console := console self; log_file := log_file self;
     level := level self |}.

(** *** The part of [logging] that the module calls *)

(** [logging.getLogger(name)]: the logger of that name, made on first
    use with level [NOTSET], propagation on and no handler. *)
Definition getLogger (name : string) (rt : Runtime) : Runtime :=
  match loggers rt !! name with
  | Some _ => rt
  | None =>
      set_loggers
        (<[name := {| llevel := 0; propagate := true; lhandlers := [] |}]>
           (loggers rt)) rt
  end.

(** [l.remove(x)]: the first occurrence goes; [None] stands for
    [ValueError]. *)
Fixpoint list_remove (x : nat) (l : list nat) : option (list nat) :=
  match l with
  | [] => None
  | y :: l' =>
      if Nat.eqb y x then Some l'
      else match list_remove x l' with
           | Some r => Some (y :: r)
           | None => None
           end
  end.

Definition is_in (x : nat) (l : list nat) : bool := existsb (Nat.eqb x) l.

(** [Logger.addHandler(hdlr)] *)
Definition addHandler (name : string) (hdlr : nat) (rt : Runtime) : Runtime :=
  set_loggers
    (alter (fun lg =>
              if is_in hdlr (lhandlers lg) then lg
              else {| llevel := llevel lg; propagate := propagate lg;
                      lhandlers := lhandlers lg ++ [hdlr] |})
           name (loggers rt)) rt.

(** [Logger.removeHandler(hdlr)] *)
Definition removeHandler (name : string) (hdlr : nat) (rt : Runtime)
  : Runtime :=
  set_loggers
    (alter (fun lg =>
              match list_remove hdlr (lhandlers lg) with
              | Some l => {| llevel := llevel lg; propagate := propagate lg;
                             lhandlers := l |}
              | None => lg
              end)
           name (loggers rt)) rt.

(** [Handler.setFormatter(f)] on the object at [hdlr]. *)
Definition setFormatter (f : Formatter) (os : list Handler) (hdlr : nat)
  : list Handler :=
  match os !! hdlr with
  | Some h => <[hdlr := {| target := target h; hlevel := hlevel h;
                           hformatter := f |}]> os
  | None => os
  end.

(** What the surroundings decide: the level and the handlers that a
    logger inherits from its ancestors, and whether the log file can be
    opened ([Some e] when opening raises [e]). *)
Record Logging : Type := {
  inherited_level : string -> Z;
  inherited_handlers : string -> list nat;
  open_log : string -> option exn;
}.

Section WithLogging.

Variable env : Logging.

(** [Logger.isEnabledFor(level)], with nothing disabled. *)
Definition isEnabledFor (name : string) (lg : PyLogger) (lv : levelname)
  : bool :=
  levelno lv >=? (if llevel lg =? 0 then inherited_level env name
                  else llevel lg).

(** [Handler.handle(record)] for a handler that the record reached. *)
Definition handle (asctime : string) (lv : levelname) (msg : string)
  (os : list Handler) (tr : list (stream * string)) (hdlr : nat)
  : list (stream * string) :=
  match os !! hdlr with
  | Some h =>
      if levelno lv >=? hlevel h
      then tr ++ [(target h,
                   format_record (hformatter h) asctime lv msg +:+ PyStr.nl)]
      else tr
  | None => tr
  end.

(** [Logger.callHandlers(record)]: the handlers of the logger, those of
    its ancestors when it propagates, and the handler of last resort
    (standard error, [WARNING], bare message) when there is none. *)
Definition callHandlers (name : string) (lg : PyLogger) (asctime : string)
  (lv : levelname) (msg : string) (rt : Runtime) : Runtime :=
  let found :=
    lhandlers lg ++ (if propagate lg then inherited_handlers env name else [])
  in
  match found with
  | [] =>
      if levelno lv >=? 30
      then set_trace (trace rt ++ [(Stderr, msg +:+ PyStr.nl)]) rt
      else rt
  | _ => set_trace (fold_left (handle asctime lv msg (objs rt)) found (trace rt)) rt
  end.

(** [self.logger.debug(msg)], [.info(msg)], [.warning(msg)] and
    [.error(msg)]. *)
Definition log_record (name : string) (asctime : string) (rt : Runtime)
  (rec : levelname * string) : Runtime :=
  match loggers rt !! name with
  | Some lg =>
      if isEnabledFor name lg (fst rec)
      then callHandlers name lg asctime (fst rec) (snd rec) rt
      else rt
  | None => rt
  end.

(** *** The methods of [CaldpLogger] *)

(** [set_formatter(enable_time)] *)
Definition set_formatter (self : Wiring) (enable_time : bool) (rt : Runtime)
  : Wiring * Runtime :=
  let f := Levelled enable_time in
  (set_formatter_attr f self,
   set_objs (fold_left (setFormatter f) (handlers self) (objs rt)) rt).

(** [add_stream_handler(filelike, level)]; the result is the new
    handler. *)
Definition add_stream_handler (self : Wiring) (filelike : stream)
  (level : Z) (rt : Runtime) : Wiring * Runtime * nat :=
  let handler := length (objs rt) in
  let h := {| target := filelike; hlevel := level;
              hformatter := formatter self |} in
  (set_handlers (handlers self ++ [handler]) self,
   addHandler (name self) handler (set_objs (objs rt ++ [h]) rt),
   handler).

(** [add_file_handler()] *)
Definition add_file_handler (self : Wiring) (rt : Runtime)
  : result (option nat) * Wiring * Runtime :=
  match log_file self with
  | Some path =>
      match open_log env path with
      | Some e => (Raise e, self, rt)
      | None =>
          let '(self1, rt1, handler) :=
            add_stream_handler self (LogFile path) (level self) rt in
          (Ok (Some handler), self1, rt1)
      end
  | None => (Ok None, self, rt)
  end.

(** [add_console_handler(stream)] *)
Definition add_console_handler (self : Wiring) (stream_ : stream)
  (rt : Runtime) : Wiring * Runtime :=
  match console self with
  | None =>
      let '(self1, rt1, handler) :=
        add_stream_handler self stream_ (level self) rt in
      (set_console (Some handler) self1, rt1)
  | Some _ => (self, rt)
  end.

(** [remove_stream_handler(handler)] *)
Definition remove_stream_handler (self : Wiring) (handler : nat)
  (rt : Runtime) : result unit * Wiring * Runtime :=
  match list_remove handler (handlers self) with
  | None => (Raise ValueError, self, rt)
  | Some l => (Ok tt, set_handlers l self, removeHandler (name self) handler rt)
  end.

(** [remove_console_handler()] *)
Definition remove_console_handler (self : Wiring) (rt : Runtime)
  : result unit * Wiring * Runtime :=
  match console self with
  | Some handler =>
      match remove_stream_handler self handler rt with
      | (Ok _, self1, rt1) => (Ok tt, set_console None self1, rt1)
      | (Raise e, self1, rt1) => (Raise e, self1, rt1)
      end
  | None => (Ok tt, self, rt)
  end.

(** [set_log_time(enable_time)] *)
Definition set_log_time (enable_time : bool) (self : Wiring) (rt : Runtime)
  : Wiring * Runtime :=
  set_formatter self enable_time rt.

(** [set_test_mode()]; the module name [CONSOLE_OUTPUT_STREAM] that it
    rebinds is read nowhere. *)
Definition set_test_mode (self : Wiring) (rt : Runtime)
  : result unit * Wiring * Runtime :=
  match remove_console_handler self rt with
  | (Ok _, self1, rt1) =>
      let '(self2, rt2) := add_console_handler self1 Stdout rt1 in
      let '(self3, rt3) := set_log_time false self2 rt2 in
      (Ok tt, self3, rt3)
  | (Raise e, self1, rt1) => (Raise e, self1, rt1)
  end.

(** [CaldpLogger.__init__] up to the counters (lines 69 to 88); the
    counters and the verbosity level follow in [Log.init]. *)
Definition init_handlers (name_ : string) (enable_console : bool)
  (level_ : Z) (enable_time : bool) (log_file_ : option string)
  (rt : Runtime) : result Wiring * Runtime :=
  let rt1 := getLogger name_ rt in
  let rt2 :=
    set_loggers
      (alter (fun lg => {| llevel := level_; propagate := false;
                           lhandlers := lhandlers lg |})
             name_ (loggers rt1)) rt1 in
  let self0 :=
    {| name := name_; handlers := []; formatter := Levelled enable_time;
       console := None; log_file := log_file_; level := level_ |} in
  match log_file_ with
  | Some _ =>
      match add_file_handler self0 rt2 with
      | (Ok _, self1, rt3) => (Ok (set_console None self1), rt3)
      | (Raise e, _, rt3) => (Raise e, rt3)
      end
  | None =>
      if enable_console then
        let '(self1, rt3) := add_console_handler self0 Stderr rt2 in
        (Ok self1, rt3)
      else (Ok self0, rt2)
  end.

(** A logging method of [CaldpLogger] together with what it sets off in
    [logging]: [core] is the method as modelled in [Log]; the text it
    writes to standard output comes first, then the records it hands to
    the logger are dispatched. *)
Definition logged
  (core : CaldpLogger -> Sink -> CaldpLogger * Sink) (asctime : string)
  (self : Wiring) (c : CaldpLogger) (rt : Runtime) : CaldpLogger * Runtime :=
  let '(c', o') := core c empty_sink in
  let rt1 :=
    if String.eqb (stdout o') EmptyString then rt
    else set_trace (trace rt ++ [(Stdout, stdout o')]) rt in
  (c', fold_left (log_record (name self) asctime) (records o') rt1).

End WithLogging.

(** A handler operation of a client, for sequences of them. *)
Inductive hop : Type :=
| HAddConsole (s : stream)
| HRemoveConsole
| HAddStream (filelike : stream) (level : Z)
| HRemoveStream (handler : nat)
| HSetFormatter (enable_time : bool)
| HSetTestMode.

(** One operation; one that raises leaves things where the exception
    found them. *)
Definition run_hop (st : Wiring * Runtime) (c : hop) : Wiring * Runtime :=
  match c with
  | HAddConsole s => add_console_handler (fst st) s (snd st)
  | HRemoveConsole =>
      let '(_, self, rt) := remove_console_handler (fst st) (snd st) in
      (self, rt)
  | HAddStream filelike level =>
      let '(self, rt, _) := add_stream_handler (fst st) filelike level (snd st)
      in (self, rt)
  | HRemoveStream handler =>
      let '(_, self, rt) := remove_stream_handler (fst st) handler (snd st) in
      (self, rt)
  | HSetFormatter enable_time => set_formatter (fst st) enable_time (snd st)
  | HSetTestMode =>
      let '(_, self, rt) := set_test_mode (fst st) (snd st) in (self, rt)
  end.

Definition run_hops (st : Wiring * Runtime) (cs : list hop)
  : Wiring * Runtime :=
  fold_left run_hop cs st.

End LogHandlers.

(** * Notions used in the statements *)

Module LogSpec.

Import Log.

(** The joined message before the filters: what the specification calls
    the formatted message of [info], [warn] and [error]. *)
Definition claimed_message (args : list pyval) : string :=
  PyStr.join " " (map str args) +:+ PyStr.nl.

Definition apply_filters (self : CaldpLogger) (text : string) : string :=
  fold_left (fun out filt => filt out) (filters self) text.

End LogSpec.

Module FileOpsSpec.

Import FS FileOps.

(** A small world for examples: the staging directory [/home/outputs] and
    the local destination [/tmp/out] both hold the outputs of job [J1];
    the process runs in [/home]. *)
Definition sample_tree : tree :=
  list_to_map
    [ (["tmp"], Dir); (["tmp"; "out"], Dir); (["tmp"; "out"; "J1"], Dir);
      (["tmp"; "out"; "J1"; "a.fits"], File (Raw "AAAA"));
      (["tmp"; "out"; "J1"; "b.tra"], File (Raw "BB"));
      (["tmp"; "out"; "J1"; "previews"], Dir);
      (["tmp"; "out"; "J1"; "previews"; "c.png"], File (Raw "C"));
      (["home"], Dir); (["home"; "outputs"], Dir);
      (["home"; "outputs"; "J1"], Dir);
      (["home"; "outputs"; "J1"; "a.fits"], File (Raw "AAAA")) ].

Definition sample_world : World :=
  {| fs := sample_tree; cwd := ["home"]; logger := Log.fresh_logger 0;
     sink := Log.empty_sink; uploads := [] |}.

Definition sample_output_path (output_uri ipppssoot : string) (w : World)
  : result string :=
  if PyStr.startswith output_uri "s3" then Ok (output_uri +:+ "/" +:+ ipppssoot)
  else Ok (PyStr.last_item (PyStr.split ":" output_uri)).

(** A storage client that takes the archive in three parts. *)
Definition sample_env : Env :=
  {| get_output_path := sample_output_path;
     new_client := Ok tt;
     upload_fileobj := fun _ _ _ => ([10; 10; 5], None);
     getsize := fun _ => 25 |}.

(** A storage client whose upload fails after the first part. *)
Definition failing_env : Env :=
  {| get_output_path := sample_output_path;
     new_client := Ok tt;
     upload_fileobj := fun _ _ _ => ([10], Some (ExternalError "S3UploadFailedError"));
     getsize := fun _ => 25 |}.

(** A computation that leaves the working directory where it was,
    whether it returns or raises. *)
Definition keeps_cwd {A} (m : M A) : Prop :=
  forall w, cwd (snd (m w)) = cwd w.

(** The three steps of [tar_outputs] between the two [os.chdir]. *)
Definition packaging_steps (env : Env) (ipppssoot output_path : string)
  : M (string * list string) :=
  file_list <- find_files ipppssoot ;;
  tar <- make_tar file_list ipppssoot ;;
  upload_tar env tar output_path ;;;
  ret (tar, file_list).

(** A name that can stand in a directory: not empty, not a dot entry,
    no slash in it. *)
Definition plain_name (n : string) : bool :=
  negb (is_dot n) && negb (String.eqb n "..") && negb (PyStr.contains "/" n).

(** The text of a directory path ends in a character that is no slash. *)
Definition ends_in_name (d : string) : Prop :=
  exists c l, rev (list_ascii_of_string d) = c :: l /\ is_slash c = false.

Definition visible (names : list string) : list string :=
  filter (fun x => ishidden x = false) names.

(** Two trees with the same directories resolve paths alike. *)
Definition same_dirs (t t' : tree) : Prop :=
  forall k, node_at t k = Some Dir <-> node_at t' k = Some Dir.

Definition tar_of (j : string) : string := j +:+ ".tar.gz".

(** Where the archive is written first, and where it ends up. *)
Definition transient_key (w : World) (j : string) : list string :=
  cwd w ++ [tar_of j].

Definition final_key (w : World) (j : string) : list string :=
  cwd w ++ [j; tar_of j].

(** What [make_tar] needs in order to succeed: the job directory exists
    in the working directory, neither place of the archive is taken by a
    directory, and every listed path is a regular file other than the
    transient archive. *)
Record ready (j : string) (file_list : list string) (w : World) : Prop := {
  ready_cwd : node_at (fs w) (cwd w) = Some Dir;
  ready_job : fs w !! (cwd w ++ [j]) = Some Dir;
  ready_transient : fs w !! transient_key w j <> Some Dir;
  ready_final : fs w !! final_key w j <> Some Dir;
  ready_files :
    Forall (fun f => exists q d,
                resolve (fs w) (cwd w) f = inr q
                /\ node_at (fs w) q = Some (File d)
                /\ q <> transient_key w j)
           file_list;
}.

(** The names of the members: the listed paths, without those that name
    the archive itself. *)
Definition member_names (w : World) (j : string) (file_list : list string)
  : list string :=
  map arcname
      (filter (fun f => String.eqb (abspath w f) (abspath w (tar_of j)) = false)
              file_list).

(** [make_tar] from the creation of the archive on, in a world where the
    transient place is free. *)
Definition make_tar_rest (file_list : list string) (ipppssoot : string)
  : M string :=
  let tar := tar_of ipppssoot in
  self_name <- tarfile_open_x tar ;;
  tar_add_all self_name tar file_list [] ;;;
  log_info [VStr "Tar successful: "; VStr tar] ;;;
  shutil_copy tar ipppssoot ;;;
  remove tar ;;;
  ret (path_join ipppssoot tar).

(** A listed path is usable when it names a regular file that is not the
    transient archive. *)
Definition listed_file (w : World) (j f : string) : Prop :=
  (exists d, stat (fs w) (cwd w) f = inr (File d))
  /\ resolve (fs w) (cwd w) f <> resolve (fs w) (cwd w) (tar_of j).

End FileOpsSpec.

Module ThreadSpec.

Import FS FileOps Threads.

Definition in_lock (t : thread) : bool :=
  match at_pc t with
  | Entered | Loaded _ | Stored | Wrote => true
  | Ready | Returned _ => false
  end.

Definition has_stored (t : thread) : bool :=
  match at_pc t with
  | Stored | Wrote | Returned _ => true
  | Ready | Entered | Loaded _ => false
  end.

Definition has_written (t : thread) : bool :=
  match at_pc t with
  | Wrote | Returned None => true
  | _ => false
  end.

(** What a thread has added to the counter so far. *)
Definition added (t : thread) : Z :=
  if has_stored t then bytes_amount t else 0.

(** The line that reports the counter [seen] for the object [p]. *)
Definition line_of (p : ProgressPercentage) (seen : Z) : string :=
  progress_line (_filename p) seen (_size p) (percentage_of seen (_size p)).

(** The facts that hold in every state a schedule can reach from
    [start p0 amounts]. *)
Record invariant (p0 : ProgressPercentage) (amounts : list Z) (s : state)
  : Prop := {
  inv_lock : forall i t,
      threads s !! i = Some t -> in_lock t = true -> lock s = Some i;
  inv_loaded : forall i t v,
      threads s !! i = Some t -> at_pc t = Loaded v ->
      v = _seen_so_far (self s);
  inv_seen :
      _seen_so_far (self s) = _seen_so_far p0 + sum (map added (threads s));
  inv_amounts : map bytes_amount (threads s) = amounts;
  inv_size : _size (self s) = _size p0;
  inv_name : _filename (self s) = _filename p0;
  inv_no_error : is_zero (_size p0) = false ->
      forall i t e, threads s !! i = Some t -> at_pc t = Returned e -> e = None;
  inv_written : forall i t,
      threads s !! i = Some t -> has_written t = true -> lines s <> [];
  inv_last : is_zero (_size p0) = false ->
      (forall i t, threads s !! i = Some t -> at_pc t <> Stored) ->
      lines s <> [] ->
      last (lines s) = Some (line_of p0 (_seen_so_far (self s)));
  inv_holder : forall i,
      lock s = Some i ->
      exists t, threads s !! i = Some t /\ in_lock t = true;
}.

(** The schedule that lets each call run alone, one call after the
    other: the five steps of thread 0, then those of thread 1, and so
    on. *)
Definition serial (n : nat) : list nat :=
  flat_map (fun i => repeat i 5) (seq 0 n).

(** The lines that calls made one after the other write, from the
    counter [seen] on. *)
Fixpoint lines_from (p : ProgressPercentage) (seen : Z) (amounts : list Z)
  : list string :=
  match amounts with
  | [] => []
  | a :: rest => line_of p (seen + a) :: lines_from p (seen + a) rest
  end.

(** Lines written one after the other, as one text. *)
Definition text (l : list string) : string :=
  fold_right String.append EmptyString l.

(** A call that waits to start, and one that has returned normally. *)
Definition waiting (a : Z) : thread := {| bytes_amount := a; at_pc := Ready |}.

Definition returned (a : Z) : thread :=
  {| bytes_amount := a; at_pc := Returned None |}.

(** Three calls whose steps alternate: thread 0, thread 1, thread 2, and
    again, until all have returned. *)
Definition round_robin : list nat :=
  concat (repeat [0; 1; 2]%nat 15).

End ThreadSpec.

Module FileOpsMoreSpec.

Import FS FileOps FileOpsSpec.

(** A computation that leaves the file system, the working directory
    and the list of uploads as they were, whether it returns or raises. *)
Definition read_only {A} (m : M A) : Prop :=
  forall w, fs (snd (m w)) = fs w /\ cwd (snd (m w)) = cwd w
            /\ uploads (snd (m w)) = uploads w.

(** A computation that leaves the file system and the working directory
    as they were. *)
Definition keeps_files {A} (m : M A) : Prop :=
  forall w, fs (snd (m w)) = fs w /\ cwd (snd (m w)) = cwd w.

(** A computation that hands nothing to the storage client. *)
Definition no_upload {A} (m : M A) : Prop :=
  forall w, uploads (snd (m w)) = uploads w.

End FileOpsMoreSpec.

Module LogToolsSpec.

Import Log LogTools.

(** Standard output holds whole lines: it is empty or ends in a newline. *)
Definition whole_lines (text : string) : Prop :=
  text = EmptyString \/ PyStr.endswith text PyStr.nl = true.

(** The flag [eol_pending] is down only when standard output holds
    whole lines. *)
Definition line_tracked (st : CaldpLogger * Sink) : Prop :=
  eol_pending (fst st) = false -> whole_lines (stdout (snd st)).

(** What [set_verbose] raises for a level outside its range. *)
Definition out_of_range : exn :=
  AssertionError "verbosity level must be in range -3..100".

(** The keywords of a call that passes [verbosity] and [end]. *)
Definition keys_of (end_ : option string) (verbosity : option Z) : Keys :=
  {| k_end := end_; k_sep := None; k_verbosity := verbosity |}.

(** The message of a logging call: the stringified arguments joined
    with one space, through the filters. *)
Definition message (self : CaldpLogger) (args : list pyval) : string :=
  fold_left (fun out filt => filt out) (filters self)
    (PyStr.join " " (map str args)).

End LogToolsSpec.

Module LogHandlersSpec.

Import Log LogHandlers.

(** The logger object holds the handlers that the [CaldpLogger] lists,
    in the same order, no handler twice, each with the formatter of the
    [CaldpLogger]; the logger does not propagate and has the level of
    the [CaldpLogger]. *)
Record wired (self : Wiring) (rt : Runtime) : Prop := {
  wired_logger :
    exists lg, loggers rt !! name self = Some lg
               /\ lhandlers lg = handlers self
               /\ propagate lg = false /\ llevel lg = level self;
  wired_nodup : NoDup (handlers self);
  wired_objs :
    Forall (fun hdlr => exists h, objs rt !! hdlr = Some h
                                  /\ hformatter h = formatter self)
           (handlers self);
}.

(** A handler as the module makes it. *)
Definition handler_on (s : stream) (level : Z) (f : Formatter) : Handler :=
  {| target := s; hlevel := level; hformatter := f |}.

(** A handler after [setFormatter]. *)
Definition reformatted (f : Formatter) (h : Handler) : Handler :=
  handler_on (target h) (hlevel h) f.

(** Surroundings in which the log file opens and nothing is inherited
    but the level [WARNING] of the root logger. *)
Definition plain_logging : Logging :=
  {| inherited_level := fun _ => 30;
     inherited_handlers := fun _ => [];
     open_log := fun _ => None |}.

(** The line a handler writes for a record. *)
Definition line (f : Formatter) (asctime : string) (lv : levelname)
  (msg : string) : string :=
  format_record f asctime lv msg +:+ PyStr.nl.

End LogHandlersSpec.

(** * Properties *)

(** ** The logger *)

Module LogFacts.

Import Log LogSpec.

Ltac triple := rewrite ?pair_equal_spec; repeat split; lia.

Lemma eformat_keeps (self : CaldpLogger) (o : Sink) args keys :
  let '(self', o', _) := eformat self o args keys in
  filters self' = filters self /\ errors self' = errors self
  /\ warnings self' = warnings self /\ infos self' = infos self
  /\ debugs self' = debugs self /\ verbose_level self' = verbose_level self
  /\ records o' = records o.
Proof.
  unfold eformat. destruct (eol_pending self); cbn; repeat split; reflexivity.
Qed.

Lemma eformat_message (self : CaldpLogger) (o : Sink) args :
  snd (eformat self o args no_keys)
  = apply_filters self (PyStr.join " " (map str args) +:+ "").
Proof.
  unfold eformat. destruct (eol_pending self); reflexivity.
Qed.

Lemma log_with_status lv (self : CaldpLogger) (o : Sink) args keys :
  status (fst (log_with lv self o args keys)) = status self.
Proof.
  unfold log_with. pose proof (eformat_keeps self o args keys) as H.
  destruct (eformat self o args keys) as [[self' o'] msg].
  destruct H as (_ & He & Hw & Hi & _). unfold status. cbn.
  now rewrite He, Hw, Hi.
Qed.

Lemma log_with_records lv (self : CaldpLogger) (o : Sink) args :
  records (snd (log_with lv self o args no_keys))
  = records o ++ [(lv, apply_filters self (PyStr.join " " (map str args) +:+ ""))].
Proof.
  unfold log_with. pose proof (eformat_keeps self o args no_keys) as H.
  pose proof (eformat_message self o args) as Hm.
  destruct (eformat self o args no_keys) as [[self' o'] msg].
  destruct H as (_ & _ & _ & _ & _ & _ & Hr). cbn in *. now rewrite Hr, Hm.
Qed.

Lemma error_status (self : CaldpLogger) o args keys :
  status (fst (error self o args keys))
  = (errors self + 1, warnings self, infos self).
Proof.
  unfold error. cbn. destruct (verbose_level self >? -3).
  - now rewrite log_with_status.
  - reflexivity.
Qed.

Lemma warn_status (self : CaldpLogger) o args keys :
  status (fst (warn self o args keys))
  = (errors self, warnings self + 1, infos self).
Proof.
  unfold warn. cbn. destruct (verbose_level self >? -2).
  - now rewrite log_with_status.
  - reflexivity.
Qed.

Lemma info_status (self : CaldpLogger) o args keys :
  status (fst (info self o args keys))
  = (errors self, warnings self, infos self + 1).
Proof.
  unfold info. cbn. destruct (verbose_level self >? -1).
  - now rewrite log_with_status.
  - reflexivity.
Qed.

Lemma count_cons p c cs :
  count p (c :: cs) = (if p c then 1 else 0) + count p cs.
Proof.
  unfold count. cbn [filter]. rewrite filter_cons.
  destruct (p c) eqn:E.
  - rewrite decide_True by reflexivity. cbn [length]. lia.
  - rewrite decide_False by discriminate. lia.
Qed.

Lemma run_calls_status cs : forall st,
  status (fst (run_calls st cs))
  = (errors (fst st) + count is_error cs,
     warnings (fst st) + count is_warn cs,
     infos (fst st) + count is_info cs).
Proof.
  induction cs as [|c cs IH]; intros [lg o].
  - cbn. unfold status, count. cbn. triple.
  - change (run_calls (lg, o) (c :: cs)) with (run_calls (run_call (lg, o) c) cs).
    rewrite IH, !count_cons.
    destruct c as [a k|a k|a k]; cbn [run_call fst snd is_error is_warn is_info].
    + pose proof (error_status lg o a k) as H. unfold status in H.
      injection H as -> -> ->. triple.
    + pose proof (warn_status lg o a k) as H. unfold status in H.
      injection H as -> -> ->. triple.
    + pose proof (info_status lg o a k) as H. unfold status in H.
      injection H as -> -> ->. triple.
Qed.

(** C5. For a level [L] between -3 and 100, [set_verbose(L)] succeeds and
    [get_verbose()] then gives [L]; [set_verbose(True)] leaves 50 and
    [set_verbose(False)] leaves 0; each call returns the level that was
    active before it. *)
Theorem set_verbose_then_get_verbose (self : CaldpLogger) (L : Z) :
  -3 <= L <= 100 ->
  (exists self', set_verbose self (LInt L) = Ok (self', get_verbose self)
                 /\ get_verbose self' = L)
  /\ (exists self', set_verbose self (LBool true) = Ok (self', get_verbose self)
                    /\ get_verbose self' = 50)
  /\ (exists self', set_verbose self (LBool false) = Ok (self', get_verbose self)
                    /\ get_verbose self' = 0).
Proof.
  intros [Hlo Hhi]. unfold set_verbose. repeat split.
  - exists (set_verbose_level L self). cbn [vlevel_num].
    apply Z.leb_le in Hlo. apply Z.leb_le in Hhi. rewrite Hlo, Hhi. cbn.
    split; reflexivity.
  - exists (set_verbose_level 50 self). split; reflexivity.
  - exists (set_verbose_level 0 self). split; reflexivity.
Qed.

Lemma set_verbose_then_get_verbose_witness :
  (exists self', set_verbose (fresh_logger 0) (LInt 60) = Ok (self', 0)
                 /\ get_verbose self' = 60).
Proof.
  destruct (set_verbose_then_get_verbose (fresh_logger 0) 60) as [H _];
    [lia | exact H].
Defined.

(** C6. After [reset()], any sequence of calls of [error], [warn] and
    [info] leaves [status()] at the number of calls of each kind,
    whatever the verbosity level and whatever the logger went through
    before; right after [reset()], [status()] is (0, 0, 0). *)
Theorem status_counts_calls (self : CaldpLogger) (o : Sink) (cs : list call) :
  status (fst (run_calls (reset self, o) cs))
  = (count is_error cs, count is_warn cs, count is_info cs)
  /\ status (reset self) = (0, 0, 0).
Proof.
  split.
  - rewrite run_calls_status. cbn [fst reset set_counters errors warnings infos].
    triple.
  - reflexivity.
Qed.

Lemma append_empty (s : string) : s +:+ "" = s.
Proof.
  induction s as [|c s IH].
  - reflexivity.
  - change (String c s +:+ "") with (String c (s +:+ "")). now rewrite IH.
Qed.

Lemma info_records (self : CaldpLogger) o args :
  records (snd (info self o args no_keys))
  = if verbose_level self >? -1
    then records o ++ [(INFO, apply_filters self (PyStr.join " " (map str args)))]
    else records o.
Proof.
  unfold info. cbn [verbose_level set_counters].
  destruct (verbose_level self >? -1); [|reflexivity].
  rewrite log_with_records. unfold apply_filters. cbn [filters set_counters].
  now rewrite append_empty.
Qed.

Lemma warn_records (self : CaldpLogger) o args :
  records (snd (warn self o args no_keys))
  = if verbose_level self >? -2
    then records o ++ [(WARNING, apply_filters self (PyStr.join " " (map str args)))]
    else records o.
Proof.
  unfold warn. cbn [verbose_level set_counters].
  destruct (verbose_level self >? -2); [|reflexivity].
  rewrite log_with_records. unfold apply_filters. cbn [filters set_counters].
  now rewrite append_empty.
Qed.

Lemma error_records (self : CaldpLogger) o args :
  records (snd (error self o args no_keys))
  = if verbose_level self >? -3
    then records o ++ [(ERROR, apply_filters self (PyStr.join " " (map str args)))]
    else records o.
Proof.
  unfold error. cbn [verbose_level set_counters].
  destruct (verbose_level self >? -3); [|reflexivity].
  rewrite log_with_records. unfold apply_filters. cbn [filters set_counters].
  now rewrite append_empty.
Qed.

Lemma verbose_skips (self : CaldpLogger) o args keys :
  verbose_level self < default DEFAULT_VERBOSITY_LEVEL (k_verbosity keys) ->
  verbose self o args keys = (self, o).
Proof.
  intros H. unfold verbose, should_output.
  apply Z.ltb_lt in H. now rewrite H.
Qed.

(** C7, as the specification states it, fails: the message that [info]
    hands to the sink is not the joined arguments followed by a newline. *)
Lemma info_message_newline_refuted :
  ~ (forall (self : CaldpLogger) (o : Sink) (args : list pyval),
        verbose_level self > -1 ->
        records (snd (info self o args no_keys))
        = records o ++ [(INFO, claimed_message args)]).
Proof.
  intros H.
  specialize (H (fresh_logger 0) empty_sink [VStr "a"; VStr "b"]).
  assert (Hv : verbose_level (fresh_logger 0) > -1) by (cbn; lia).
  specialize (H Hv). vm_compute in H. discriminate H.
Qed.

(** C7, amended. [info], [warn] and [error] hand to the sink the
    stringified arguments joined with a single space, with nothing
    appended, after the filters; [format] itself appends one newline.
    The record reaches the sink exactly when the verbosity level is above
    -1 for [info], -2 for [warn], -3 for [error].  A call of [verbose]
    whose verbosity is above the level of the logger changes nothing. *)
Theorem message_text_and_gates (self : CaldpLogger) (o : Sink)
  (args : list pyval) :
  records (snd (info self o args no_keys))
  = (if verbose_level self >? -1
     then records o ++ [(INFO, apply_filters self (PyStr.join " " (map str args)))]
     else records o)
  /\ records (snd (warn self o args no_keys))
     = (if verbose_level self >? -2
        then records o ++ [(WARNING, apply_filters self (PyStr.join " " (map str args)))]
        else records o)
  /\ records (snd (error self o args no_keys))
     = (if verbose_level self >? -3
        then records o ++ [(ERROR, apply_filters self (PyStr.join " " (map str args)))]
        else records o)
  /\ format self args no_keys = apply_filters self (claimed_message args)
  /\ (forall keys : Keys,
         verbose_level self < default DEFAULT_VERBOSITY_LEVEL (k_verbosity keys) ->
         verbose self o args keys = (self, o)).
Proof.
  split; [apply info_records|].
  split; [apply warn_records|].
  split; [apply error_records|].
  split; [reflexivity|].
  intros keys. apply verbose_skips.
Qed.

Lemma message_text_and_gates_witness :
  verbose (fresh_logger 50) empty_sink [VStr "x"]
    {| k_end := None; k_sep := None; k_verbosity := Some 60 |}
  = (fresh_logger 50, empty_sink).
Proof.
  destruct (message_text_and_gates (fresh_logger 50) empty_sink [VStr "x"])
    as (_ & _ & _ & _ & H).
  apply H. cbn. lia.
Defined.

(** While the module is being imported the name [warning] is not bound
    yet, so the recovery for a malformed [CALDP_VERBOSITY] raises. *)
Lemma import_raises_on_malformed (v : string) (o : Sink) :
  PyStr.int_of_str v = None ->
  import_module (Some v) o = (Raise (NameError "warning"), o).
Proof.
  intros H. unfold import_module, init. rewrite H. reflexivity.
Qed.

(** Once the module is imported the same recovery works: a logger built
    later gets the default level, and the warning is counted on
    [THE_LOGGER]. *)
Lemma init_after_import (v : string) (o : Sink) (lg : CaldpLogger) :
  PyStr.int_of_str v = None ->
  exists g' o',
    init {| THE_LOGGER := Some lg; warning_bound := true |} (Some v) o
    = (Ok (fresh_logger DEFAULT_VERBOSITY_LEVEL), g', o')
    /\ (warnings <$> THE_LOGGER g') = Some (warnings lg + 1).
Proof.
  intros H. unfold init, call_warning. rewrite H. cbn [warning_bound THE_LOGGER].
  pose proof (warn_status lg o (bad_format_args v) no_keys) as Hs.
  destruct (warn lg o (bad_format_args v) no_keys) as [lg' o'].
  exists {| THE_LOGGER := Some lg'; warning_bound := true |}, o'.
  split; [reflexivity|]. cbn in *. unfold status in Hs. now injection Hs as _ -> _.
Qed.

(** C2. With [CALDP_VERBOSITY] set to [abc], which does not parse as an
    integer, importing the module (the construction of [THE_LOGGER])
    raises [NameError] instead of warning and falling back to 50. *)
Theorem import_with_malformed_verbosity :
  PyStr.int_of_str "abc" = None
  /\ import_module (Some "abc") empty_sink
     = (Raise (NameError "warning"), empty_sink).
Proof.
  assert (H : PyStr.int_of_str "abc" = None) by reflexivity.
  split; [exact H|]. now apply import_raises_on_malformed.
Qed.

End LogFacts.

(** ** Strings and paths *)

Module StrFacts.

Import PyStr.

Lemma split_nonempty c s : split c s <> [].
Proof.
  destruct s as [|a s]; cbn; [discriminate|].
  destruct (Ascii.eqb a c); [discriminate|].
  destruct (split c s); discriminate.
Qed.

Lemma concat_cons sep x y l :
  String.concat sep (x :: y :: l) = x +:+ sep +:+ String.concat sep (y :: l).
Proof. reflexivity. Qed.

(** Splitting and joining again gives the text back. *)
Lemma join_split c s : join (String c "") (split c s) = s.
Proof.
  unfold join. induction s as [|a s IH]; [reflexivity|].
  cbn [split]. destruct (Ascii.eqb_spec a c) as [->|Hne].
  - pose proof (split_nonempty c s) as Hn.
    destruct (split c s) as [|h t]; [contradiction|].
    rewrite concat_cons, IH. reflexivity.
  - pose proof (split_nonempty c s) as Hn.
    destruct (split c s) as [|h t]; [contradiction|].
    rewrite <- IH. destruct t; reflexivity.
Qed.

Lemma split_pieces c s : Forall (fun x => contains c x = false) (split c s).
Proof.
  induction s as [|a s IH]; cbn [split].
  - constructor; [reflexivity | constructor].
  - destruct (Ascii.eqb_spec a c) as [->|Hne].
    + constructor; [reflexivity | exact IH].
    + pose proof (split_nonempty c s) as Hn.
      destruct (split c s) as [|h t]; [contradiction|].
      inversion IH as [|? ? Hh Ht]; subst. constructor; [|exact Ht].
      cbn. rewrite Hh. destruct (Ascii.eqb_spec a c); [contradiction | reflexivity].
Qed.

Lemma append_cons x (a b : string) : String x a +:+ b = String x (a +:+ b).
Proof. reflexivity. Qed.

Lemma append_assoc (a b c : string) : (a +:+ b) +:+ c = a +:+ b +:+ c.
Proof.
  induction a as [|x a IH]; [reflexivity|].
  now rewrite !append_cons, IH.
Qed.

Lemma concat_snoc sep l x y :
  String.concat sep ((x :: l) ++ [y])
  = String.concat sep (x :: l) +:+ sep +:+ y.
Proof.
  revert x. induction l as [|z l IH]; intros x.
  - reflexivity.
  - change ((x :: z :: l) ++ [y]) with (x :: ((z :: l) ++ [y])).
    change ((z :: l) ++ [y]) with (z :: (l ++ [y])) at 1.
    rewrite concat_cons. change (z :: l ++ [y]) with ((z :: l) ++ [y]).
    rewrite IH, concat_cons, !append_assoc. reflexivity.
Qed.

(** The last piece of a split holds no separator, and the text is that
    piece alone or ends with the separator followed by it. *)
Lemma last_of_split c s :
  contains c (last_item (split c s)) = false
  /\ (s = last_item (split c s)
      \/ exists pre, s = pre +:+ String c (last_item (split c s))).
Proof.
  pose proof (join_split c s) as Hj. pose proof (split_pieces c s) as Hp.
  pose proof (split_nonempty c s) as Hn. unfold last_item, join in *.
  destruct (exists_last Hn) as (l & r & El). rewrite El in *.
  rewrite List.last_last. apply Forall_app in Hp as [_ Hp].
  inversion Hp as [|? ? Hr _]. split; [exact Hr|].
  destruct l as [|x0 l].
  - left. symmetry. exact Hj.
  - right. rewrite concat_snoc in Hj. eexists. symmetry. exact Hj.
Qed.

End StrFacts.

(** ** file_ops.py *)

Module FileOpsFacts.

Import FS FileOps FileOpsSpec.

Lemma log_info_effect (args : list pyval) (w : World) :
  exists w',
    log_info args w = (Ok tt, w')
    /\ fs w' = fs w /\ cwd w' = cwd w /\ uploads w' = uploads w
    /\ Log.status (logger w')
       = (Log.errors (logger w), Log.warnings (logger w),
          Log.infos (logger w) + 1).
Proof.
  unfold log_info, update.
  pose proof (LogFacts.info_status (logger w) (sink w) args Log.no_keys) as H.
  destruct (Log.info (logger w) (sink w) args Log.no_keys) as [l o].
  eexists. split; [reflexivity|]. cbn in *. repeat split. exact H.
Qed.

(** C10. A URI that starts with neither [file] nor [s3] makes
    [get_output_dir] raise, since [output_dir] is never assigned.  For a
    URI that starts with [file] the result is what follows the last colon
    (the whole URI when it has none): it holds no colon, so it is not the
    literal path when the path has a colon in it. *)
Theorem get_output_dir_cases (output_uri : string) (w : World) :
  (PyStr.startswith output_uri "file" = false ->
   PyStr.startswith output_uri "s3" = false ->
   get_output_dir output_uri w = (Raise (UnboundLocalError "output_dir"), w))
  /\ (PyStr.startswith output_uri "file" = true ->
      exists output_dir,
        get_output_dir output_uri w = (Ok output_dir, w)
        /\ PyStr.contains ":" output_dir = false
        /\ (output_uri = output_dir
            \/ exists pre, output_uri = pre +:+ ":" +:+ output_dir))
  /\ fst (get_output_dir "file:/data/run:1" w) = Ok "1".
Proof.
  unfold get_output_dir. split; [|split].
  - intros Hf Hs. now rewrite Hf, Hs.
  - intros Hf. rewrite Hf.
    exists (PyStr.last_item (PyStr.split ":" output_uri)).
    split; [reflexivity|]. apply StrFacts.last_of_split.
  - reflexivity.
Qed.

Lemma get_output_dir_cases_witness :
  get_output_dir "ftp://host/dir"
    {| fs := ∅; cwd := []; logger := Log.fresh_logger 0;
       sink := Log.empty_sink; uploads := [] |}
  = (Raise (UnboundLocalError "output_dir"),
     {| fs := ∅; cwd := []; logger := Log.fresh_logger 0;
        sink := Log.empty_sink; uploads := [] |})
  /\ exists output_dir,
       get_output_dir "file:/tmp/out"
         {| fs := ∅; cwd := []; logger := Log.fresh_logger 0;
            sink := Log.empty_sink; uploads := [] |}
       = (Ok output_dir,
          {| fs := ∅; cwd := []; logger := Log.fresh_logger 0;
             sink := Log.empty_sink; uploads := [] |})
       /\ PyStr.contains ":" output_dir = false.
Proof.
  split.
  - destruct (get_output_dir_cases "ftp://host/dir"
                {| fs := ∅; cwd := []; logger := Log.fresh_logger 0;
                   sink := Log.empty_sink; uploads := [] |}) as (H & _).
    apply H; reflexivity.
  - destruct (get_output_dir_cases "file:/tmp/out"
                {| fs := ∅; cwd := []; logger := Log.fresh_logger 0;
                   sink := Log.empty_sink; uploads := [] |}) as (_ & H & _).
    destruct (H eq_refl) as (d & Hd & Hc & _). exists d. split; assumption.
Defined.

(** C3, as the specification states it, fails: a destination that begins
    with no recognised scheme makes [upload_tar] return normally, with
    nothing transferred. *)
Lemma upload_tar_unknown_scheme_refuted :
  ~ (forall (env : Env) (tar output_path : string) (w : World),
        PyStr.startswith output_path "s3" = false ->
        PyStr.startswith output_path "file" = false ->
        is_ok (fst (upload_tar env tar output_path w)) = false).
Proof.
  intros H.
  specialize (H sample_env "J1/J1.tar.gz" "ftp://host/dir" sample_world
                eq_refl eq_refl).
  vm_compute in H. discriminate H.
Qed.

(** [upload_tar] up to its test of the scheme. *)
Lemma upload_tar_start (env : Env) (tar output_path : string) (w : World) :
  new_client env = Ok tt ->
  exists w',
    fs w' = fs w /\ cwd w' = cwd w /\ uploads w' = uploads w
    /\ Log.infos (logger w') = Log.infos (logger w) + 1
    /\ upload_tar env tar output_path w
       = (if PyStr.startswith output_path "s3" then
            f <- read_file tar ;;
            callback <- progress_init env tar ;;
            client_upload env f
              (hd "" (PyStr.split "/" (PyStr.drop 5 output_path)))
              (PyStr.join "/" (tl (PyStr.split "/" (PyStr.drop 5 output_path)))
               +:+ "/" +:+ basename tar)
              callback
          else ret tt) w'.
Proof.
  intros Hc. unfold upload_tar, bind at 1. rewrite Hc. unfold bind at 1.
  match goal with |- context [log_info ?a w] =>
    destruct (log_info_effect a w) as (w' & -> & Hfs & Hcwd & Hup & Hst) end.
  exists w'. repeat split; try assumption.
  unfold Log.status in Hst. now injection Hst as _ _ ->.
Qed.

(** C3, amended. Once the storage client exists, a destination that does
    not begin with [s3] makes [upload_tar] return normally: nothing is
    transferred, the file system and the working directory are as
    before, and one info message has been counted.  A destination that
    begins with [s3] whose archive cannot be opened makes it raise. *)
Theorem upload_tar_by_scheme (env : Env) (tar output_path : string)
  (w : World) :
  new_client env = Ok tt ->
  (PyStr.startswith output_path "s3" = false ->
   exists w',
     upload_tar env tar output_path w = (Ok tt, w')
     /\ uploads w' = uploads w /\ fs w' = fs w /\ cwd w' = cwd w
     /\ Log.infos (logger w') = Log.infos (logger w) + 1)
  /\ (PyStr.startswith output_path "s3" = true ->
      forall e, stat (fs w) (cwd w) tar = inl e ->
      fst (upload_tar env tar output_path w) = Raise (errno_exn e tar)).
Proof.
  intros Hc.
  destruct (upload_tar_start env tar output_path w Hc)
    as (w' & Hfs & Hcwd & Hup & Hst & ->).
  split.
  - intros ->. exists w'. unfold ret. repeat split; assumption.
  - intros -> e He. unfold bind at 1, read_file.
    rewrite Hfs, Hcwd, He. reflexivity.
Qed.

Lemma upload_tar_by_scheme_witness :
  exists w',
    upload_tar sample_env "J1/J1.tar.gz" "/tmp/out" sample_world = (Ok tt, w')
    /\ uploads w' = uploads sample_world.
Proof.
  destruct (upload_tar_by_scheme sample_env "J1/J1.tar.gz" "/tmp/out"
              sample_world eq_refl) as (H & _).
  destruct (H eq_refl) as (w' & Hr & Hu & _). exists w'. split; assumption.
Defined.

(** *** The working directory *)

Lemma keeps_ret {A} (a : A) : keeps_cwd (ret a).
Proof. intros w. reflexivity. Qed.

Lemma keeps_raise {A} (e : exn) : keeps_cwd (@raise A e).
Proof. intros w. reflexivity. Qed.

Lemma keeps_read {A} (f : World -> A) : keeps_cwd (read f).
Proof. intros w. reflexivity. Qed.

Lemma keeps_bind {A B} (m : M A) (k : A -> M B) :
  keeps_cwd m -> (forall a, keeps_cwd (k a)) -> keeps_cwd (bind m k).
Proof.
  intros Hm Hk w. unfold bind. specialize (Hm w).
  destruct (m w) as [[a|e] w1]; cbn in *.
  - now rewrite Hk.
  - exact Hm.
Qed.

Lemma keeps_log_info args : keeps_cwd (log_info args).
Proof.
  intros w. destruct (log_info_effect args w) as (w' & -> & _ & H & _).
  exact H.
Qed.

Lemma keeps_remove p : keeps_cwd (remove p).
Proof.
  intros w. unfold remove.
  destruct (resolve (fs w) (cwd w) p); [reflexivity|].
  destruct (node_at (fs w) l) as [[]|]; reflexivity.
Qed.

Lemma keeps_read_file p : keeps_cwd (read_file p).
Proof.
  intros w. unfold read_file.
  destruct (stat (fs w) (cwd w) p) as [|[]]; reflexivity.
Qed.

Lemma keeps_write_file p d : keeps_cwd (write_file p d).
Proof.
  intros w. unfold write_file.
  destruct (resolve (fs w) (cwd w) p); [reflexivity|].
  destruct (node_at (fs w) l) as [[]|]; reflexivity.
Qed.

Lemma keeps_tarfile_open_x p : keeps_cwd (tarfile_open_x p).
Proof.
  intros w. unfold tarfile_open_x.
  destruct (resolve (fs w) (cwd w) p); [reflexivity|].
  destruct (node_at (fs w) l); reflexivity.
Qed.

Lemma keeps_tar_add_all self_name tar file_list :
  forall acc, keeps_cwd (tar_add_all self_name tar file_list acc).
Proof.
  induction file_list as [|f rest IH]; intros acc w; cbn [tar_add_all].
  - apply keeps_write_file.
  - destruct (tar_add w self_name f).
    + apply IH.
    + cbn [snd]. apply keeps_write_file.
Qed.

Lemma keeps_shutil_copy src dst : keeps_cwd (shutil_copy src dst).
Proof.
  intros w. unfold shutil_copy.
  destruct (samefile w src _); [reflexivity|].
  apply keeps_bind; [apply keeps_read_file|]. intros d.
  apply keeps_bind; [apply keeps_write_file|]. intros _. apply keeps_ret.
Qed.

Lemma keeps_find_files j : keeps_cwd (find_files j).
Proof. apply keeps_read. Qed.

Lemma keeps_make_tar file_list j : keeps_cwd (make_tar file_list j).
Proof.
  unfold make_tar.
  repeat first
    [ apply keeps_bind; [|intros ?]
    | apply keeps_log_info | apply keeps_read | apply keeps_remove
    | apply keeps_ret | apply keeps_tarfile_open_x | apply keeps_tar_add_all
    | apply keeps_shutil_copy
    | match goal with |- keeps_cwd (if ?b then _ else _) => destruct b end ].
Qed.

Lemma keeps_progress_init env p : keeps_cwd (progress_init env p).
Proof.
  intros w. unfold progress_init.
  destruct (stat (fs w) (cwd w) p); reflexivity.
Qed.

Lemma keeps_progress_call self n : keeps_cwd (progress_call self n).
Proof.
  intros w. unfold progress_call.
  destruct (progress_body self n (Log.stdout (sink w))) as [[self' out] [e|]];
    reflexivity.
Qed.

Lemma keeps_progress_calls amounts :
  forall self, keeps_cwd (progress_calls self amounts).
Proof.
  induction amounts as [|a rest IH]; intros self; cbn [progress_calls].
  - apply keeps_ret.
  - apply keeps_bind; [apply keeps_progress_call | exact IH].
Qed.

Lemma keeps_client_upload env body bucket objectname callback :
  keeps_cwd (client_upload env body bucket objectname callback).
Proof.
  unfold client_upload.
  destruct (upload_fileobj env body bucket objectname) as [amounts failure].
  apply keeps_bind; [apply keeps_progress_calls|]. intros _.
  destruct failure; [apply keeps_raise | intros w; reflexivity].
Qed.

Lemma keeps_upload_tar env tar output_path :
  keeps_cwd (upload_tar env tar output_path).
Proof.
  unfold upload_tar.
  apply keeps_bind; [intros w; reflexivity|]. intros _.
  apply keeps_bind; [apply keeps_log_info|]. intros _.
  destruct (PyStr.startswith output_path "s3"); [|apply keeps_ret].
  apply keeps_bind; [apply keeps_read_file|]. intros f.
  apply keeps_bind; [apply keeps_progress_init|]. intros cb.
  apply keeps_client_upload.
Qed.

Lemma keeps_packaging_steps env j output_path :
  keeps_cwd (packaging_steps env j output_path).
Proof.
  unfold packaging_steps.
  apply keeps_bind; [apply keeps_find_files|]. intros fl.
  apply keeps_bind; [apply keeps_make_tar|]. intros tar.
  apply keeps_bind; [apply keeps_upload_tar|]. intros _. apply keeps_ret.
Qed.

Lemma split_plain c (x : string) :
  PyStr.contains c x = false -> PyStr.split c x = [x].
Proof.
  induction x as [|a x IH]; [reflexivity|].
  cbn. destruct (Ascii.eqb a c); [discriminate|]. cbn.
  intros H. now rewrite (IH H).
Qed.

Lemma split_app_sep c (x rest : string) :
  PyStr.contains c x = false ->
  PyStr.split c (x +:+ String c rest) = x :: PyStr.split c rest.
Proof.
  induction x as [|a x IH]; intros H.
  - change ("" +:+ String c rest) with (String c rest).
    cbn [PyStr.split]. now rewrite Ascii.eqb_refl.
  - cbn in H. rewrite StrFacts.append_cons. cbn [PyStr.split].
    destruct (Ascii.eqb a c); [discriminate|]. cbn in H. now rewrite (IH H).
Qed.

(** Joining plain names and splitting again gives the names back. *)
Lemma split_join_plain (l : list string) :
  forallb plain_name l = true -> l <> [] ->
  PyStr.split "/" (PyStr.join "/" l) = l.
Proof.
  unfold PyStr.join. induction l as [|x l IH]; [contradiction|].
  intros H _. cbn [forallb] in H. apply andb_prop in H as [Hx Hl].
  assert (Hc : PyStr.contains "/" x = false).
  { unfold plain_name in Hx. apply andb_prop in Hx as [_ Hx].
    now apply negb_true_iff in Hx. }
  destruct l as [|y l].
  - cbn. now apply split_plain.
  - rewrite StrFacts.concat_cons.
    change ("/" +:+ String.concat "/" (y :: l))
      with (String "/" (String.concat "/" (y :: l))).
    rewrite split_app_sep by exact Hc. f_equal. apply IH; [exact Hl | discriminate].
Qed.

(** Plain names are walked one directory deeper each. *)
Lemma walk_plain (t : tree) (names : list string) :
  forallb plain_name names = true ->
  forall cur q, walk t cur names = inr q -> q = cur ++ names.
Proof.
  induction names as [|n names IH]; intros H cur q Hw.
  - cbn in Hw. injection Hw as <-. now rewrite app_nil_r.
  - cbn [forallb] in H. apply andb_prop in H as [Hn Hl].
    unfold plain_name in Hn. apply andb_prop in Hn as [Hn _].
    apply andb_prop in Hn as [Hd Hdd].
    apply negb_true_iff in Hd. apply negb_true_iff in Hdd.
    cbn [walk] in Hw. destruct (node_at t cur) as [[]|]; try discriminate.
    rewrite Hd, Hdd in Hw. apply (IH Hl) in Hw. rewrite Hw.
    now rewrite <- app_assoc.
Qed.

Lemma isabs_slash (x : string) : isabs ("/" +:+ x) = true.
Proof. destruct x; reflexivity. Qed.

(** Going back to the directory that [os.getcwd()] named. *)
Lemma chdir_getcwd (w0 w w' : World) :
  forallb plain_name (cwd w0) = true ->
  chdir (getcwd w0) w = (Ok tt, w') -> cwd w' = cwd w0.
Proof.
  intros Hp. unfold chdir, getcwd, resolve.
  change (String.eqb ("/" +:+ PyStr.join "/" (cwd w0)) "") with false.
  rewrite (isabs_slash (PyStr.join "/" (cwd w0))).
  change (PyStr.split "/" ("/" +:+ PyStr.join "/" (cwd w0)))
    with ("" :: PyStr.split "/" (PyStr.join "/" (cwd w0))).
  cbv iota.
  destruct (walk (fs w) [] ("" :: PyStr.split "/" (PyStr.join "/" (cwd w0))))
    as [e|q] eqn:Hw; [discriminate|].
  destruct (node_at (fs w) q) as [[]|]; try discriminate.
  intros H. injection H as <-. cbn [cwd set_cwd].
  cbn [walk node_at] in Hw. change (is_dot "") with true in Hw. cbv iota in Hw.
  destruct (cwd w0) as [|x l] eqn:Hc.
  - cbn in Hw. now injection Hw as <-.
  - rewrite split_join_plain in Hw by (exact Hp || discriminate).
    now apply (walk_plain _ _ Hp) in Hw.
Qed.

(** [tar_outputs] is the packaging steps between two changes of
    directory. *)
Lemma tar_outputs_unfold (env : Env) (j output_uri : string) (w : World) :
  tar_outputs env j output_uri w
  = (working_dir <- read getcwd ;;
     output_path <- (fun w => (get_output_path env output_uri j w, w)) ;;
     output_dir <- get_output_dir output_uri ;;
     chdir output_dir ;;;
     r <- packaging_steps env j output_path ;;
     chdir working_dir ;;;
     if PyStr.startswith output_uri "file" then ret (Some r) else ret None) w.
Proof.
  unfold tar_outputs, packaging_steps, bind, read, ret.
  repeat match goal with
         | |- context [match ?m with _ => _ end] => destruct m eqn:?
         end; try reflexivity; try congruence.
Qed.

Lemma get_output_dir_world (output_uri : string) (w : World) :
  snd (get_output_dir output_uri w) = w.
Proof.
  unfold get_output_dir.
  destruct (PyStr.startswith output_uri "file"); [reflexivity|].
  destruct (PyStr.startswith output_uri "s3"); reflexivity.
Qed.

(** C1, as the specification states it, fails: when the upload raises,
    [tar_outputs] leaves the process in the output directory. *)
Lemma tar_outputs_restores_cwd_refuted :
  ~ (forall (env : Env) (ipppssoot output_uri : string) (w : World),
        cwd (snd (tar_outputs env ipppssoot output_uri w)) = cwd w).
Proof.
  intros H.
  specialize (H failing_env "J1" "s3://bucket/prefix" sample_world).
  vm_compute in H. discriminate H.
Qed.

Lemma chdir_outcome (p : string) (w : World) :
  (exists e, chdir p w = (Raise e, w))
  \/ (exists q, chdir p w = (Ok tt, set_cwd q w)
                /\ resolve (fs w) (cwd w) p = inr q).
Proof.
  unfold chdir. destruct (resolve (fs w) (cwd w) p) as [e|q];
    [left; now eexists|].
  destruct (node_at (fs w) q) as [[]|];
    [left; now eexists | right; now exists q | left; now eexists].
Qed.

(** [tar_outputs] once the output directory is entered and the files
    are listed. *)
Lemma tar_outputs_entered (env : Env) (ipppssoot output_uri p d : string)
  (w w1 : World) (file_list : list string) :
  get_output_path env output_uri ipppssoot w = Ok p ->
  get_output_dir output_uri w = (Ok d, w) ->
  chdir d w = (Ok tt, w1) ->
  find_files ipppssoot w1 = (Ok file_list, w1) ->
  tar_outputs env ipppssoot output_uri w
  = (tar <- make_tar file_list ipppssoot ;;
     upload_tar env tar p ;;;
     chdir (getcwd w) ;;;
     (if PyStr.startswith output_uri "file"
      then ret (Some (tar, file_list)) else ret None)) w1.
Proof.
  intros Hpath Hd Hcd Hff. unfold tar_outputs.
  unfold bind at 1, read. unfold bind at 1. rewrite Hpath.
  unfold bind at 1. rewrite Hd. unfold bind at 1. rewrite Hcd.
  unfold bind at 1. now rewrite Hff.
Qed.

(** C1, amended.  The working directory after [tar_outputs] is fixed by
    where the run ended.  A failure of [get_output_path], of
    [get_output_dir] or of the change into the output directory is
    raised with nothing changed, so the working directory is the one at
    entry.  Once the output directory is entered, [find_files] always
    returns, and a failure of [make_tar], of [upload_tar] or of the
    change back is raised with the process left in the output
    directory.  Only when all steps return is the working directory the
    one at entry again. *)
Theorem tar_outputs_working_directory (env : Env)
  (ipppssoot output_uri : string) (w : World) :
  forallb plain_name (cwd w) = true ->
  (forall e,
      get_output_path env output_uri ipppssoot w = Raise e ->
      tar_outputs env ipppssoot output_uri w = (Raise e, w))
  /\ (forall p e,
        get_output_path env output_uri ipppssoot w = Ok p ->
        get_output_dir output_uri w = (Raise e, w) ->
        tar_outputs env ipppssoot output_uri w = (Raise e, w))
  /\ (forall p output_dir e w0,
        get_output_path env output_uri ipppssoot w = Ok p ->
        get_output_dir output_uri w = (Ok output_dir, w) ->
        chdir output_dir w = (Raise e, w0) ->
        tar_outputs env ipppssoot output_uri w = (Raise e, w))
  /\ (forall p output_dir w1,
        get_output_path env output_uri ipppssoot w = Ok p ->
        get_output_dir output_uri w = (Ok output_dir, w) ->
        chdir output_dir w = (Ok tt, w1) ->
        resolve (fs w) (cwd w) output_dir = inr (cwd w1)
        /\ exists file_list,
            find_files ipppssoot w1 = (Ok file_list, w1)
            /\ (forall e w2,
                   make_tar file_list ipppssoot w1 = (Raise e, w2) ->
                   tar_outputs env ipppssoot output_uri w = (Raise e, w2)
                   /\ cwd w2 = cwd w1)
            /\ (forall tar w2 e w3,
                   make_tar file_list ipppssoot w1 = (Ok tar, w2) ->
                   upload_tar env tar p w2 = (Raise e, w3) ->
                   tar_outputs env ipppssoot output_uri w = (Raise e, w3)
                   /\ cwd w3 = cwd w1)
            /\ (forall tar w2 w3 e w4,
                   make_tar file_list ipppssoot w1 = (Ok tar, w2) ->
                   upload_tar env tar p w2 = (Ok tt, w3) ->
                   chdir (getcwd w) w3 = (Raise e, w4) ->
                   tar_outputs env ipppssoot output_uri w = (Raise e, w4)
                   /\ cwd w4 = cwd w1)
            /\ (forall tar w2 w3 w4,
                   make_tar file_list ipppssoot w1 = (Ok tar, w2) ->
                   upload_tar env tar p w2 = (Ok tt, w3) ->
                   chdir (getcwd w) w3 = (Ok tt, w4) ->
                   tar_outputs env ipppssoot output_uri w
                   = (Ok (if PyStr.startswith output_uri "file"
                          then Some (tar, file_list) else None), w4)
                   /\ cwd w4 = cwd w)).
Proof.
  intros Hp. unfold tar_outputs.
  split; [|split; [|split]].
  - intros e He. unfold bind at 1, read. unfold bind at 1. now rewrite He.
  - intros p e Hpath Hd. unfold bind at 1, read. unfold bind at 1.
    rewrite Hpath. unfold bind at 1. now rewrite Hd.
  - intros p d e w0 Hpath Hd Hcd. unfold bind at 1, read. unfold bind at 1.
    rewrite Hpath. unfold bind at 1. rewrite Hd. unfold bind at 1.
    destruct (chdir_outcome d w) as [(e' & E)|(q & E & _)];
      rewrite E in Hcd; [|discriminate].
    injection Hcd as <- <-. now rewrite E.
  - intros p d w1 Hpath Hd Hcd.
    split.
    { destruct (chdir_outcome d w) as [(e' & E)|(q & E & Hq)];
        rewrite E in Hcd; [discriminate|].
      injection Hcd as <-. exact Hq. }
    assert (Hff : exists file_list,
               find_files ipppssoot w1 = (Ok file_list, w1))
      by (eexists; reflexivity).
    destruct Hff as (file_list & Hff). exists file_list.
    split; [exact Hff|].
    pose proof (keeps_make_tar file_list ipppssoot w1) as Kmt.
    fold (tar_outputs env ipppssoot output_uri).
    rewrite (tar_outputs_entered env _ _ p d w w1 file_list Hpath Hd Hcd Hff).
    split; [|split; [|split]].
    + intros e w2 Hmt. unfold bind at 1. rewrite Hmt in *. now split.
    + intros tar w2 e w3 Hmt Hup. unfold bind at 1. rewrite Hmt in *.
      pose proof (keeps_upload_tar env tar p w2) as Kup.
      unfold bind at 1. rewrite Hup in *. cbn [snd] in *.
      split; [reflexivity | congruence].
    + intros tar w2 w3 e w4 Hmt Hup Hback. unfold bind at 1.
      rewrite Hmt in *.
      pose proof (keeps_upload_tar env tar p w2) as Kup.
      unfold bind at 1. rewrite Hup in *. cbn [snd] in *.
      unfold bind at 1. rewrite Hback. split; [reflexivity|].
      destruct (chdir_outcome (getcwd w) w3) as [(e' & E)|(q & E & _)];
        rewrite E in Hback; [|discriminate].
      injection Hback as _ <-. congruence.
    + intros tar w2 w3 w4 Hmt Hup Hback. unfold bind at 1.
      rewrite Hmt. unfold bind at 1. rewrite Hup.
      unfold bind at 1. rewrite Hback.
      split; [now destruct (PyStr.startswith output_uri "file")|].
      now apply (chdir_getcwd w w3 w4).
Qed.

Lemma tar_outputs_working_directory_witness :
  exists e w3,
    tar_outputs failing_env "J1" "s3://bucket/prefix" sample_world
    = (Raise e, w3)
    /\ cwd w3 = ["home"; "outputs"].
Proof.
  destruct (tar_outputs_working_directory failing_env "J1"
              "s3://bucket/prefix" sample_world eq_refl)
    as (_ & _ & _ & H).
  destruct (H "s3://bucket/prefix/J1" "/home/outputs"
              (set_cwd ["home"; "outputs"] sample_world))
    as (_ & file_list & Hff & _ & H2 & _);
    [reflexivity | reflexivity | reflexivity |].
  assert (Hfl : file_list = ["J1/a.fits"])
    by (vm_compute in Hff; now injection Hff).
  subst file_list.
  eexists _, _.
  eapply H2; [vm_compute; reflexivity | vm_compute; reflexivity].
Defined.

(** *** Patterns and file discovery *)

Lemma chars_append (a b : string) :
  list_ascii_of_string (a +:+ b)
  = list_ascii_of_string a ++ list_ascii_of_string b.
Proof.
  induction a as [|c a IH]; [reflexivity|].
  rewrite StrFacts.append_cons. cbn. now rewrite IH.
Qed.

Lemma string_of_chars_app (a b : list ascii) :
  string_of_list_ascii (a ++ b)
  = string_of_list_ascii a +:+ string_of_list_ascii b.
Proof.
  induction a as [|c a IH]; [reflexivity|].
  cbn [app string_of_list_ascii]. now rewrite IH, StrFacts.append_cons.
Qed.

Lemma match_star_nil ts :
  match_tokens (TStar :: ts) [] = match_tokens ts [] || false.
Proof. reflexivity. Qed.

Lemma match_star_cons ts c s :
  match_tokens (TStar :: ts) (c :: s)
  = match_tokens ts (c :: s) || match_tokens (TStar :: ts) s.
Proof. reflexivity. Qed.

(** A star followed by [ts] matches the texts that have a tail matched
    by [ts]. *)
Lemma match_star ts s :
  match_tokens (TStar :: ts) s = true
  <-> exists pre suf, s = pre ++ suf /\ match_tokens ts suf = true.
Proof.
  induction s as [|c s IH].
  - rewrite match_star_nil, orb_false_r. split.
    + intros H. now exists [], [].
    + intros (pre & suf & E & H). symmetry in E.
      apply app_eq_nil in E as [_ ->]. exact H.
  - rewrite match_star_cons, orb_true_iff, IH. split.
    + intros [H|(pre & suf & -> & H)].
      * now exists [], (c :: s).
      * now exists (c :: pre), suf.
    + intros (pre & suf & E & H). destruct pre as [|x pre].
      * left. cbn in E. now rewrite E.
      * right. injection E as _ ->. now exists pre, suf.
Qed.

Lemma match_literals cs s :
  match_tokens (map TLit cs) s = true <-> s = cs.
Proof.
  revert s. induction cs as [|c cs IH]; intros s; cbn [map match_tokens].
  - destruct s; split; congruence.
  - destruct s as [|x s]; [split; congruence|].
    cbn [tok_matches]. rewrite andb_true_iff, IH.
    destruct (Ascii.eqb_spec c x) as [->|Hne]; split.
    + intros [_ ->]. reflexivity.
    + intros H. injection H as ->. now split.
    + intros [H _]. discriminate H.
    + intros H. injection H as -> _. contradiction.
Qed.

(** The pattern made of a star and a literal extension matches exactly
    the names that end in the extension. *)
Lemma fnmatch_star_literal (ext : string) (x : string) :
  tokens 0 (list_ascii_of_string ("*" +:+ ext))
  = TStar :: map TLit (list_ascii_of_string ext) ->
  fnmatch x ("*" +:+ ext) = true <-> exists pre, x = pre +:+ ext.
Proof.
  intros Ht. unfold fnmatch. rewrite Ht, match_star. split.
  - intros (pre & suf & E & H). apply match_literals in H. subst suf.
    exists (string_of_list_ascii pre).
    rewrite <- (string_of_list_ascii_of_string x), E, string_of_chars_app.
    now rewrite string_of_list_ascii_of_string.
  - intros (pre & ->). exists (list_ascii_of_string pre), (list_ascii_of_string ext).
    split; [apply chars_append | now apply match_literals].
Qed.

Lemma fnmatch_fits (x : string) :
  fnmatch x "*.fits" = true <-> exists pre, x = pre +:+ ".fits".
Proof. now apply (fnmatch_star_literal ".fits"). Qed.

Lemma fnmatch_tra (x : string) :
  fnmatch x "*.tra" = true <-> exists pre, x = pre +:+ ".tra".
Proof. now apply (fnmatch_star_literal ".tra"). Qed.

Lemma fnmatch_star (x : string) : fnmatch x "*" = true.
Proof.
  unfold fnmatch. change (tokens 0 (list_ascii_of_string "*")) with [TStar].
  apply match_star. exists (list_ascii_of_string x), []. split.
  - now rewrite app_nil_r.
  - reflexivity.
Qed.

Lemma has_magic_append (a b : string) :
  has_magic (a +:+ b) = has_magic a || has_magic b.
Proof. unfold has_magic. now rewrite chars_append, existsb_app. Qed.

Lemma contains_chars c (s : string) :
  PyStr.contains c s = existsb (fun a => Ascii.eqb a c) (list_ascii_of_string s).
Proof. induction s as [|a s IH]; cbn; [reflexivity | now rewrite IH]. Qed.

Lemma no_slash_chars (s : string) :
  PyStr.contains "/" s = false ->
  forallb (fun c => negb (is_slash c)) (list_ascii_of_string s) = true.
Proof.
  rewrite contains_chars. induction (list_ascii_of_string s) as [|a l IH];
    cbn; [reflexivity|].
  intros H. apply orb_false_elim in H as [Ha Hl]. unfold is_slash at 1.
  now rewrite Ha, IH.
Qed.

Lemma forallb_rev {A} (f : A -> bool) (l : list A) :
  forallb f (rev l) = forallb f l.
Proof.
  induction l as [|a l IH]; [reflexivity|].
  cbn. rewrite forallb_app, IH. cbn. rewrite andb_true_r. apply andb_comm.
Qed.

Lemma take_while_all f (l rest : list ascii) (c : ascii) :
  forallb f l = true -> f c = false ->
  take_while f (l ++ c :: rest) = l.
Proof.
  intros Hl Hc. induction l as [|a l IH]; cbn in *.
  - now rewrite Hc.
  - apply andb_prop in Hl as [Ha Hl]. now rewrite Ha, IH.
Qed.

Lemma drop_while_all f (l rest : list ascii) (c : ascii) :
  forallb f l = true -> f c = false ->
  drop_while f (l ++ c :: rest) = c :: rest.
Proof.
  intros Hl Hc. induction l as [|a l IH]; cbn in *.
  - now rewrite Hc.
  - apply andb_prop in Hl as [Ha Hl]. now rewrite Ha, IH.
Qed.

(** [os.path.split] gives back the two sides of the last slash. *)
Lemma path_split_join (d base : string) :
  ends_in_name d -> PyStr.contains "/" base = false ->
  path_split (d +:+ "/" +:+ base) = (d, base).
Proof.
  intros (c & l & Hd & Hc) Hb. unfold path_split.
  rewrite chars_append, rev_app_distr.
  change (list_ascii_of_string ("/" +:+ base))
    with ("/"%char :: list_ascii_of_string base).
  cbn [rev]. rewrite <- app_assoc. cbn [app].
  assert (Hr : forallb (fun c => negb (is_slash c))
                 (rev (list_ascii_of_string base)) = true).
  { rewrite forallb_rev. now apply no_slash_chars. }
  assert (Hs : negb (is_slash "/") = false) by reflexivity.
  rewrite (take_while_all _ _ _ "/"%char Hr Hs).
  rewrite (drop_while_all _ _ _ "/"%char Hr Hs).
  rewrite Hd. cbn [forallb drop_while]. change (is_slash "/") with true.
  rewrite Hc. cbn [andb]. rewrite <- Hd, !rev_involutive.
  now rewrite !string_of_list_ascii_of_string.
Qed.

Lemma plain_ends_in_name (j : string) :
  j <> "" -> PyStr.contains "/" j = false -> ends_in_name j.
Proof.
  intros Hne Hc. apply no_slash_chars in Hc. rewrite <- forallb_rev in Hc.
  destruct (rev (list_ascii_of_string j)) as [|c l] eqn:E.
  - destruct j; [contradiction|]. cbn in E. now apply app_eq_nil in E as [_ E].
  - cbn in Hc. apply andb_prop in Hc as [Hc _]. apply negb_true_iff in Hc.
    now exists c, l.
Qed.

Lemma previews_ends_in_name (j : string) : ends_in_name (j +:+ "/previews").
Proof.
  unfold ends_in_name. rewrite chars_append, rev_app_distr.
  now exists "s"%char,
    (rev (list_ascii_of_string "/preview") ++ rev (list_ascii_of_string j)).
Qed.

(** A pattern whose directory part is literal is matched in that
    directory alone. *)
Lemma glob_in_literal_dir (w : World) (d base : string) :
  d <> "" -> ends_in_name d -> has_magic d = false ->
  PyStr.contains "/" base = false -> has_magic base = true ->
  glob w (d +:+ "/" +:+ base) = map (path_join d) (glob1 w d base false).
Proof.
  intros Hne Hd Hm Hb Hbm. unfold glob. cbn [iglob].
  rewrite (path_split_join d base Hd Hb).
  rewrite !has_magic_append, Hm, Hbm, orb_true_r. cbn [negb].
  apply String.eqb_neq in Hne. rewrite Hne, andb_false_r.
  cbn [flat_map]. now rewrite app_nil_r.
Qed.

Lemma glob1_extension (w : World) (d pattern : string) :
  ishidden pattern = false ->
  glob1 w d pattern false
  = filter (fun x => fnmatch x pattern = true) (visible (glob_listdir w d false)).
Proof. intros H. unfold glob1. now rewrite H. Qed.

Lemma filter_all {A} (P : A -> Prop) `{forall x, Decision (P x)} (l : list A) :
  (forall x, P x) -> filter P l = l.
Proof.
  intros HP. induction l as [|a l IH]; [reflexivity|].
  rewrite filter_cons, decide_True by apply HP. now rewrite IH.
Qed.

Lemma drop_while_length f (l : list ascii) :
  (length (drop_while f l) <= length l)%nat.
Proof.
  induction l as [|c l IH]; [reflexivity|].
  cbn. destruct (f c); cbn; lia.
Qed.

Lemma drop_while_head f (l : list ascii) c rest :
  drop_while f l = c :: rest -> f c = false.
Proof.
  induction l as [|a l IH]; [discriminate|].
  cbn. destruct (f a) eqn:E; [exact IH|]. intros H. now injection H as <- _.
Qed.

Lemma slashes_no_magic (l : list ascii) :
  forallb is_slash l = true -> existsb is_magic_char l = false.
Proof.
  induction l as [|c l IH]; [reflexivity|].
  cbn. intros H. apply andb_prop in H as [Hc Hl]. rewrite (IH Hl).
  unfold is_slash in Hc. apply Ascii.eqb_eq in Hc. now subst c.
Qed.

Lemma existsb_rev {A} (f : A -> bool) (l : list A) :
  existsb f (rev l) = existsb f l.
Proof.
  induction l as [|a l IH]; [reflexivity|].
  cbn. rewrite existsb_app, IH. cbn. rewrite orb_false_r. apply orb_comm.
Qed.

Lemma string_length_chars (s : string) :
  String.length s = length (list_ascii_of_string s).
Proof. induction s as [|c s IH]; [reflexivity|]. cbn. now rewrite IH. Qed.

(** A directory part with a pattern in it is shorter than the whole
    path, so the fuel of [glob] never runs out. *)
Lemma path_split_shorter (p : string) :
  has_magic (fst (path_split p)) = true ->
  (String.length (fst (path_split p)) < String.length p)%nat.
Proof.
  unfold path_split, has_magic. cbn [fst].
  rewrite !string_length_chars, list_ascii_of_string_of_list_ascii.
  rewrite existsb_rev, length_rev.
  rewrite <- (length_rev (list_ascii_of_string p)).
  set (r := rev (list_ascii_of_string p)).
  pose proof (drop_while_length (fun c => negb (is_slash c)) r) as Hlen.
  destruct (forallb is_slash (drop_while (fun c => negb (is_slash c)) r)) eqn:E.
  - intros H. now rewrite (slashes_no_magic _ E) in H.
  - intros _.
    destruct (drop_while (fun c => negb (is_slash c)) r) as [|c rest] eqn:Ed;
      [discriminate|].
    apply drop_while_head in Ed. apply negb_false_iff in Ed.
    cbn [drop_while]. rewrite Ed.
    pose proof (drop_while_length is_slash rest). cbn [length] in Hlen. lia.
Qed.

Lemma iglob_fuel (w : World) :
  forall (n m : nat) (pathname : string) (dironly : bool),
    (String.length pathname < n)%nat -> (String.length pathname < m)%nat ->
    iglob n w pathname dironly = iglob m w pathname dironly.
Proof.
  induction n as [|n IH]; intros m pathname dironly Hn Hm; [lia|].
  destruct m as [|m]; [lia|]. cbn [iglob].
  pose proof (path_split_shorter pathname) as Hs.
  destruct (path_split pathname) as [dirname base]. cbn [fst] in Hs.
  destruct (negb (has_magic pathname)); [reflexivity|].
  destruct (String.eqb dirname ""); [reflexivity|].
  destruct (has_magic dirname) eqn:Hd.
  - specialize (Hs eq_refl). rewrite (IH m dirname true) by lia. reflexivity.
  - now rewrite andb_false_r.
Qed.

(** [glob] with any larger fuel gives the same result. *)
Lemma glob_fuel (w : World) (pathname : string) (n : nat) :
  (String.length pathname < n)%nat ->
  iglob n w pathname false = glob w pathname.
Proof. intros H. unfold glob. apply iglob_fuel; lia. Qed.

Lemma walk_app (t : tree) (l1 l2 : list string) :
  forall cur,
    walk t cur (l1 ++ l2)
    = match walk t cur l1 with
      | inl e => inl e
      | inr c => walk t c l2
      end.
Proof.
  induction l1 as [|x l1 IH]; intros cur; [reflexivity|].
  cbn [app walk]. destruct (node_at t cur) as [[]|]; try reflexivity.
  destruct (is_dot x); [apply IH|].
  destruct (String.eqb x ".."); apply IH.
Qed.

Lemma listing_of_no_directory (w : World) (d : string) :
  d <> "" -> isdir w d = false -> glob_listdir w d false = [].
Proof.
  intros Hne. apply String.eqb_neq in Hne.
  unfold isdir, stat, glob_listdir. rewrite Hne.
  destruct (resolve (fs w) (cwd w) d) as [|q]; [reflexivity|].
  destruct (node_at (fs w) q) as [[]|]; [reflexivity | discriminate | reflexivity].
Qed.

Lemma relative_name (j x : string) :
  j <> "" -> PyStr.contains "/" j = false -> isabs (j +:+ x) = false.
Proof.
  intros Hne Hc. destruct j as [|c j]; [contradiction|].
  cbn in Hc. apply orb_false_elim in Hc as [Hc _].
  unfold isabs, PyStr.startswith. rewrite StrFacts.append_cons.
  change (String.prefix "/" (String c (j +:+ x)))
    with (if ascii_dec "/" c then String.prefix "" (j +:+ x) else false).
  destruct (ascii_dec "/" c) as [<-|]; [discriminate | reflexivity].
Qed.

Lemma listing_under_no_directory (w : World) (j : string) :
  j <> "" -> PyStr.contains "/" j = false -> isdir w j = false ->
  glob_listdir w (j +:+ "/previews") false = [].
Proof.
  intros Hne Hc.
  pose proof (relative_name j "" Hne Hc) as Hr1.
  rewrite LogFacts.append_empty in Hr1.
  assert (E1 : String.eqb j "" = false) by now apply String.eqb_neq.
  assert (E2 : String.eqb (j +:+ "/previews") "" = false).
  { destruct j; [contradiction | reflexivity]. }
  unfold isdir, stat, glob_listdir. rewrite E2. unfold resolve.
  rewrite (relative_name j "/previews" Hne Hc), Hr1, E1, E2.
  change (j +:+ "/previews") with (j +:+ String "/" "previews").
  rewrite (split_app_sep "/" j "previews" Hc), (split_plain "/" j Hc).
  change (PyStr.split "/" "previews") with ["previews"].
  change [j; "previews"] with ([j] ++ ["previews"]). rewrite walk_app.
  destruct (walk (fs w) (cwd w) [j]) as [|q]; [reflexivity|].
  cbn [walk]. change (is_dot "previews") with false.
  change (String.eqb "previews" "..") with false. cbv iota.
  destruct (node_at (fs w) q) as [[]|]; [reflexivity | discriminate | reflexivity].
Qed.

(** C8, as the specification states it, fails: for the job identifier
    [*] there is no directory of that name, yet [find_files] returns the
    science files of every job directory. *)
Lemma find_files_missing_directory_refuted :
  ~ (forall (ipppssoot : string) (w : World),
        isdir w ipppssoot = false -> fst (find_files ipppssoot w) = Ok []).
Proof.
  intros H.
  specialize (H "*" (set_cwd ["tmp"; "out"] sample_world) eq_refl).
  vm_compute in H. discriminate H.
Qed.

(** C8, amended. For a job identifier that is a path component with no
    pattern character in it, [find_files] returns, in this order: the
    entries of the job directory whose names match [*.fits], those whose
    names match [*.tra], and the entries of its [previews] directory,
    each joined to its directory.  An entry whose name begins with a dot
    is in none of the three groups.  A name matches [*.fits] when it ends
    in [.fits], and likewise for [.tra].  When the job directory does
    not exist the result is empty. *)
Theorem find_files_groups (ipppssoot : string) (w : World) :
  ipppssoot <> "" ->
  PyStr.contains "/" ipppssoot = false ->
  has_magic ipppssoot = false ->
  find_files ipppssoot w
  = (Ok (map (path_join ipppssoot)
           (filter (fun x => fnmatch x "*.fits" = true)
                   (visible (glob_listdir w ipppssoot false)))
         ++ map (path_join ipppssoot)
              (filter (fun x => fnmatch x "*.tra" = true)
                      (visible (glob_listdir w ipppssoot false)))
         ++ map (path_join (ipppssoot +:+ "/previews"))
              (visible (glob_listdir w (ipppssoot +:+ "/previews") false))),
     w)
  /\ (forall x, fnmatch x "*.fits" = true <-> exists pre, x = pre +:+ ".fits")
  /\ (forall x, fnmatch x "*.tra" = true <-> exists pre, x = pre +:+ ".tra")
  /\ (isdir w ipppssoot = false -> find_files ipppssoot w = (Ok [], w)).
Proof.
  intros Hne Hc Hm.
  assert (Hfind :
    find_files ipppssoot w
    = (Ok (map (path_join ipppssoot)
             (filter (fun x => fnmatch x "*.fits" = true)
                     (visible (glob_listdir w ipppssoot false)))
           ++ map (path_join ipppssoot)
                (filter (fun x => fnmatch x "*.tra" = true)
                        (visible (glob_listdir w ipppssoot false)))
           ++ map (path_join (ipppssoot +:+ "/previews"))
                (visible (glob_listdir w (ipppssoot +:+ "/previews") false))),
       w)).
  { unfold find_files, read.
    change (ipppssoot +:+ "/previews/*")
      with (ipppssoot +:+ "/previews" +:+ "/" +:+ "*").
    rewrite <- (StrFacts.append_assoc ipppssoot "/previews" ("/" +:+ "*")).
    change (ipppssoot +:+ "/*.fits") with (ipppssoot +:+ "/" +:+ "*.fits").
    change (ipppssoot +:+ "/*.tra") with (ipppssoot +:+ "/" +:+ "*.tra").
    rewrite !glob_in_literal_dir;
      try reflexivity; try assumption;
      try (now apply plain_ends_in_name);
      try apply previews_ends_in_name;
      try (rewrite has_magic_append, Hm; reflexivity);
      try (destruct ipppssoot; [contradiction | discriminate]).
    rewrite !glob1_extension by reflexivity.
    now rewrite (filter_all (fun x => fnmatch x "*" = true) _ fnmatch_star). }
  split; [exact Hfind|].
  split; [exact fnmatch_fits|].
  split; [exact fnmatch_tra|].
  intros Hd. rewrite Hfind.
  rewrite (listing_of_no_directory w ipppssoot Hne Hd).
  now rewrite (listing_under_no_directory w ipppssoot Hne Hc Hd).
Qed.

Lemma find_files_groups_witness :
  find_files "J1" (set_cwd ["tmp"; "out"] sample_world)
  = (Ok ["J1/a.fits"; "J1/b.tra"; "J1/previews/c.png"],
     set_cwd ["tmp"; "out"] sample_world)
  /\ find_files "J7" (set_cwd ["tmp"; "out"] sample_world)
     = (Ok [], set_cwd ["tmp"; "out"] sample_world).
Proof.
  split.
  - destruct (find_files_groups "J1" (set_cwd ["tmp"; "out"] sample_world))
      as (H & _); [discriminate | reflexivity | reflexivity |].
    rewrite H. vm_compute. reflexivity.
  - destruct (find_files_groups "J7" (set_cwd ["tmp"; "out"] sample_world))
      as (_ & _ & _ & H); [discriminate | reflexivity | reflexivity |].
    apply H. vm_compute. reflexivity.
Defined.

(** *** Archives *)

Lemma same_dirs_refl t : same_dirs t t.
Proof. intros k. reflexivity. Qed.

Lemma same_dirs_trans t1 t2 t3 :
  same_dirs t1 t2 -> same_dirs t2 t3 -> same_dirs t1 t3.
Proof. intros H1 H2 k. now rewrite (H1 k). Qed.

Lemma same_dirs_sym t1 t2 : same_dirs t1 t2 -> same_dirs t2 t1.
Proof. intros H k. now rewrite (H k). Qed.

Lemma same_dirs_insert_file (t : tree) (k : list string) (d : data) :
  k <> [] -> t !! k <> Some Dir -> same_dirs t (<[k := File d]> t).
Proof.
  intros Hk Hn q. destruct q as [|x q]; [reflexivity|]. cbn [node_at].
  destruct (decide (k = x :: q)) as [<-|Hne].
  - rewrite lookup_insert_eq. split; [contradiction | discriminate].
  - now rewrite lookup_insert_ne.
Qed.

Lemma same_dirs_delete_file (t : tree) (k : list string) :
  t !! k <> Some Dir -> same_dirs t (delete k t).
Proof.
  intros Hn q. destruct q as [|x q]; [reflexivity|]. cbn [node_at].
  destruct (decide (k = x :: q)) as [<-|Hne].
  - rewrite lookup_delete_eq. split; [contradiction | discriminate].
  - now rewrite lookup_delete_ne.
Qed.

Lemma walk_same_dirs (t t' : tree) (l : list string) :
  same_dirs t t' ->
  forall cur q, walk t cur l = inr q -> walk t' cur l = inr q.
Proof.
  intros Hs. induction l as [|x l IH]; intros cur q; [trivial|].
  cbn [walk]. destruct (node_at t cur) as [[]|] eqn:E; try discriminate.
  apply Hs in E. rewrite E.
  destruct (is_dot x); [apply IH|]. destruct (String.eqb x ".."); apply IH.
Qed.

Lemma resolve_same_dirs (t t' : tree) (c : list string) (p : string) q :
  same_dirs t t' -> resolve t c p = inr q -> resolve t' c p = inr q.
Proof.
  intros Hs. unfold resolve. destruct (String.eqb p ""); [discriminate|].
  now apply walk_same_dirs.
Qed.

Lemma plain_name_relative (n : string) :
  plain_name n = true -> String.eqb n "" = false /\ isabs n = false
                         /\ PyStr.contains "/" n = false.
Proof.
  unfold plain_name, is_dot. intros H.
  apply andb_prop in H as [H Hc]. apply andb_prop in H as [Hd _].
  apply negb_true_iff in Hd, Hc. apply orb_false_elim in Hd as [He _].
  repeat split; try assumption.
  apply String.eqb_neq in He.
  pose proof (relative_name n "" He Hc) as H. now rewrite LogFacts.append_empty in H.
Qed.

Lemma walk_name (t : tree) (cur : list string) (n : string) :
  plain_name n = true -> node_at t cur = Some Dir ->
  walk t cur [n] = inr (cur ++ [n]).
Proof.
  unfold plain_name. intros H Hd. apply andb_prop in H as [H _].
  apply andb_prop in H as [H1 H2]. apply negb_true_iff in H1, H2.
  cbn [walk]. now rewrite Hd, H1, H2.
Qed.

(** A plain name resolves to the entry of that name in the working
    directory. *)
Lemma resolve_name (t : tree) (c : list string) (n : string) :
  plain_name n = true -> node_at t c = Some Dir ->
  resolve t c n = inr (c ++ [n]).
Proof.
  intros Hn Hd. destruct (plain_name_relative n Hn) as (He & Ha & Hc).
  unfold resolve. rewrite He, Ha, (split_plain "/" n Hc).
  now apply walk_name.
Qed.

Lemma resolve_in_subdir (t : tree) (c : list string) (j n : string) :
  plain_name j = true -> plain_name n = true ->
  node_at t c = Some Dir -> t !! (c ++ [j]) = Some Dir ->
  resolve t c (j +:+ "/" +:+ n) = inr (c ++ [j; n]).
Proof.
  intros Hj Hn Hd Hjd.
  destruct (plain_name_relative j Hj) as (He & Ha & Hc).
  destruct (plain_name_relative n Hn) as (_ & _ & Hcn).
  apply String.eqb_neq in He.
  unfold resolve. rewrite (relative_name j _ He Hc).
  assert (E : String.eqb (j +:+ "/" +:+ n) "" = false).
  { destruct j; [contradiction | reflexivity]. }
  rewrite E. change (j +:+ "/" +:+ n) with (j +:+ String "/" n).
  rewrite (split_app_sep "/" j n Hc), (split_plain "/" n Hcn).
  change [j; n] with ([j] ++ [n]). rewrite walk_app, (walk_name t c j Hj Hd).
  rewrite (walk_name t (c ++ [j]) n Hn).
  - now rewrite <- app_assoc.
  - destruct (c ++ [j]) eqn:E'; [now destruct c | exact Hjd].
Qed.

Lemma contains_append c (a b : string) :
  PyStr.contains c (a +:+ b) = PyStr.contains c a || PyStr.contains c b.
Proof. now rewrite !contains_chars, chars_append, existsb_app. Qed.

Lemma length_append (a b : string) :
  String.length (a +:+ b) = (String.length a + String.length b)%nat.
Proof.
  induction a as [|x a IH]; [reflexivity|].
  rewrite StrFacts.append_cons. cbn. now rewrite IH.
Qed.

Lemma tar_name_plain (j : string) :
  plain_name j = true -> plain_name (j +:+ ".tar.gz") = true.
Proof.
  intros Hj. destruct (plain_name_relative j Hj) as (_ & _ & Hc).
  assert (Hlen : forall s, (String.length s < 7)%nat ->
                           String.eqb (j +:+ ".tar.gz") s = false).
  { intros s Hs. apply String.eqb_neq. intros E.
    apply (f_equal String.length) in E. rewrite length_append in E.
    cbn in E. lia. }
  unfold plain_name, is_dot. rewrite contains_append, Hc.
  rewrite !Hlen by (cbn; lia). reflexivity.
Qed.

Lemma basename_plain (n : string) :
  PyStr.contains "/" n = false -> basename n = n.
Proof. intros H. unfold basename. now rewrite (split_plain "/" n H). Qed.

Lemma path_join_plain (j n : string) :
  plain_name j = true -> plain_name n = true ->
  path_join j n = j +:+ "/" +:+ n.
Proof.
  intros Hj Hn. destruct (plain_name_relative j Hj) as (He & _ & Hc).
  destruct (plain_name_relative n Hn) as (_ & Ha & _).
  unfold path_join. rewrite Ha, He. cbn [orb].
  assert (E : PyStr.endswith j "/" = false); [|now rewrite E].
  unfold PyStr.endswith. apply String.eqb_neq in He.
  destruct (plain_ends_in_name j He Hc) as (x & l & Hr & Hx).
  assert (Hrev : list_ascii_of_string (String.rev j) = x :: l).
  { rewrite <- Hr. clear. unfold String.rev.
    assert (G : forall s acc,
               list_ascii_of_string (String.rev_app s acc)
               = rev (list_ascii_of_string s) ++ list_ascii_of_string acc).
    { induction s as [|a s IH]; intros acc; [reflexivity|].
      cbn [String.rev_app list_ascii_of_string rev]. rewrite IH.
      now rewrite <- app_assoc. }
    rewrite G. apply app_nil_r. }
  destruct (String.rev j) as [|y r]; [discriminate|].
  injection Hrev as -> _.
  change (String.rev "/") with "/".
  change (String.prefix "/" (String x r))
    with (if ascii_dec "/" x then String.prefix "" r else false).
  destruct (ascii_dec "/" x) as [<-|]; [discriminate | reflexivity].
Qed.

Lemma abspath_cwd (w w' : World) (p : string) :
  cwd w' = cwd w -> abspath w' p = abspath w p.
Proof. intros H. unfold abspath, getcwd. now rewrite H. Qed.

Lemma member_names_cwd (w w' : World) j file_list :
  cwd w' = cwd w -> member_names w' j file_list = member_names w j file_list.
Proof.
  intros H. unfold member_names. f_equal.
  apply list_filter_iff. intros f. now rewrite !(abspath_cwd w w' _ H).
Qed.

Lemma key_nonempty (c : list string) (l : list string) x : c ++ x :: l <> [].
Proof. now destruct c. Qed.

Lemma node_at_key (t : tree) (c l : list string) x :
  node_at t (c ++ x :: l) = t !! (c ++ x :: l).
Proof. destruct (c ++ x :: l) eqn:E; [now destruct c | reflexivity]. Qed.

Lemma remove_file (p : string) (w : World) q d :
  resolve (fs w) (cwd w) p = inr q -> node_at (fs w) q = Some (File d) ->
  remove p w = (Ok tt, set_fs (delete q (fs w)) w).
Proof. intros Hr Hn. unfold remove. now rewrite Hr, Hn. Qed.

Lemma write_file_at (p : string) (d : data) (w : World) q :
  resolve (fs w) (cwd w) p = inr q -> node_at (fs w) q <> Some Dir ->
  write_file p d w = (Ok tt, set_fs (<[q := File d]> (fs w)) w).
Proof.
  intros Hr Hn. unfold write_file. rewrite Hr.
  destruct (node_at (fs w) q) as [[]|]; [reflexivity | contradiction | reflexivity].
Qed.

Lemma read_file_at (p : string) (w : World) q d :
  resolve (fs w) (cwd w) p = inr q -> node_at (fs w) q = Some (File d) ->
  read_file p w = (Ok d, w).
Proof. intros Hr Hn. unfold read_file, stat. now rewrite Hr, Hn. Qed.

(** Adding the listed files to an archive that is open at the transient
    place. *)
Lemma tar_add_all_files (j : string) (file_list : list string) (t : tree)
  (w : World) :
  resolve (fs w) (cwd w) (tar_of j) = inr (transient_key w j) ->
  (exists d, fs w !! transient_key w j = Some (File d)) ->
  Forall (fun f => exists q d,
              resolve (fs w) (cwd w) f = inr q
              /\ node_at (fs w) q = Some (File d)
              /\ q <> transient_key w j)
         file_list ->
  forall acc, exists ms,
    tar_add_all (abspath w (tar_of j)) (tar_of j) file_list acc w
    = (Ok tt, set_fs (<[transient_key w j := File (TarGz (acc ++ ms))]> (fs w)) w)
    /\ map fst ms = member_names w j file_list.
Proof.
  intros Hr (d0 & Hd0) Hfl. induction Hfl as [|f rest (q & d & Hq & Hn & Hne) _ IH];
    intros acc.
  - exists []. split; [|reflexivity]. cbn [tar_add_all]. rewrite app_nil_r.
    apply (write_file_at _ _ _ _ Hr).
    unfold transient_key in *. rewrite node_at_key, Hd0. discriminate.
  - cbn [tar_add_all]. unfold tar_add, member_names.
    rewrite filter_cons.
    destruct (String.eqb (abspath w f) (abspath w (tar_of j))) eqn:E.
    + rewrite app_nil_r. destruct (IH acc) as (ms & -> & Hms). exists ms.
      rewrite decide_False by discriminate. split; [reflexivity | exact Hms].
    + rewrite Hq, Hn. destruct (IH (acc ++ [(arcname f, Some d)])) as (ms & -> & Hms).
      exists ((arcname f, Some d) :: ms).
      rewrite decide_True by reflexivity. split.
      * now rewrite <- app_assoc.
      * cbn. now rewrite Hms.
Qed.

Lemma keys_differ (c : list string) (j n : string) : c ++ [n] <> c ++ [j; n].
Proof. intros H. apply app_inv_head in H. discriminate H. Qed.

Lemma make_tar_rest_effect (j : string) (file_list : list string)
  (w w2 : World) :
  plain_name j = true -> ready j file_list w ->
  cwd w2 = cwd w -> fs w2 = delete (transient_key w j) (fs w) ->
  exists w' ms,
    make_tar_rest file_list j w2 = (Ok (j +:+ "/" +:+ tar_of j), w')
    /\ cwd w' = cwd w
    /\ fs w' = delete (transient_key w j)
                 (<[final_key w j := File (TarGz ms)]>
                    (<[transient_key w j := File (TarGz ms)]>
                       (<[transient_key w j := File (TarGz [])]>
                          (delete (transient_key w j) (fs w)))))
    /\ map fst ms = member_names w j file_list
    /\ same_dirs (fs w) (fs w').
Proof.
  intros Hj [Hc Hjd Htk Hdk Hfl] Hcwd2 Hfs2.
  pose proof (tar_name_plain j Hj) as Hn. fold (tar_of j) in Hn.
  set (tk := transient_key w j) in *. set (dk := final_key w j) in *.
  set (t := fs w) in *. set (c := cwd w) in *.
  assert (Hne : tk <> dk) by apply keys_differ.
  assert (Hktk : tk <> []) by apply key_nonempty.
  assert (Hkdk : dk <> []) by apply key_nonempty.
  set (t2 := delete tk t) in *.
  set (t3 := <[tk := File (TarGz [])]> t2).
  assert (S2 : same_dirs t t2) by now apply same_dirs_delete_file.
  assert (S3 : same_dirs t t3).
  { eapply same_dirs_trans; [exact S2|]. apply same_dirs_insert_file; [exact Hktk|].
    unfold t2. now rewrite lookup_delete_eq. }
  (* the archive is created *)
  unfold make_tar_rest. unfold bind at 1. unfold tarfile_open_x.
  rewrite Hfs2, Hcwd2.
  rewrite (resolve_name t2 c (tar_of j) Hn (proj1 (S2 c) Hc)).
  fold tk. unfold tk at 1, transient_key. rewrite node_at_key.
  fold (transient_key w j). fold tk. unfold t2 at 1. rewrite lookup_delete_eq.
  fold t3.
  (* the files are added *)
  set (w3 := set_fs t3 w2).
  assert (Hcwd3 : cwd w3 = c) by exact Hcwd2.
  assert (Htk3 : transient_key w3 j = tk).
  { unfold transient_key. now rewrite Hcwd3. }
  assert (Hres3 : resolve (fs w3) (cwd w3) (tar_of j) = inr (transient_key w3 j)).
  { rewrite Htk3, Hcwd3. cbn [fs w3 set_fs].
    apply (resolve_name t3 c (tar_of j) Hn (proj1 (S3 c) Hc)). }
  assert (Hfl3 : Forall (fun f => exists q d,
                            resolve (fs w3) (cwd w3) f = inr q
                            /\ node_at (fs w3) q = Some (File d)
                            /\ q <> transient_key w3 j) file_list).
  { eapply Forall_impl; [exact Hfl|]. intros f (q & d & Hq & Hnq & Hqne).
    exists q, d. rewrite Htk3, Hcwd3. cbn [fs w3 set_fs].
    split; [now apply (resolve_same_dirs t t3)|]. split; [|exact Hqne].
    destruct q as [|x q]; [discriminate|]. cbn [node_at] in *.
    unfold t3, t2. now rewrite lookup_insert_ne, lookup_delete_ne. }
  destruct (tar_add_all_files j file_list t w3 Hres3) with (acc := @nil member)
    as (ms & Hadd & Hms); [| exact Hfl3 |].
  { exists (TarGz []). rewrite Htk3. cbn [fs w3 set_fs]. unfold t3.
    apply lookup_insert_eq. }
  rewrite (abspath_cwd w2 w3) in Hadd by reflexivity.
  unfold bind at 1.
  change (set_fs (<[c ++ [tar_of j] := File (TarGz [])]> t2) w2) with w3.
  rewrite Hadd. rewrite Htk3. cbn [app fs w3 set_fs].
  rewrite (member_names_cwd w w3) in Hms by exact Hcwd3.
  set (t4 := <[tk := File (TarGz ms)]> t3).
  assert (S4 : same_dirs t t4).
  { eapply same_dirs_trans; [exact S3|]. apply same_dirs_insert_file; [exact Hktk|].
    unfold t3. now rewrite lookup_insert_eq. }
  (* the second message *)
  unfold bind at 1.
  match goal with |- context [log_info ?a ?w0] =>
    destruct (log_info_effect a w0) as (w5 & -> & Hfs5 & Hcwd5 & _ & _) end.
  cbn [fs cwd set_fs w3] in Hfs5, Hcwd5. rewrite Hcwd2 in Hcwd5.
  (* the copy into the job directory *)
  assert (Hrtk : resolve (fs w5) (cwd w5) (tar_of j) = inr tk).
  { rewrite Hfs5, Hcwd5. apply (resolve_name t4 c (tar_of j) Hn (proj1 (S4 c) Hc)). }
  assert (Hjd4 : t4 !! (c ++ [j]) = Some Dir).
  { pose proof (proj1 (S4 (c ++ [j]))) as H. rewrite !node_at_key in H.
    now apply H. }
  assert (Hrdk : resolve (fs w5) (cwd w5) (j +:+ "/" +:+ tar_of j) = inr dk).
  { rewrite Hfs5, Hcwd5.
    apply (resolve_in_subdir t4 c j (tar_of j) Hj Hn (proj1 (S4 c) Hc) Hjd4). }
  assert (Hjdir : isdir w5 j = true).
  { unfold isdir, stat. rewrite Hfs5, Hcwd5.
    rewrite (resolve_name t4 c j Hj (proj1 (S4 c) Hc)), node_at_key, Hjd4.
    reflexivity. }
  assert (Htk5 : node_at (fs w5) tk = Some (File (TarGz ms))).
  { rewrite Hfs5. unfold tk, transient_key. rewrite node_at_key.
    apply lookup_insert_eq. }
  assert (Hdk5 : node_at (fs w5) dk <> Some Dir).
  { rewrite Hfs5. intros H. apply (proj2 (S4 dk)) in H.
    unfold dk, final_key in H. rewrite node_at_key in H. now apply Hdk. }
  unfold bind at 1. unfold shutil_copy. rewrite Hjdir.
  destruct (plain_name_relative _ Hn) as (_ & _ & Hslash).
  rewrite (basename_plain _ Hslash), (path_join_plain j (tar_of j) Hj Hn).
  unfold samefile. rewrite Hrtk, Hrdk.
  rewrite (bool_decide_eq_false_2 (tk = dk) Hne). cbn [andb].
  unfold bind at 1. rewrite (read_file_at _ _ _ _ Hrtk Htk5).
  unfold bind at 1. rewrite (write_file_at _ _ _ _ Hrdk Hdk5).
  unfold ret at 1.
  (* the transient copy is deleted *)
  set (w6 := set_fs (<[dk := File (TarGz ms)]> (fs w5)) w5).
  assert (S6 : same_dirs t (fs w6)).
  { cbn [fs w6 set_fs]. rewrite Hfs5.
    eapply same_dirs_trans; [exact S4|]. apply same_dirs_insert_file; [exact Hkdk|].
    intros H. apply Hdk5. rewrite Hfs5.
    unfold dk, final_key in *. now rewrite node_at_key. }
  assert (Hrtk6 : resolve (fs w6) (cwd w6) (tar_of j) = inr tk).
  { cbn [cwd w6 set_fs]. rewrite Hcwd5.
    apply (resolve_name (fs w6) c (tar_of j) Hn (proj1 (S6 c) Hc)). }
  assert (Htk6 : node_at (fs w6) tk = Some (File (TarGz ms))).
  { cbn [fs w6 set_fs]. unfold tk, transient_key. rewrite node_at_key.
    fold (transient_key w j). fold tk. rewrite lookup_insert_ne by congruence.
    rewrite Hfs5. apply lookup_insert_eq. }
  unfold bind at 1. rewrite (remove_file _ _ _ _ Hrtk6 Htk6).
  unfold ret.
  assert (S7 : same_dirs t (delete tk (fs w6))).
  { eapply same_dirs_trans; [exact S6|]. apply same_dirs_delete_file.
    unfold tk, transient_key in Htk6. rewrite node_at_key in Htk6.
    fold (transient_key w j) in Htk6. fold tk in Htk6. rewrite Htk6. discriminate. }
  cbn [fs w6 set_fs] in S7. rewrite Hfs5 in S7.
  eexists _, ms. split; [reflexivity|].
  cbn [cwd fs set_fs w6]. rewrite Hfs5.
  split; [exact Hcwd5|]. split; [reflexivity|]. split; [exact Hms | exact S7].
Qed.

Lemma make_tar_unfold (file_list : list string) (j : string) (w : World) :
  make_tar file_list j w
  = (log_info [VStr "Creating tarfile: "; VStr (tar_of j)] ;;;
     present <- read (fun w => exists_ w (tar_of j)) ;;
     (if present then remove (tar_of j) else ret tt) ;;;
     make_tar_rest file_list j) w.
Proof. reflexivity. Qed.

(** One call of [make_tar] in a world that is ready for it: it returns
    the final place, the archive is there with the expected members, the
    transient place is empty, and the world is ready for another call. *)
Lemma make_tar_effect (j : string) (file_list : list string) (w : World) :
  plain_name j = true -> ready j file_list w ->
  exists w' ms,
    make_tar file_list j w = (Ok (j +:+ "/" +:+ tar_of j), w')
    /\ read_file (j +:+ "/" +:+ tar_of j) w' = (Ok (TarGz ms), w')
    /\ exists_ w' (tar_of j) = false
    /\ map fst ms = member_names w j file_list
    /\ cwd w' = cwd w
    /\ ready j file_list w'.
Proof.
  intros Hj Hready. pose proof Hready as [Hc Hjd Htk Hdk Hfl].
  pose proof (tar_name_plain j Hj) as Hn. fold (tar_of j) in Hn.
  assert (Hnode : forall t0 : tree,
             node_at t0 (transient_key w j) = t0 !! transient_key w j)
    by (intros; apply node_at_key).
  assert (Hnode' : forall t0 : tree,
             node_at t0 (final_key w j) = t0 !! final_key w j)
    by (intros; apply node_at_key).
  assert (Hrest : exists w2,
    (log_info [VStr "Creating tarfile: "; VStr (tar_of j)] ;;;
     present <- read (fun w => exists_ w (tar_of j)) ;;
     (if present then remove (tar_of j) else ret tt) ;;;
     make_tar_rest file_list j) w
    = make_tar_rest file_list j w2
    /\ cwd w2 = cwd w /\ fs w2 = delete (transient_key w j) (fs w)).
  { unfold bind at 1.
    match goal with |- context [log_info ?a w] =>
      destruct (log_info_effect a w) as (w1 & -> & Hfs1 & Hcwd1 & _ & _) end.
    unfold bind at 1, read. unfold bind at 1.
    assert (Hr : resolve (fs w1) (cwd w1) (tar_of j) = inr (transient_key w j)).
    { rewrite Hfs1, Hcwd1. now apply resolve_name. }
    unfold exists_, stat. rewrite Hr, Hnode, Hfs1.
    destruct (fs w !! transient_key w j) as [[d|]|] eqn:E.
    - rewrite (remove_file _ w1 _ d Hr).
      + eexists. split; [reflexivity|]. cbn. now rewrite Hfs1.
      + now rewrite Hnode, Hfs1.
    - contradiction.
    - exists w1. split; [reflexivity|]. split; [exact Hcwd1|].
      rewrite Hfs1. symmetry. now apply delete_id. }
  destruct Hrest as (w2 & Hstart & Hcwd2 & Hfs2).
  destruct (make_tar_rest_effect j file_list w w2 Hj Hready Hcwd2 Hfs2)
    as (w' & ms & Hrun & Hcwd' & Hfs' & Hms & Hsame).
  exists w', ms. rewrite make_tar_unfold, Hstart.
  set (tk := transient_key w j) in *. set (dk := final_key w j) in *.
  assert (Hne : tk <> dk) by apply keys_differ.
  assert (Htk' : fs w' !! tk = None) by (rewrite Hfs'; apply lookup_delete_eq).
  assert (Hdk' : fs w' !! dk = Some (File (TarGz ms))).
  { rewrite Hfs', lookup_delete_ne by exact Hne. apply lookup_insert_eq. }
  assert (Hother : forall k, k <> tk -> k <> dk -> fs w' !! k = fs w !! k).
  { intros k H1 H2. rewrite Hfs', lookup_delete_ne, !lookup_insert_ne,
      lookup_delete_ne by congruence. reflexivity. }
  assert (Hc' : node_at (fs w') (cwd w') = Some Dir).
  { rewrite Hcwd'. now apply Hsame. }
  assert (Hjd' : fs w' !! (cwd w' ++ [j]) = Some Dir).
  { rewrite Hcwd'. pose proof (proj1 (Hsame (cwd w ++ [j]))) as H.
    rewrite !node_at_key in H. now apply H. }
  split; [exact Hrun|]. split; [|split; [|split; [exact Hms|split; [exact Hcwd'|]]]].
  - apply (read_file_at _ _ dk).
    + unfold dk, final_key. rewrite <- Hcwd'. now apply resolve_in_subdir.
    + now rewrite Hnode'.
  - unfold exists_, stat. rewrite (resolve_name _ _ _ Hn Hc'). rewrite Hcwd'.
    fold (transient_key w j). fold tk. now rewrite Hnode, Htk'.
  - constructor.
    + exact Hc'.
    + exact Hjd'.
    + unfold transient_key. rewrite Hcwd'. fold (transient_key w j). fold tk.
      rewrite Htk'. discriminate.
    + unfold final_key. rewrite Hcwd'. fold (final_key w j). fold dk.
      rewrite Hdk'. discriminate.
    + eapply Forall_impl; [exact Hfl|]. intros f (q & d & Hq & Hnq & Hqne).
      unfold transient_key. rewrite Hcwd'. fold (transient_key w j). fold tk.
      destruct (decide (q = dk)) as [->|Hqd].
      * exists dk, (TarGz ms).
        split; [now apply (resolve_same_dirs (fs w))|].
        split; [now rewrite Hnode' | congruence].
      * exists q, d.
        split; [now apply (resolve_same_dirs (fs w))|].
        split; [|exact Hqne]. destruct q as [|x q]; [discriminate|].
        cbn [node_at] in *. now rewrite Hother.
Qed.

Lemma ready_intro (j : string) (file_list : list string) (w : World) :
  plain_name j = true ->
  isdir w j = true ->
  isdir w (tar_of j) = false ->
  isdir w (j +:+ "/" +:+ tar_of j) = false ->
  Forall (listed_file w j) file_list ->
  ready j file_list w.
Proof.
  intros Hj Hjd Htk Hdk Hfl.
  pose proof (tar_name_plain j Hj) as Hn. fold (tar_of j) in Hn.
  assert (Hc : node_at (fs w) (cwd w) = Some Dir).
  { unfold isdir, stat, resolve in Hjd.
    destruct (plain_name_relative j Hj) as (He & Ha & Hs).
    rewrite He, Ha, (split_plain "/" j Hs) in Hjd. cbn [walk] in Hjd.
    destruct (node_at (fs w) (cwd w)) as [[]|]; [discriminate | reflexivity | discriminate]. }
  assert (Hjk : fs w !! (cwd w ++ [j]) = Some Dir).
  { unfold isdir, stat in Hjd. rewrite (resolve_name _ _ _ Hj Hc), node_at_key in Hjd.
    destruct (fs w !! (cwd w ++ [j])) as [[]|]; [discriminate | reflexivity | discriminate]. }
  constructor.
  - exact Hc.
  - exact Hjk.
  - unfold isdir, stat in Htk.
    rewrite (resolve_name _ _ _ Hn Hc), node_at_key in Htk.
    unfold transient_key. intros E. now rewrite E in Htk.
  - unfold isdir, stat in Hdk.
    rewrite (resolve_in_subdir _ _ _ _ Hj Hn Hc Hjk), node_at_key in Hdk.
    unfold final_key. intros E. now rewrite E in Hdk.
  - eapply Forall_impl; [exact Hfl|]. intros f [(d & Hd) Hne].
    unfold stat in Hd. rewrite (resolve_name _ _ _ Hn Hc) in Hne.
    destruct (resolve (fs w) (cwd w) f) as [|q]; [discriminate|].
    exists q, d. split; [reflexivity|]. split.
    + destruct (node_at (fs w) q); [now injection Hd as -> | discriminate].
    + unfold transient_key. congruence.
Qed.

(** C4, as the specification states it, fails: when the job directory
    does not exist, [make_tar] succeeds and returns a path at which there
    is no archive, since [shutil.copy] wrote a file named like the job. *)
Lemma make_tar_final_place_refuted :
  ~ (forall (file_list : list string) (ipppssoot : string) (w w' : World)
            (tar_dest : string),
        make_tar file_list ipppssoot w = (Ok tar_dest, w') ->
        is_ok (fst (read_file tar_dest w')) = true).
Proof.
  intros H.
  specialize (H [] "J9" (set_cwd ["tmp"; "out"] sample_world)
                (snd (make_tar [] "J9" (set_cwd ["tmp"; "out"] sample_world)))
                "J9/J9.tar.gz").
  assert (Hrun : make_tar [] "J9" (set_cwd ["tmp"; "out"] sample_world)
                 = (Ok "J9/J9.tar.gz",
                    snd (make_tar [] "J9" (set_cwd ["tmp"; "out"] sample_world))))
    by (vm_compute; reflexivity).
  specialize (H Hrun). vm_compute in H. discriminate H.
Qed.

(** C4, amended. Let the job identifier be a plain name of an existing
    directory, let neither place of the archive be a directory, and let
    every listed path be a regular file other than the transient archive.
    Then [make_tar] succeeds twice in succession; after each call the
    archive is at the returned path [{jobId}/{jobId}.tar.gz] and the
    transient [{jobId}.tar.gz] does not exist; both archives have the same
    member names, those of the listed paths, whether or not a transient
    archive was there before the first call. *)
Theorem make_tar_twice (ipppssoot : string) (file_list : list string)
  (w : World) :
  plain_name ipppssoot = true ->
  isdir w ipppssoot = true ->
  isdir w (tar_of ipppssoot) = false ->
  isdir w (ipppssoot +:+ "/" +:+ tar_of ipppssoot) = false ->
  Forall (listed_file w ipppssoot) file_list ->
  exists w1 w2 ms1 ms2,
    make_tar file_list ipppssoot w
    = (Ok (ipppssoot +:+ "/" +:+ ipppssoot +:+ ".tar.gz"), w1)
    /\ read_file (ipppssoot +:+ "/" +:+ ipppssoot +:+ ".tar.gz") w1
       = (Ok (TarGz ms1), w1)
    /\ exists_ w1 (ipppssoot +:+ ".tar.gz") = false
    /\ make_tar file_list ipppssoot w1
       = (Ok (ipppssoot +:+ "/" +:+ ipppssoot +:+ ".tar.gz"), w2)
    /\ read_file (ipppssoot +:+ "/" +:+ ipppssoot +:+ ".tar.gz") w2
       = (Ok (TarGz ms2), w2)
    /\ exists_ w2 (ipppssoot +:+ ".tar.gz") = false
    /\ map fst ms2 = map fst ms1
    /\ map fst ms1 = member_names w ipppssoot file_list.
Proof.
  intros Hj Hjd Htk Hdk Hfl.
  pose proof (ready_intro _ _ _ Hj Hjd Htk Hdk Hfl) as Hready.
  destruct (make_tar_effect _ _ _ Hj Hready)
    as (w1 & ms1 & Hrun1 & Hread1 & Hgone1 & Hms1 & Hcwd1 & Hready1).
  destruct (make_tar_effect _ _ _ Hj Hready1)
    as (w2 & ms2 & Hrun2 & Hread2 & Hgone2 & Hms2 & _ & _).
  exists w1, w2, ms1, ms2. unfold tar_of in *.
  repeat split; try assumption.
  rewrite Hms2, Hms1. now apply member_names_cwd.
Qed.

Lemma make_tar_twice_witness :
  exists w1 w2 ms1 ms2,
    make_tar ["J1/a.fits"; "J1/b.tra"; "J1/previews/c.png"] "J1"
      (set_cwd ["tmp"; "out"] sample_world)
    = (Ok "J1/J1.tar.gz", w1)
    /\ read_file "J1/J1.tar.gz" w1 = (Ok (TarGz ms1), w1)
    /\ make_tar ["J1/a.fits"; "J1/b.tra"; "J1/previews/c.png"] "J1" w1
       = (Ok "J1/J1.tar.gz", w2)
    /\ read_file "J1/J1.tar.gz" w2 = (Ok (TarGz ms2), w2)
    /\ map fst ms2 = map fst ms1
    /\ map fst ms1 = ["J1/a.fits"; "J1/b.tra"; "J1/previews/c.png"].
Proof.
  destruct (make_tar_twice "J1" ["J1/a.fits"; "J1/b.tra"; "J1/previews/c.png"]
              (set_cwd ["tmp"; "out"] sample_world))
    as (w1 & w2 & ms1 & ms2 & H1 & H2 & _ & H3 & H4 & _ & H5 & H6).
  - reflexivity.
  - vm_compute. reflexivity.
  - vm_compute. reflexivity.
  - vm_compute. reflexivity.
  - repeat constructor.
    + now exists (Raw "AAAA").
    + vm_compute. discriminate.
    + now exists (Raw "BB").
    + vm_compute. discriminate.
    + now exists (Raw "C").
    + vm_compute. discriminate.
  - exists w1, w2, ms1, ms2. repeat split; assumption.
Defined.

End FileOpsFacts.

(** ** The progress callback under any schedule *)

Module ThreadFacts.

Import FS FileOps Threads ThreadSpec.

Lemma sum_insert (f : thread -> Z) (l : list thread) :
  forall i t t', l !! i = Some t ->
    sum (map f (<[i := t']> l)) = sum (map f l) - f t + f t'.
Proof.
  unfold sum. induction l as [|x l IH]; intros i t t' H; [discriminate|].
  destruct i as [|i]; simpl in *.
  - injection H as ->. lia.
  - pose proof (IH i t t' H) as E. simpl in E. lia.
Qed.

Lemma map_insert_same {B} (f : thread -> B) (l : list thread) :
  forall i t t', l !! i = Some t -> f t' = f t ->
    map f (<[i := t']> l) = map f l.
Proof.
  induction l as [|x l IH]; intros i t t' H E; [reflexivity|].
  destruct i as [|i]; simpl in *.
  - injection H as ->. now rewrite E.
  - f_equal. exact (IH i t t' H E).
Qed.

(** What a moved thread list holds at a position. *)
Lemma lookup_moved (l : list thread) (i j : nat) (t t' u : thread) :
  l !! i = Some t -> <[i := t']> l !! j = Some u ->
  (j = i /\ u = t') \/ (j <> i /\ l !! j = Some u).
Proof.
  intros Hi Hj. destruct (decide (i = j)) as [<-|Hne].
  - left. rewrite list_lookup_insert_eq in Hj by now apply lookup_lt_Some in Hi.
    now injection Hj as <-.
  - right. rewrite list_lookup_insert_ne in Hj by exact Hne. split; congruence.
Qed.

Lemma moved_at (l : list thread) (i : nat) (t t' : thread) :
  l !! i = Some t -> <[i := t']> l !! i = Some t'.
Proof. intros H. apply list_lookup_insert_eq. now apply lookup_lt_Some in H. Qed.

Lemma added_at_start (amounts : list Z) :
  sum (map added
         (map (fun a => {| bytes_amount := a; at_pc := Ready |}) amounts)) = 0.
Proof.
  unfold sum. induction amounts as [|a l IH]; [reflexivity|].
  simpl. rewrite IH. reflexivity.
Qed.

Lemma invariant_start (p0 : ProgressPercentage) (amounts : list Z) :
  invariant p0 amounts (start p0 amounts).
Proof.
  assert (Hready : forall i t,
             threads (start p0 amounts) !! i = Some t -> at_pc t = Ready).
  { intros i t H. cbn in H. rewrite list_lookup_fmap in H.
    destruct (amounts !! i); [|discriminate]. now injection H as <-. }
  constructor; cbn [start self lock lines].
  - intros i t H Hin. apply Hready in H. unfold in_lock in Hin.
    rewrite H in Hin. discriminate.
  - intros i t v H Hl. apply Hready in H. congruence.
  - change (threads (start p0 amounts))
      with (map (fun a => {| bytes_amount := a; at_pc := Ready |}) amounts).
    rewrite added_at_start. lia.
  - cbn. rewrite map_map. cbn. apply map_id.
  - reflexivity.
  - reflexivity.
  - intros _ i t e H Hr. apply Hready in H. congruence.
  - intros i t H Hw. apply Hready in H. unfold has_written in Hw.
    rewrite H in Hw. discriminate.
  - intros _ _ H. contradiction.
  - intros i H. discriminate H.
Qed.

Ltac self_or_other Ht Hj :=
  destruct (lookup_moved _ _ _ _ _ _ Ht Hj) as [[-> ->]|[? ?]].

Lemma added_of (t : thread) (to : pc) :
  added {| bytes_amount := bytes_amount t; at_pc := to |}
  = match to with
    | Stored | Wrote | Returned _ => bytes_amount t
    | _ => 0
    end.
Proof. destruct to; reflexivity. Qed.

Lemma added_at (t : thread) :
  added t = match at_pc t with
            | Stored | Wrote | Returned _ => bytes_amount t
            | _ => 0
            end.
Proof. unfold added, has_stored. destruct (at_pc t); reflexivity. Qed.

(** Threads other than the one that moves are where they were. *)
Lemma others_unmoved (l : list thread) (i : nat) (t t' : thread) (P : pc -> Prop) :
  l !! i = Some t -> P (at_pc t) ->
  (forall j u, <[i := t']> l !! j = Some u -> P (at_pc u)) ->
  forall j u, l !! j = Some u -> P (at_pc u).
Proof.
  intros Ht HP H j u Hj. destruct (decide (i = j)) as [<-|Hne].
  - congruence.
  - apply (H j). now rewrite list_lookup_insert_ne.
Qed.

Lemma invariant_step (p0 : ProgressPercentage) (amounts : list Z)
  (i : nat) (s s' : state) :
  invariant p0 amounts s -> step i s = Some s' -> invariant p0 amounts s'.
Proof.
  intros [Ilock Iload Iseen Iam Isz Inm Inoerr Iwr Ilast Ihold] Hstep.
  unfold step in Hstep.
  destruct (threads s !! i) as [t|] eqn:Ht; [|discriminate].
  assert (Hadd := added_at t).
  destruct (at_pc t) eqn:Hpc.
  - (* taking the lock *)
    destruct (lock s) eqn:Hl; [discriminate|]. injection Hstep as <-.
    constructor; unfold move; cbn [self lock threads lines].
    + intros j u Hj Hin. self_or_other Ht Hj; [reflexivity|].
      specialize (Ilock j u H0 Hin). congruence.
    + intros j u v Hj Hv. self_or_other Ht Hj; [discriminate | eauto].
    + rewrite (sum_insert added _ i t _ Ht), added_of. lia.
    + now rewrite (map_insert_same bytes_amount _ i t _ Ht).
    + exact Isz.
    + exact Inm.
    + intros Hz j u e Hj He. self_or_other Ht Hj; [discriminate | eauto].
    + intros j u Hj Hw. self_or_other Ht Hj; [discriminate | eauto].
    + intros Hz Hns Hne. apply Ilast; [exact Hz | | exact Hne].
      eapply (others_unmoved _ i t _ (fun p => p <> Stored) Ht);
        [congruence | exact Hns].
    + intros k Hk. injection Hk as <-. eexists.
      split; [exact (moved_at _ i t _ Ht) | reflexivity].
  - (* reading the counter *)
    injection Hstep as <-.
    assert (Hi : lock s = Some i) by (apply (Ilock i t Ht); unfold in_lock; now rewrite Hpc).
    constructor; unfold move; cbn [self lock threads lines].
    + intros j u Hj Hin. self_or_other Ht Hj; [exact Hi | eauto].
    + intros j u v Hj Hv. self_or_other Ht Hj; [cbn in Hv; congruence | eauto].
    + rewrite (sum_insert added _ i t _ Ht), added_of. lia.
    + now rewrite (map_insert_same bytes_amount _ i t _ Ht).
    + exact Isz.
    + exact Inm.
    + intros Hz j u e Hj He. self_or_other Ht Hj; [discriminate | eauto].
    + intros j u Hj Hw. self_or_other Ht Hj; [discriminate | eauto].
    + intros Hz Hns Hne. apply Ilast; [exact Hz | | exact Hne].
      eapply (others_unmoved _ i t _ (fun p => p <> Stored) Ht);
        [congruence | exact Hns].
    + intros k Hk. rewrite Hi in Hk. injection Hk as <-. eexists.
      split; [exact (moved_at _ i t _ Ht) | reflexivity].
  - (* assigning the counter *)
    injection Hstep as <-.
    assert (Hi : lock s = Some i) by (apply (Ilock i t Ht); unfold in_lock; now rewrite Hpc).
    assert (Hv : v = _seen_so_far (self s)) by now apply (Iload i t).
    constructor; unfold move; cbn [self lock threads lines set_seen _seen_so_far _size _filename].
    + intros j u Hj Hin. self_or_other Ht Hj; [exact Hi | eauto].
    + intros j u v' Hj Hv'. self_or_other Ht Hj; [discriminate|].
      assert (lock s = Some j) by (apply (Ilock j u H0); unfold in_lock; now rewrite Hv').
      congruence.
    + rewrite (sum_insert added _ i t _ Ht), added_of. lia.
    + now rewrite (map_insert_same bytes_amount _ i t _ Ht).
    + exact Isz.
    + exact Inm.
    + intros Hz j u e Hj He. self_or_other Ht Hj; [discriminate | eauto].
    + intros j u Hj Hw. self_or_other Ht Hj; [discriminate | eauto].
    + intros Hz Hns Hne. exfalso. apply (Hns i _ (moved_at _ i t _ Ht)). reflexivity.
    + intros k Hk. rewrite Hi in Hk. injection Hk as <-. eexists.
      split; [exact (moved_at _ i t _ Ht) | reflexivity].
  - (* writing the line, or raising *)
    assert (Hi : lock s = Some i) by (apply (Ilock i t Ht); unfold in_lock; now rewrite Hpc).
    destruct (is_zero (_size (self s))) eqn:Hzero; injection Hstep as <-.
    + constructor; unfold move; cbn [self lock threads lines].
      * intros j u Hj Hin. self_or_other Ht Hj; [discriminate|].
        specialize (Ilock j u H0 Hin). congruence.
      * intros j u v Hj Hv. self_or_other Ht Hj; [discriminate | eauto].
      * rewrite (sum_insert added _ i t _ Ht), added_of. lia.
      * now rewrite (map_insert_same bytes_amount _ i t _ Ht).
      * exact Isz.
      * exact Inm.
      * intros Hz. rewrite Isz in Hzero. congruence.
      * intros j u Hj Hw. self_or_other Ht Hj; [discriminate | eauto].
      * intros Hz. rewrite Isz in Hzero. congruence.
      * intros k Hk. discriminate Hk.
    + constructor; unfold move; cbn [self lock threads lines].
      * intros j u Hj Hin. self_or_other Ht Hj; [exact Hi | eauto].
      * intros j u v Hj Hv. self_or_other Ht Hj; [discriminate | eauto].
      * rewrite (sum_insert added _ i t _ Ht), added_of. lia.
      * now rewrite (map_insert_same bytes_amount _ i t _ Ht).
      * exact Isz.
      * exact Inm.
      * intros Hz j u e Hj He. self_or_other Ht Hj; [discriminate | eauto].
      * intros j u Hj Hw. now destruct (lines s).
      * intros Hz Hns Hne. rewrite last_snoc. unfold line_of.
        now rewrite Isz, Inm.
      * intros k Hk. rewrite Hi in Hk. injection Hk as <-. eexists.
        split; [exact (moved_at _ i t _ Ht) | reflexivity].
  - (* leaving the block *)
    injection Hstep as <-.
    assert (Hi : lock s = Some i) by (apply (Ilock i t Ht); unfold in_lock; now rewrite Hpc).
    constructor; unfold move; cbn [self lock threads lines].
    + intros j u Hj Hin. self_or_other Ht Hj; [discriminate|].
      specialize (Ilock j u H0 Hin). congruence.
    + intros j u v Hj Hv. self_or_other Ht Hj; [discriminate | eauto].
    + rewrite (sum_insert added _ i t _ Ht), added_of. lia.
    + now rewrite (map_insert_same bytes_amount _ i t _ Ht).
    + exact Isz.
    + exact Inm.
    + intros Hz j u e Hj He. self_or_other Ht Hj; [cbn in He; congruence | eauto].
    + intros j u Hj Hw. self_or_other Ht Hj; [|eauto].
      apply (Iwr i t Ht). unfold has_written. now rewrite Hpc.
    + intros Hz Hns Hne. apply Ilast; [exact Hz | | exact Hne].
      eapply (others_unmoved _ i t _ (fun p => p <> Stored) Ht);
        [congruence | exact Hns].
    + intros k Hk. discriminate Hk.
  - discriminate.
Qed.

Lemma some_not_returned (l : list thread) :
  forallb has_returned l = false ->
  exists i t, l !! i = Some t /\ has_returned t = false.
Proof.
  induction l as [|x l IH]; [discriminate|]. simpl.
  destruct (has_returned x) eqn:E.
  - intros H. destruct (IH H) as (i & t & Hi & Ht). now exists (S i), t.
  - intros _. now exists 0%nat, x.
Qed.

(** No schedule gets stuck: while a call has not returned, some thread
    can move. *)
Lemma some_thread_can_move (p0 : ProgressPercentage) (amounts : list Z)
  (s : state) :
  invariant p0 amounts s -> finished s = false ->
  exists i s', step i s = Some s'.
Proof.
  intros [Ilock _ _ _ _ _ _ _ _ Ihold] Hfin. destruct (lock s) as [i|] eqn:Hl.
  - destruct (Ihold i eq_refl) as (t & Ht & Hin). exists i.
    unfold step. rewrite Ht. unfold in_lock in Hin.
    destruct (at_pc t); try discriminate; try (now eexists).
    destruct (is_zero (_size (self s))); now eexists.
  - destruct (some_not_returned _ Hfin) as (i & t & Ht & Hr). exists i.
    unfold step. rewrite Ht, Hl.
    assert (Hout : in_lock t = false).
    { destruct (in_lock t) eqn:E; [|reflexivity].
      specialize (Ilock i t Ht E). congruence. }
    unfold in_lock in Hout. unfold has_returned in Hr.
    destruct (at_pc t); try discriminate. now eexists.
Qed.

Lemma invariant_run (p0 : ProgressPercentage) (amounts : list Z)
  (schedule : list nat) :
  forall s, invariant p0 amounts s -> invariant p0 amounts (run schedule s).
Proof.
  induction schedule as [|i schedule IH]; intros s Hs; [exact Hs|].
  change (run (i :: schedule) s) with (run schedule (default s (step i s))).
  apply IH. destruct (step i s) as [s'|] eqn:E; [|exact Hs].
  exact (invariant_step p0 amounts i s s' Hs E).
Qed.

(** When every call has returned, every amount has been added. *)
Lemma added_when_finished (l : list thread) :
  forallb has_returned l = true -> map added l = map bytes_amount l.
Proof.
  induction l as [|t l IH]; [reflexivity|]. simpl.
  intros H. apply andb_prop in H as [Ht Hl]. rewrite (IH Hl). f_equal.
  unfold has_returned in Ht. rewrite added_at. now destruct (at_pc t).
Qed.

Lemma returned_everywhere (l : list thread) (i : nat) (t : thread) :
  forallb has_returned l = true -> l !! i = Some t ->
  exists e, at_pc t = Returned e.
Proof.
  intros H Hi. rewrite forallb_forall in H.
  assert (Hin : In t l).
  { apply list_elem_of_In. now apply (list_elem_of_lookup_2 l i). }
  specialize (H t Hin). unfold has_returned in H.
  destruct (at_pc t); try discriminate. now eexists.
Qed.

(** *** Calls made one after the other *)

Lemma progress_call_alone (p : ProgressPercentage) (a : Z) (w : World) :
  is_zero (_size p) = false ->
  exists w',
    progress_call p a w = (Ok (set_seen (_seen_so_far p + a) p), w')
    /\ Log.stdout (sink w')
       = Log.stdout (sink w) +:+ line_of p (_seen_so_far p + a).
Proof.
  intros Hz. unfold progress_call, progress_body. rewrite Hz.
  eexists. split; [reflexivity|]. reflexivity.
Qed.

Lemma lines_from_set_seen (p : ProgressPercentage) (v : Z)
  (amounts : list Z) :
  forall seen, lines_from (set_seen v p) seen amounts = lines_from p seen amounts.
Proof.
  induction amounts as [|a rest IH]; intros seen; [reflexivity|].
  cbn [lines_from]. now rewrite IH.
Qed.

Lemma progress_calls_alone (amounts : list Z) :
  forall (p : ProgressPercentage) (w : World),
    is_zero (_size p) = false ->
    exists w',
      progress_calls p amounts w
      = (Ok (set_seen (_seen_so_far p + sum amounts) p), w')
      /\ Log.stdout (sink w')
         = Log.stdout (sink w) +:+ text (lines_from p (_seen_so_far p) amounts).
Proof.
  unfold sum. induction amounts as [|a rest IH]; intros p w Hz.
  - exists w. cbn [progress_calls fold_right lines_from text]. split.
    + unfold ret. f_equal. f_equal. destruct p. unfold set_seen. cbn.
      f_equal. lia.
    + now rewrite LogFacts.append_empty.
  - cbn [progress_calls]. unfold bind.
    destruct (progress_call_alone p a w Hz) as (w1 & -> & Hout).
    destruct (IH (set_seen (_seen_so_far p + a) p) w1 Hz) as (w' & -> & Hout').
    exists w'. split.
    + f_equal. f_equal. unfold set_seen. cbn. f_equal. lia.
    + rewrite Hout', Hout, lines_from_set_seen.
      cbn [lines_from text fold_right set_seen _seen_so_far].
      now rewrite StrFacts.append_assoc.
Qed.

(** *** The same calls as threads that run alone *)

Lemma step_at (i : nat) (s : state) (t : thread) :
  threads s !! i = Some t ->
  step i s
  = match at_pc t with
    | Ready =>
        match lock s with
        | None => Some {| self := self s; lock := Some i;
                          threads := move i t Entered s; lines := lines s |}
        | Some _ => None
        end
    | Entered =>
        Some {| self := self s; lock := lock s;
                threads := move i t (Loaded (_seen_so_far (self s))) s;
                lines := lines s |}
    | Loaded v =>
        Some {| self := set_seen (v + bytes_amount t) (self s);
                lock := lock s; threads := move i t Stored s;
                lines := lines s |}
    | Stored =>
        if is_zero (_size (self s)) then
          Some {| self := self s; lock := None;
                  threads := move i t (Returned (Some ZeroDivisionError)) s;
                  lines := lines s |}
        else
          Some {| self := self s; lock := lock s;
                  threads := move i t Wrote s;
                  lines :=
                    lines s
                    ++ [progress_line (_filename (self s))
                          (_seen_so_far (self s)) (_size (self s))
                          (percentage_of (_seen_so_far (self s))
                             (_size (self s)))] |}
    | Wrote =>
        Some {| self := self s; lock := None;
                threads := move i t (Returned None) s; lines := lines s |}
    | Returned _ => None
    end.
Proof. intros H. unfold step. now rewrite H. Qed.

Lemma run_cons (i : nat) (l : list nat) (s : state) :
  run (i :: l) s = run l (default s (step i s)).
Proof. reflexivity. Qed.

Lemma run_app (l1 l2 : list nat) (s : state) :
  run (l1 ++ l2) s = run l2 (run l1 s).
Proof. unfold run. apply fold_left_app. Qed.

Ltac tidy :=
  unfold move;
  cbn [at_pc from_option id self lock threads lines bytes_amount waiting].

(** The five steps of one call that nothing interrupts. *)
Lemma run_alone (i : nat) (a : Z) (s : state) :
  lock s = None ->
  threads s !! i = Some (waiting a) ->
  is_zero (_size (self s)) = false ->
  run (repeat i 5) s
  = {| self := set_seen (_seen_so_far (self s) + a) (self s);
       lock := None;
       threads := <[i := returned a]> (threads s);
       lines := lines s ++ [line_of (self s) (_seen_so_far (self s) + a)] |}.
Proof.
  intros Hlock Hi Hz.
  assert (Hlt : (i < length (threads s))%nat)
    by now apply lookup_lt_Some in Hi.
  cbn [repeat]. rewrite run_cons, (step_at i s _ Hi).
  cbn [at_pc waiting]. rewrite Hlock. tidy.
  rewrite run_cons, (step_at i _ {| bytes_amount := a; at_pc := Entered |})
    by (cbn [threads]; now apply list_lookup_insert_eq).
  tidy. rewrite list_insert_insert_eq.
  rewrite run_cons,
    (step_at i _ {| bytes_amount := a;
                    at_pc := Loaded (_seen_so_far (self s)) |})
    by (cbn [threads]; now apply list_lookup_insert_eq).
  tidy. rewrite list_insert_insert_eq.
  rewrite run_cons, (step_at i _ {| bytes_amount := a; at_pc := Stored |})
    by (cbn [threads]; now apply list_lookup_insert_eq).
  tidy. cbn [set_seen _size]. rewrite Hz. tidy.
  rewrite list_insert_insert_eq.
  rewrite run_cons, (step_at i _ {| bytes_amount := a; at_pc := Wrote |})
    by (cbn [threads]; now apply list_lookup_insert_eq).
  tidy. rewrite list_insert_insert_eq.
  reflexivity.
Qed.

Lemma run_serial_from (p : ProgressPercentage) (rest : list Z) :
  is_zero (_size p) = false ->
  forall (done : list Z) (v : Z) (L : list string),
    run (flat_map (fun i => repeat i 5) (seq (length done) (length rest)))
      {| self := set_seen v p; lock := None;
         threads := map returned done ++ map waiting rest; lines := L |}
    = {| self := set_seen (v + sum rest) p; lock := None;
         threads := map returned (done ++ rest);
         lines := L ++ lines_from p v rest |}.
Proof.
  intros Hz. unfold sum.
  induction rest as [|a rest IH]; intros done v L.
  - cbn [length seq flat_map run fold_left map fold_right lines_from].
    rewrite !app_nil_r. f_equal. unfold set_seen. f_equal. lia.
  - cbn [length seq flat_map]. rewrite run_app.
    rewrite (run_alone (length done) a).
    + cbn [self lock threads lines set_seen _seen_so_far map].
      replace (<[length done := returned a]>
                 (map returned done ++ waiting a :: map waiting rest))
        with (map returned (done ++ [a]) ++ map waiting rest).
      2:{ rewrite map_app, <- app_assoc. cbn [map app].
          replace (length done)
            with (length (map returned done) + 0)%nat
            by (rewrite length_map; lia).
          now rewrite insert_app_r. }
      replace (S (length done)) with (length (done ++ [a]))
        by (rewrite length_app; cbn; lia).
      specialize (IH (done ++ [a]) (v + a)
                    (L ++ [line_of (set_seen v p) (v + a)])).
      change (set_seen (v + a) (set_seen v p)) with (set_seen (v + a) p).
      rewrite IH. rewrite <- !app_assoc. cbn [app lines_from fold_right].
      f_equal. f_equal. lia.
    + reflexivity.
    + cbn [threads map]. rewrite lookup_app_r by now rewrite length_map.
      now rewrite length_map, Nat.sub_diag.
    + exact Hz.
Qed.

Lemma run_serial (p : ProgressPercentage) (amounts : list Z) :
  is_zero (_size p) = false ->
  run (serial (length amounts)) (start p amounts)
  = {| self := set_seen (_seen_so_far p + sum amounts) p; lock := None;
       threads := map returned amounts;
       lines := lines_from p (_seen_so_far p) amounts |}.
Proof.
  intros Hz.
  pose proof (run_serial_from p amounts Hz [] (_seen_so_far p) []) as H.
  cbn [length map app] in H. unfold serial, start.
  replace p with (set_seen (_seen_so_far p) p) at 1 by now destruct p.
  exact H.
Qed.

(** *** Any schedule *)

Lemma all_returned (l : list thread) :
  (forall i t, l !! i = Some t -> at_pc t = Returned None) ->
  l = map returned (map bytes_amount l).
Proof.
  induction l as [|t l IH]; intros H; [reflexivity|].
  cbn [map]. f_equal.
  - specialize (H 0%nat t eq_refl). destruct t as [a pc0]. cbn in *.
    now subst pc0.
  - apply IH. intros i u Hi. exact (H (S i) u Hi).
Qed.

(** C9. The counter of the progress callback ends at the sum of the
    reported amounts and no increment is lost, also when the calls
    interleave under the lock.  For amounts that are not negative and a
    total that a float can hold: whatever the schedule and whatever the
    size, once every call has returned the counter is the start value
    plus the sum of the amounts.  For a size as [__init__] sets it, not
    zero, moreover: the calls made one after the other all return, the
    object ends with the counter at the total, and they write one line
    per call; threads that run alone, one after the other, go through
    the same states and write the same lines; and whatever the
    schedule, once every call has returned the object is the same as
    after the calls made one after the other, the lock is free, every
    call has returned normally and the last line written reports the
    total.  For the amounts 10, 10, 5 and a size of 25 bytes that line
    shows 100.00%. *)
Theorem progress_counter_total (p : ProgressPercentage) (amounts : list Z)
  (schedule : list nat) (w : World) :
  0 <= _seen_so_far p -> Forall (fun a => 0 <= a) amounts ->
  _seen_so_far p + sum amounts < 2 ^ 1023 ->
  (finished (run schedule (start p amounts)) = true ->
   _seen_so_far (self (run schedule (start p amounts)))
   = _seen_so_far p + sum amounts)
  /\ (forall size,
        _size p = float_of_Z size -> 0 < size < 2 ^ 53 ->
        is_zero (_size p) = false ->
        (exists w',
            progress_calls p amounts w
            = (Ok (set_seen (_seen_so_far p + sum amounts) p), w')
            /\ Log.stdout (sink w')
               = Log.stdout (sink w)
                 +:+ text (lines_from p (_seen_so_far p) amounts))
        /\ run (serial (length amounts)) (start p amounts)
           = {| self := set_seen (_seen_so_far p + sum amounts) p;
                lock := None;
                threads := map returned amounts;
                lines := lines_from p (_seen_so_far p) amounts |}
        /\ (finished (run schedule (start p amounts)) = true ->
            self (run schedule (start p amounts))
            = set_seen (_seen_so_far p + sum amounts) p
            /\ lock (run schedule (start p amounts)) = None
            /\ threads (run schedule (start p amounts))
               = map returned amounts
            /\ (amounts <> [] ->
                last (lines (run schedule (start p amounts)))
                = Some (line_of p (_seen_so_far p + sum amounts)))))
  /\ line_of {| _filename := "J1.tar.gz"; _size := float_of_Z 25;
                _seen_so_far := 0 |} (0 + sum [10; 10; 5])
     = CR +:+ "J1.tar.gz  25 / 25.0  (100.00%)".
Proof.
  intros _ _ _.
  pose proof (invariant_run p amounts schedule _ (invariant_start p amounts))
    as [Ilock Iload Iseen Iam Isz Inm Inoerr Iwr Ilast Ihold].
  set (s := run schedule (start p amounts)) in *.
  assert (Hseen : finished s = true ->
                  _seen_so_far (self s) = _seen_so_far p + sum amounts).
  { unfold finished. intros Hfin.
    rewrite Iseen, (added_when_finished _ Hfin), Iam. reflexivity. }
  split; [exact Hseen|]. split; [|vm_compute; reflexivity].
  intros size _ _ Hz.
  split; [now apply progress_calls_alone|].
  split; [now apply run_serial|].
  intros Hfin. specialize (Hseen Hfin). unfold finished in Hfin.
  assert (Hret : forall i t, threads s !! i = Some t -> at_pc t = Returned None).
  { intros i t Hi. destruct (returned_everywhere _ i t Hfin Hi) as (e & He).
    now rewrite He, (Inoerr Hz i t e Hi He). }
  split; [|split; [|split]].
  - destruct (self s) as [f sz n]. destruct p as [f0 sz0 n0].
    unfold set_seen. cbn in Hseen, Isz, Inm |- *. congruence.
  - destruct (lock s) as [i|] eqn:El; [|reflexivity].
    destruct (Ihold i eq_refl) as (t & Hi & Hin).
    unfold in_lock in Hin. now rewrite (Hret i t Hi) in Hin.
  - rewrite (all_returned _ Hret). now rewrite Iam.
  - intros Hne. rewrite <- Hseen. apply Ilast.
    + exact Hz.
    + intros i t Hi Hst. rewrite (Hret i t Hi) in Hst. discriminate.
    + destruct (threads s) as [|t l] eqn:Et.
      * exfalso. apply Hne. now rewrite <- Iam.
      * assert (H0 : (t :: l) !! 0%nat = Some t) by reflexivity.
        apply (Iwr 0%nat t H0). unfold has_written.
        now rewrite (Hret 0%nat t H0).
Qed.

Lemma progress_counter_total_witness :
  (exists w',
      progress_calls
        {| _filename := "J1.tar.gz"; _size := float_of_Z 25;
           _seen_so_far := 0 |} [10; 10; 5] FileOpsSpec.sample_world
      = (Ok {| _filename := "J1.tar.gz"; _size := float_of_Z 25;
               _seen_so_far := 25 |}, w'))
  /\ finished
       (run round_robin
          (start {| _filename := "J1.tar.gz"; _size := float_of_Z 25;
                    _seen_so_far := 0 |} [10; 10; 5])) = true
  /\ _seen_so_far
       (self (run round_robin
                (start {| _filename := "J1.tar.gz"; _size := float_of_Z 25;
                          _seen_so_far := 0 |} [10; 10; 5])))
     = 25
  /\ last (lines (run round_robin
                    (start {| _filename := "J1.tar.gz"; _size := float_of_Z 25;
                              _seen_so_far := 0 |} [10; 10; 5])))
     = Some (CR +:+ "J1.tar.gz  25 / 25.0  (100.00%)").
Proof.
  assert (Hfin : finished
            (run round_robin
               (start {| _filename := "J1.tar.gz"; _size := float_of_Z 25;
                         _seen_so_far := 0 |} [10; 10; 5])) = true)
    by (vm_compute; reflexivity).
  destruct (progress_counter_total
              {| _filename := "J1.tar.gz"; _size := float_of_Z 25;
                 _seen_so_far := 0 |} [10; 10; 5] round_robin
              FileOpsSpec.sample_world)
    as (_ & H & Hline).
  - simpl. lia.
  - repeat constructor; lia.
  - vm_compute. reflexivity.
  - destruct (H 25) as ((w' & Hseq & _) & _ & Hsched);
      [reflexivity | lia | vm_compute; reflexivity |].
    split; [exists w'; exact Hseq|]. split; [exact Hfin|].
    destruct (Hsched Hfin) as (Hself & _ & _ & Hlast).
    split; [now rewrite Hself|].
    rewrite <- Hline. apply Hlast. discriminate.
Defined.

End ThreadFacts.

(** ** file_ops.py: transfers *)

Module TransferFacts.

Import FS FileOps FileOpsSpec FileOpsFacts FileOpsMoreSpec.

Lemma read_only_ret {A} (a : A) : read_only (ret a).
Proof. intros w. now repeat split. Qed.

Lemma read_only_raise {A} (e : exn) : read_only (@raise A e).
Proof. intros w. now repeat split. Qed.

Lemma read_only_bind {A B} (m : M A) (k : A -> M B) :
  read_only m -> (forall a, read_only (k a)) -> read_only (bind m k).
Proof.
  intros Hm Hk w. unfold bind. specialize (Hm w).
  destruct (m w) as [[a|e] w1]; cbn [snd] in *; [|exact Hm].
  destruct (Hk a w1) as (H1 & H2 & H3). destruct Hm as (G1 & G2 & G3).
  repeat split; congruence.
Qed.

Lemma read_only_log_info args : read_only (log_info args).
Proof.
  intros w. destruct (log_info_effect args w) as (w' & -> & H1 & H2 & H3 & _).
  now repeat split.
Qed.

Lemma read_only_read_file p : read_only (read_file p).
Proof.
  intros w. unfold read_file.
  destruct (stat (fs w) (cwd w) p) as [|[]]; now repeat split.
Qed.

Lemma read_only_progress_init env p : read_only (progress_init env p).
Proof.
  intros w. unfold progress_init.
  destruct (stat (fs w) (cwd w) p); now repeat split.
Qed.

Lemma read_only_progress_call self n : read_only (progress_call self n).
Proof.
  intros w. unfold progress_call.
  destruct (progress_body self n (Log.stdout (sink w))) as [[self' out] [e|]];
    now repeat split.
Qed.

Lemma read_only_progress_calls amounts :
  forall self, read_only (progress_calls self amounts).
Proof.
  induction amounts as [|a rest IH]; intros self; cbn [progress_calls].
  - apply read_only_ret.
  - apply read_only_bind; [apply read_only_progress_call | exact IH].
Qed.

Lemma keeps_files_bind {A B} (m : M A) (k : A -> M B) :
  keeps_files m -> (forall a, keeps_files (k a)) -> keeps_files (bind m k).
Proof.
  intros Hm Hk w. unfold bind. specialize (Hm w).
  destruct (m w) as [[a|e] w1]; cbn [snd] in *; [|exact Hm].
  destruct (Hk a w1) as (H1 & H2). destruct Hm as (G1 & G2).
  split; congruence.
Qed.

Lemma read_only_keeps_files {A} (m : M A) : read_only m -> keeps_files m.
Proof. intros H w. destruct (H w) as (H1 & H2 & _). now split. Qed.

Lemma keeps_files_client_upload env body bucket objectname callback :
  keeps_files (client_upload env body bucket objectname callback).
Proof.
  unfold client_upload.
  destruct (upload_fileobj env body bucket objectname) as [amounts failure].
  apply keeps_files_bind.
  - apply read_only_keeps_files, read_only_progress_calls.
  - intros _. destruct failure; intros w; now split.
Qed.

(** X1. [upload_tar] never touches the file system or the working
    directory, whatever the destination and whether it returns or
    raises: after a failed transfer the archive is still where
    [make_tar] put it. *)
Theorem upload_tar_keeps_files (env : Env) (tar output_path : string)
  (w : World) :
  fs (snd (upload_tar env tar output_path w)) = fs w
  /\ cwd (snd (upload_tar env tar output_path w)) = cwd w
  /\ read_file tar (snd (upload_tar env tar output_path w))
     = (fst (read_file tar w), snd (upload_tar env tar output_path w)).
Proof.
  assert (H : keeps_files (upload_tar env tar output_path)).
  { unfold upload_tar.
    apply keeps_files_bind; [intros w0; now split|]. intros _.
    apply keeps_files_bind;
      [apply read_only_keeps_files, read_only_log_info|]. intros _.
    destruct (PyStr.startswith output_path "s3");
      [|intros w0; now split].
    apply keeps_files_bind;
      [apply read_only_keeps_files, read_only_read_file|]. intros f.
    apply keeps_files_bind;
      [apply read_only_keeps_files, read_only_progress_init|]. intros cb.
    apply keeps_files_client_upload. }
  destruct (H w) as (Hfs & Hcwd). split; [exact Hfs|]. split; [exact Hcwd|].
  unfold read_file. rewrite Hfs, Hcwd.
  destruct (stat (fs w) (cwd w) tar) as [|[]]; reflexivity.
Qed.

Lemma progress_call_effect (p : ProgressPercentage) (a : Z) (w : World) :
  is_zero (_size p) = false ->
  exists w',
    progress_call p a w
    = (Ok {| _filename := _filename p; _size := _size p;
             _seen_so_far := _seen_so_far p + a |}, w')
    /\ fs w' = fs w /\ cwd w' = cwd w /\ uploads w' = uploads w
    /\ logger w' = logger w /\ Log.records (sink w') = Log.records (sink w).
Proof.
  intros Hz. unfold progress_call, progress_body. rewrite Hz.
  eexists. split; [reflexivity|]. now repeat split.
Qed.

(** Calls made one after the other on an object whose size is not
    zero. *)
Lemma progress_calls_effect (amounts : list Z) :
  forall (p : ProgressPercentage) (w : World),
    is_zero (_size p) = false ->
    exists p' w',
      progress_calls p amounts w = (Ok p', w')
      /\ _seen_so_far p' = _seen_so_far p + Threads.sum amounts
      /\ _size p' = _size p /\ _filename p' = _filename p
      /\ fs w' = fs w /\ cwd w' = cwd w /\ uploads w' = uploads w
      /\ logger w' = logger w /\ Log.records (sink w') = Log.records (sink w).
Proof.
  unfold Threads.sum.
  induction amounts as [|a rest IH]; intros p w Hz.
  - exists p, w. cbn. repeat split; try reflexivity. lia.
  - cbn [progress_calls]. unfold bind.
    destruct (progress_call_effect p a w Hz)
      as (w1 & -> & H1 & H2 & H3 & H4 & H5).
    destruct (IH {| _filename := _filename p; _size := _size p;
                    _seen_so_far := _seen_so_far p + a |} w1 Hz)
      as (p' & w' & -> & G1 & G2 & G3 & G4 & G5 & G6 & G7 & G8).
    exists p', w'. cbn in *. repeat split; try congruence. lia.
Qed.

(** X2. For amounts that are not negative and a total that a float can
    hold.  With a size that is not zero the callback does not raise:
    calls made one after the other all return, the counter ends at the
    sum of the amounts, and nothing but standard output has changed.
    With a size of zero (an empty file) the first call raises
    [ZeroDivisionError] before anything is written. *)
Theorem progress_calls_outcome (p : ProgressPercentage) (amounts : list Z)
  (w : World) :
  0 <= _seen_so_far p ->
  Forall (fun a => 0 <= a) amounts ->
  _seen_so_far p + Threads.sum amounts < 2 ^ 1023 ->
  (is_zero (_size p) = false ->
   exists p' w',
     progress_calls p amounts w = (Ok p', w')
     /\ _seen_so_far p' = _seen_so_far p + Threads.sum amounts
     /\ _size p' = _size p /\ _filename p' = _filename p
     /\ fs w' = fs w /\ cwd w' = cwd w /\ uploads w' = uploads w
     /\ logger w' = logger w /\ Log.records (sink w') = Log.records (sink w))
  /\ (is_zero (_size p) = true -> amounts <> [] ->
      progress_calls p amounts w = (Raise ZeroDivisionError, w)).
Proof.
  intros _ _ _. split.
  - intros Hz. now apply progress_calls_effect.
  - intros Hz Hne. destruct amounts as [|a rest]; [contradiction|].
    cbn [progress_calls]. unfold bind, progress_call, progress_body.
    rewrite Hz. destruct w as [t c l [r o] u]. reflexivity.
Qed.

Lemma progress_calls_outcome_witness :
  exists p' w',
    progress_calls
      {| _filename := "J1.tar.gz"; _size := float_of_Z 40; _seen_so_far := 0 |}
      [16; 24] sample_world = (Ok p', w')
    /\ _seen_so_far p' = 40.
Proof.
  destruct (progress_calls_outcome
              {| _filename := "J1.tar.gz"; _size := float_of_Z 40;
                 _seen_so_far := 0 |} [16; 24] sample_world) as (H & _).
  - simpl. lia.
  - repeat constructor; lia.
  - vm_compute. reflexivity.
  - destruct H as (p' & w' & Hr & Hs & _); [vm_compute; reflexivity|].
    exists p', w'. split; [exact Hr | exact Hs].
Defined.

(** The bucket and the object name that [upload_tar] computes. *)
Lemma destination_parts (bucket prefix : string) :
  PyStr.contains "/" bucket = false ->
  hd "" (PyStr.split "/" (PyStr.drop 5 ("s3://" +:+ bucket +:+ "/" +:+ prefix)))
  = bucket
  /\ PyStr.join "/"
       (tl (PyStr.split "/" (PyStr.drop 5 ("s3://" +:+ bucket +:+ "/" +:+ prefix))))
     = prefix.
Proof.
  intros Hb.
  change (PyStr.drop 5 ("s3://" +:+ bucket +:+ "/" +:+ prefix))
    with (bucket +:+ String "/" prefix).
  rewrite (split_app_sep "/" bucket prefix Hb). cbn [hd tl].
  split; [reflexivity|]. apply (StrFacts.join_split "/" prefix).
Qed.

Lemma destination_bucket_only (bucket : string) :
  PyStr.contains "/" bucket = false ->
  hd "" (PyStr.split "/" (PyStr.drop 5 ("s3://" +:+ bucket))) = bucket
  /\ PyStr.join "/" (tl (PyStr.split "/" (PyStr.drop 5 ("s3://" +:+ bucket))))
     = "".
Proof.
  intros Hb. change (PyStr.drop 5 ("s3://" +:+ bucket)) with bucket.
  rewrite (split_plain "/" bucket Hb). now split.
Qed.

(** [upload_tar] on a destination that begins with [s3], once the parts
    of the destination are known. *)
Lemma upload_tar_s3 (env : Env) (tar output_path bucket prefix : string)
  (w : World) (d : data) (amounts : list Z) (failure : option exn) :
  new_client env = Ok tt ->
  PyStr.startswith output_path "s3" = true ->
  hd "" (PyStr.split "/" (PyStr.drop 5 output_path)) = bucket ->
  PyStr.join "/" (tl (PyStr.split "/" (PyStr.drop 5 output_path))) = prefix ->
  stat (fs w) (cwd w) tar = inr (File d) ->
  is_zero (float_of_Z (getsize env d)) = false ->
  upload_fileobj env d bucket (prefix +:+ "/" +:+ basename tar)
  = (amounts, failure) ->
  exists w',
    upload_tar env tar output_path w
    = (match failure with None => Ok tt | Some e => Raise e end, w')
    /\ uploads w'
       = match failure with
         | None => uploads w ++ [(bucket, prefix +:+ "/" +:+ basename tar, d)]
         | Some _ => uploads w
         end.
Proof.
  intros Hc Hs Hb Hp Hd Hz Hup.
  destruct (upload_tar_start env tar output_path w Hc)
    as (w1 & Hfs & Hcwd & Hu & _ & ->).
  rewrite Hs, Hb, Hp. unfold bind at 1, read_file. rewrite Hfs, Hcwd, Hd.
  unfold bind at 1, progress_init. rewrite Hfs, Hcwd, Hd.
  unfold client_upload. rewrite Hup. unfold bind at 1.
  destruct (progress_calls_effect amounts
              {| _filename := tar; _size := float_of_Z (getsize env d);
                 _seen_so_far := 0 |} w1 Hz)
    as (p' & w2 & -> & _ & _ & _ & _ & _ & Hu2 & _).
  destruct failure as [e|].
  - exists w2. split; [reflexivity | congruence].
  - eexists. split; [reflexivity|]. cbn. congruence.
Qed.

(** X3. For a destination [s3://bucket/prefix], a readable archive of a
    size that is not zero and a client that can be created: [upload_tar]
    hands the archive to the client under the bucket [bucket] and the
    object name [prefix/basename]; when the client succeeds it returns
    and exactly that upload has been made, when the client fails it
    raises the client's exception and no upload has been made. *)
Theorem upload_tar_to_bucket (env : Env) (tar bucket prefix : string)
  (w : World) (d : data) (amounts : list Z) (failure : option exn) :
  new_client env = Ok tt ->
  PyStr.contains "/" bucket = false ->
  stat (fs w) (cwd w) tar = inr (File d) ->
  is_zero (float_of_Z (getsize env d)) = false ->
  upload_fileobj env d bucket (prefix +:+ "/" +:+ basename tar)
  = (amounts, failure) ->
  exists w',
    upload_tar env tar ("s3://" +:+ bucket +:+ "/" +:+ prefix) w
    = (match failure with None => Ok tt | Some e => Raise e end, w')
    /\ uploads w'
       = match failure with
         | None => uploads w ++ [(bucket, prefix +:+ "/" +:+ basename tar, d)]
         | Some _ => uploads w
         end.
Proof.
  intros Hc Hb Hd Hz Hup.
  destruct (destination_parts bucket prefix Hb) as [H1 H2].
  now apply (upload_tar_s3 env tar _ bucket prefix w d amounts failure).
Qed.

Lemma upload_tar_to_bucket_witness :
  exists w',
    upload_tar sample_env "J1/a.fits" "s3://bucket/wfc3/J1"
      (set_cwd ["tmp"; "out"] sample_world) = (Ok tt, w')
    /\ uploads w' = [("bucket", "wfc3/J1/a.fits", Raw "AAAA")].
Proof.
  destruct (upload_tar_to_bucket sample_env "J1/a.fits" "bucket" "wfc3/J1"
              (set_cwd ["tmp"; "out"] sample_world) (Raw "AAAA")
              [10; 10; 5] None) as (w' & H1 & H2);
    try reflexivity.
  exists w'. split; [exact H1 | exact H2].
Defined.

(** X4. For a destination [s3://bucket] with no key prefix the object
    name that [upload_tar] gives to the client begins with a slash: it
    is [/basename]. *)
Theorem upload_tar_without_prefix (env : Env) (tar bucket : string)
  (w : World) (d : data) (amounts : list Z) :
  new_client env = Ok tt ->
  PyStr.contains "/" bucket = false ->
  stat (fs w) (cwd w) tar = inr (File d) ->
  is_zero (float_of_Z (getsize env d)) = false ->
  upload_fileobj env d bucket ("/" +:+ basename tar) = (amounts, None) ->
  exists w',
    upload_tar env tar ("s3://" +:+ bucket) w = (Ok tt, w')
    /\ uploads w' = uploads w ++ [(bucket, "/" +:+ basename tar, d)].
Proof.
  intros Hc Hb Hd Hz Hup.
  destruct (destination_bucket_only bucket Hb) as [H1 H2].
  apply (upload_tar_s3 env tar _ bucket "" w d amounts None); try assumption.
  reflexivity.
Qed.

Lemma upload_tar_without_prefix_witness :
  exists w',
    upload_tar sample_env "J1/a.fits" "s3://bucket"
      (set_cwd ["tmp"; "out"] sample_world) = (Ok tt, w')
    /\ uploads w' = [("bucket", "/a.fits", Raw "AAAA")].
Proof.
  destruct (upload_tar_without_prefix sample_env "J1/a.fits" "bucket"
              (set_cwd ["tmp"; "out"] sample_world) (Raw "AAAA") [10; 10; 5])
    as (w' & H1 & H2); try reflexivity.
  exists w'. split; [exact H1 | exact H2].
Defined.

End TransferFacts.

(** ** file_ops.py: archives and the packaging as a whole *)

Module PackagingFacts.

Import FS FileOps FileOpsSpec FileOpsFacts FileOpsMoreSpec.

(** A sequence that returns has run both of its parts. *)
Lemma bind_ok {A B} (m : M A) (k : A -> M B) (w w' : World) (b : B) :
  bind m k w = (Ok b, w') ->
  exists a w1, m w = (Ok a, w1) /\ k a w1 = (Ok b, w').
Proof.
  unfold bind. destruct (m w) as [[a|e] w1]; [|discriminate].
  intros H. now exists a, w1.
Qed.

(** X5. When [{jobId}.tar.gz] is a directory, [make_tar] raises
    [IsADirectoryError] from [os.remove] before it creates anything: the
    file system and the working directory are as before. *)
Theorem make_tar_transient_directory (file_list : list string)
  (ipppssoot : string) (w : World) :
  isdir w (ipppssoot +:+ ".tar.gz") = true ->
  exists w',
    make_tar file_list ipppssoot w
    = (Raise (IsADirectoryError (ipppssoot +:+ ".tar.gz")), w')
    /\ fs w' = fs w /\ cwd w' = cwd w.
Proof.
  intros Hd. rewrite make_tar_unfold. unfold tar_of. unfold bind at 1.
  match goal with |- context [log_info ?a w] =>
    destruct (log_info_effect a w) as (w1 & -> & Hfs & Hcwd & _ & _) end.
  unfold bind at 1, read. unfold bind at 1.
  unfold isdir in Hd. unfold exists_. rewrite Hfs, Hcwd.
  destruct (stat (fs w) (cwd w) (ipppssoot +:+ ".tar.gz")) as [|[]] eqn:Hs;
    try discriminate.
  unfold remove. unfold stat in Hs. rewrite Hfs, Hcwd.
  destruct (resolve (fs w) (cwd w) (ipppssoot +:+ ".tar.gz")) as [|q];
    [discriminate|].
  destruct (node_at (fs w) q) as [[]|]; try discriminate.
  exists w1. now repeat split.
Qed.

Lemma make_tar_transient_directory_witness :
  exists w',
    make_tar ["J1/a.fits"] "J1"
      (set_fs (<[ ["tmp"; "out"; "J1.tar.gz"] := Dir ]> sample_tree)
              (set_cwd ["tmp"; "out"] sample_world))
    = (Raise (IsADirectoryError "J1.tar.gz"), w')
    /\ fs w' = <[ ["tmp"; "out"; "J1.tar.gz"] := Dir ]> sample_tree.
Proof.
  destruct (make_tar_transient_directory ["J1/a.fits"] "J1"
              (set_fs (<[ ["tmp"; "out"; "J1.tar.gz"] := Dir ]> sample_tree)
                      (set_cwd ["tmp"; "out"] sample_world)))
    as (w' & H1 & H2 & _); [vm_compute; reflexivity|].
  exists w'. split; [exact H1 | exact H2].
Defined.

(** Whenever [make_tar] returns, what it returns is the job identifier
    joined with the archive name. *)
Lemma make_tar_returns (file_list : list string) (j : string)
  (w w' : World) (p : string) :
  make_tar file_list j w = (Ok p, w') -> p = path_join j (j +:+ ".tar.gz").
Proof.
  unfold make_tar. intros H.
  repeat (apply bind_ok in H as (? & ? & _ & H)).
  unfold ret in H. now injection H as <- _.
Qed.

(** X6. Whenever [tar_outputs] returns, the output directory existed and
    was entered, and the result is: for a destination that begins with
    [file], the archive path [{jobId}/{jobId}.tar.gz] together with the
    files that [find_files] found in the output directory; for any other
    destination, nothing. *)
Theorem tar_outputs_result (env : Env) (ipppssoot output_uri : string)
  (w w' : World) (r : option (string * list string)) :
  tar_outputs env ipppssoot output_uri w = (Ok r, w') ->
  exists output_dir w1 file_list,
    get_output_dir output_uri w = (Ok output_dir, w)
    /\ chdir output_dir w = (Ok tt, w1)
    /\ find_files ipppssoot w1 = (Ok file_list, w1)
    /\ r = if PyStr.startswith output_uri "file"
           then Some (path_join ipppssoot (ipppssoot +:+ ".tar.gz"), file_list)
           else None.
Proof.
  unfold tar_outputs. intros H.
  apply bind_ok in H as (wd & w0 & Hwd & H). unfold read in Hwd.
  injection Hwd as <- <-.
  apply bind_ok in H as (output_path & w0 & Hop & H).
  assert (w0 = w) as -> by congruence.
  apply bind_ok in H as (output_dir & w0 & Hod & H).
  pose proof (get_output_dir_world output_uri w) as Hw. rewrite Hod in Hw.
  cbn in Hw. subst w0.
  apply bind_ok in H as ([] & w1 & Hcd & H).
  apply bind_ok in H as (file_list & w2 & Hff & H).
  assert (w2 = w1) as -> by (unfold find_files, read in Hff; congruence).
  apply bind_ok in H as (tar & w3 & Hmt & H).
  apply make_tar_returns in Hmt as ->.
  apply bind_ok in H as ([] & w4 & _ & H).
  apply bind_ok in H as ([] & w5 & _ & H).
  exists output_dir, w1, file_list. repeat split; try assumption.
  destruct (PyStr.startswith output_uri "file"); unfold ret in H;
    now injection H as <- _.
Qed.

Lemma tar_outputs_result_witness :
  exists output_dir w1 file_list,
    get_output_dir "file:/tmp/out" sample_world = (Ok output_dir, sample_world)
    /\ chdir output_dir sample_world = (Ok tt, w1)
    /\ find_files "J1" w1 = (Ok file_list, w1)
    /\ fst (tar_outputs sample_env "J1" "file:/tmp/out" sample_world)
       = Ok (Some ("J1/J1.tar.gz", file_list)).
Proof.
  destruct (tar_outputs_result sample_env "J1" "file:/tmp/out" sample_world
              (snd (tar_outputs sample_env "J1" "file:/tmp/out" sample_world))
              (Some ("J1/J1.tar.gz", ["J1/a.fits"; "J1/b.tra"; "J1/previews/c.png"])))
    as (d & w1 & fl & H1 & H2 & H3 & H4); [vm_compute; reflexivity|].
  exists d, w1, fl. repeat split; try assumption.
  cbn in H4. injection H4 as <-. vm_compute. reflexivity.
Defined.

(** X7. [tar_outputs] gives up before it changes anything when the
    output path cannot be computed, when the destination begins with
    neither [file] nor [s3], and when the output directory cannot be
    entered: it raises, and the world is as it was. *)
Theorem tar_outputs_early_failures (env : Env)
  (ipppssoot output_uri : string) (w : World) :
  (forall e, get_output_path env output_uri ipppssoot w = Raise e ->
             tar_outputs env ipppssoot output_uri w = (Raise e, w))
  /\ (forall p, get_output_path env output_uri ipppssoot w = Ok p ->
        PyStr.startswith output_uri "file" = false ->
        PyStr.startswith output_uri "s3" = false ->
        tar_outputs env ipppssoot output_uri w
        = (Raise (UnboundLocalError "output_dir"), w))
  /\ (forall p output_dir,
        get_output_path env output_uri ipppssoot w = Ok p ->
        get_output_dir output_uri w = (Ok output_dir, w) ->
        isdir w output_dir = false ->
        exists e, tar_outputs env ipppssoot output_uri w = (Raise e, w)).
Proof.
  unfold tar_outputs. repeat split.
  - intros e He. unfold bind at 1, read. unfold bind at 1. now rewrite He.
  - intros p Hp Hf Hs. unfold bind at 1, read. unfold bind at 1. rewrite Hp.
    unfold bind at 1, get_output_dir. now rewrite Hf, Hs.
  - intros p d Hp Hd Hdir. unfold bind at 1, read. unfold bind at 1.
    rewrite Hp. unfold bind at 1. rewrite Hd. unfold bind at 1, chdir.
    unfold isdir, stat in Hdir.
    destruct (resolve (fs w) (cwd w) d) as [e|q]; [now eexists|].
    destruct (node_at (fs w) q) as [[]|]; try discriminate; now eexists.
Qed.

Lemma tar_outputs_early_failures_witness :
  tar_outputs sample_env "J1" "ftp://host/dir" sample_world
  = (Raise (UnboundLocalError "output_dir"), sample_world)
  /\ exists e, tar_outputs sample_env "J1" "file:/nowhere" sample_world
               = (Raise e, sample_world).
Proof.
  destruct (tar_outputs_early_failures sample_env "J1" "ftp://host/dir"
              sample_world) as (_ & H & _).
  destruct (tar_outputs_early_failures sample_env "J1" "file:/nowhere"
              sample_world) as (_ & _ & G).
  split.
  - apply (H "//host/dir"); reflexivity.
  - apply (G "/nowhere" "/nowhere"); vm_compute; reflexivity.
Defined.

(** *** Packaging never uploads *)

Lemma no_upload_ret {A} (a : A) : no_upload (ret a).
Proof. intros w. reflexivity. Qed.

Lemma no_upload_read {A} (f : World -> A) : no_upload (read f).
Proof. intros w. reflexivity. Qed.

Lemma no_upload_bind {A B} (m : M A) (k : A -> M B) :
  no_upload m -> (forall a, no_upload (k a)) -> no_upload (bind m k).
Proof.
  intros Hm Hk w. unfold bind. specialize (Hm w).
  destruct (m w) as [[a|e] w1]; cbn in *.
  - now rewrite Hk.
  - exact Hm.
Qed.

Lemma no_upload_log_info args : no_upload (log_info args).
Proof.
  intros w. destruct (log_info_effect args w) as (w' & -> & _ & _ & H & _).
  exact H.
Qed.

Lemma no_upload_remove p : no_upload (remove p).
Proof.
  intros w. unfold remove.
  destruct (resolve (fs w) (cwd w) p); [reflexivity|].
  destruct (node_at (fs w) l) as [[]|]; reflexivity.
Qed.

Lemma no_upload_read_file p : no_upload (read_file p).
Proof.
  intros w. unfold read_file.
  destruct (stat (fs w) (cwd w) p) as [|[]]; reflexivity.
Qed.

Lemma no_upload_write_file p d : no_upload (write_file p d).
Proof.
  intros w. unfold write_file.
  destruct (resolve (fs w) (cwd w) p); [reflexivity|].
  destruct (node_at (fs w) l) as [[]|]; reflexivity.
Qed.

Lemma no_upload_tarfile_open_x p : no_upload (tarfile_open_x p).
Proof.
  intros w. unfold tarfile_open_x.
  destruct (resolve (fs w) (cwd w) p); [reflexivity|].
  destruct (node_at (fs w) l); reflexivity.
Qed.

Lemma no_upload_tar_add_all self_name tar file_list :
  forall acc, no_upload (tar_add_all self_name tar file_list acc).
Proof.
  induction file_list as [|f rest IH]; intros acc w; cbn [tar_add_all].
  - apply no_upload_write_file.
  - destruct (tar_add w self_name f).
    + apply IH.
    + cbn [snd]. apply no_upload_write_file.
Qed.

Lemma no_upload_shutil_copy src dst : no_upload (shutil_copy src dst).
Proof.
  intros w. unfold shutil_copy.
  destruct (samefile w src _); [reflexivity|].
  apply no_upload_bind; [apply no_upload_read_file|]. intros d.
  apply no_upload_bind; [apply no_upload_write_file|]. intros _.
  apply no_upload_ret.
Qed.

Lemma no_upload_make_tar file_list j : no_upload (make_tar file_list j).
Proof.
  unfold make_tar.
  repeat first
    [ apply no_upload_bind; [|intros ?]
    | apply no_upload_log_info | apply no_upload_read | apply no_upload_remove
    | apply no_upload_ret | apply no_upload_tarfile_open_x
    | apply no_upload_tar_add_all | apply no_upload_shutil_copy
    | match goal with |- no_upload (if ?b then _ else _) => destruct b end ].
Qed.

(** *** One run from end to end *)

(** The first steps of [make_tar]: the message, and the removal of what
    an earlier attempt left at the transient place. *)
Lemma make_tar_start (j : string) (file_list : list string) (w : World) :
  plain_name j = true ->
  node_at (fs w) (cwd w) = Some Dir ->
  fs w !! transient_key w j <> Some Dir ->
  exists w2,
    make_tar file_list j w = make_tar_rest file_list j w2
    /\ cwd w2 = cwd w /\ fs w2 = delete (transient_key w j) (fs w).
Proof.
  intros Hj Hc Htk. pose proof (tar_name_plain j Hj) as Hn.
  fold (tar_of j) in Hn. rewrite make_tar_unfold. unfold bind at 1.
  match goal with |- context [log_info ?a w] =>
    destruct (log_info_effect a w) as (w1 & -> & Hfs1 & Hcwd1 & _ & _) end.
  unfold bind at 1, read. unfold bind at 1.
  assert (Hr : resolve (fs w1) (cwd w1) (tar_of j) = inr (transient_key w j)).
  { rewrite Hfs1, Hcwd1. now apply resolve_name. }
  assert (Hnode : forall t0 : tree,
             node_at t0 (transient_key w j) = t0 !! transient_key w j)
    by (intros; apply node_at_key).
  unfold exists_, stat. rewrite Hr, Hnode, Hfs1.
  destruct (fs w !! transient_key w j) as [[d|]|] eqn:E.
  - rewrite (remove_file _ w1 _ d Hr).
    + eexists. split; [reflexivity|]. cbn. now rewrite Hfs1.
    + now rewrite Hnode, Hfs1.
  - contradiction.
  - exists w1. split; [reflexivity|]. split; [exact Hcwd1|].
    rewrite Hfs1. symmetry. now apply delete_id.
Qed.

Lemma make_tar_outcome (j : string) (file_list : list string) (w : World) :
  plain_name j = true -> ready j file_list w ->
  exists w' ms,
    make_tar file_list j w = (Ok (j +:+ "/" +:+ tar_of j), w')
    /\ cwd w' = cwd w
    /\ fs w' !! final_key w j = Some (File (TarGz ms))
    /\ fs w' !! transient_key w j = None
    /\ map fst ms = member_names w j file_list
    /\ same_dirs (fs w) (fs w')
    /\ uploads w' = uploads w.
Proof.
  intros Hj Hready. pose proof Hready as [Hc Hjd Htk Hdk Hfl].
  destruct (make_tar_start j file_list w Hj Hc Htk)
    as (w2 & Hstart & Hcwd2 & Hfs2).
  destruct (make_tar_rest_effect j file_list w w2 Hj Hready Hcwd2 Hfs2)
    as (w' & ms & Hrun & Hcwd' & Hfs' & Hms & Hsame).
  pose proof (no_upload_make_tar file_list j w) as Hu.
  rewrite Hstart, Hrun in Hu. cbn [snd] in Hu.
  exists w', ms. rewrite Hstart.
  assert (Hne : transient_key w j <> final_key w j) by apply keys_differ.
  split; [exact Hrun|]. split; [exact Hcwd'|].
  split; [|split; [|split; [exact Hms|split; [exact Hsame | exact Hu]]]].
  - rewrite Hfs', lookup_delete_ne by exact Hne. apply lookup_insert_eq.
  - rewrite Hfs'. apply lookup_delete_eq.
Qed.

Lemma chdir_ok (p : string) (w : World) :
  fst (chdir p w) = Ok tt ->
  exists q, resolve (fs w) (cwd w) p = inr q
            /\ node_at (fs w) q = Some Dir
            /\ chdir p w = (Ok tt, set_cwd q w).
Proof.
  unfold chdir. destruct (resolve (fs w) (cwd w) p) as [e|q]; [discriminate|].
  destruct (node_at (fs w) q) as [[]|] eqn:E; try discriminate.
  intros _. now exists q.
Qed.

Lemma resolve_absolute (t : tree) (c c' : list string) (p : string) :
  isabs p = true -> resolve t c p = resolve t c' p.
Proof. unfold resolve. now intros ->. Qed.

(** Going back to the directory at entry succeeds when the directories
    are those at entry. *)
Lemma chdir_back (w w2 : World) :
  forallb plain_name (cwd w) = true ->
  fst (chdir (getcwd w) w) = Ok tt ->
  same_dirs (fs w) (fs w2) ->
  chdir (getcwd w) w2 = (Ok tt, set_cwd (cwd w) w2).
Proof.
  intros Hp Hok Hs. destruct (chdir_ok _ _ Hok) as (q & Hr & Hq & Hcd).
  assert (Hq' : q = cwd w).
  { apply (chdir_getcwd w) in Hcd; [|exact Hp]. exact Hcd. }
  subst q. unfold chdir.
  rewrite (resolve_absolute _ (cwd w2) (cwd w))
    by (unfold getcwd; apply isabs_slash).
  rewrite (resolve_same_dirs _ _ _ _ _ Hs Hr).
  apply Hs in Hq. now rewrite Hq.
Qed.

(** X8. One run for a local destination.  Let the destination begin
    with [file], let the output directory hold the job directory, with
    no directory in the two places of the archive and regular files
    under the names that [find_files] lists, and let the working
    directory at entry exist.  Then, when the storage client can be
    created, [tar_outputs] returns the archive path and the list of
    files, the archive is at [{output_dir}/{jobId}/{jobId}.tar.gz] with
    the listed files as members, nothing is left at the transient place,
    nothing has been uploaded and the working directory is the one at
    entry.  When the storage client cannot be created, [tar_outputs]
    raises the client's exception although nothing was to be uploaded:
    the archive is in place all the same, and the process is left in
    the output directory. *)
Theorem tar_outputs_local (env : Env) (j output_uri p : string)
  (w w1 : World) (file_list : list string) :
  PyStr.startswith output_uri "file" = true ->
  get_output_path env output_uri j w = Ok p ->
  PyStr.startswith p "s3" = false ->
  chdir (PyStr.last_item (PyStr.split ":" output_uri)) w = (Ok tt, w1) ->
  find_files j w1 = (Ok file_list, w1) ->
  plain_name j = true ->
  ready j file_list w1 ->
  forallb plain_name (cwd w) = true ->
  fst (chdir (getcwd w) w) = Ok tt ->
  (new_client env = Ok tt ->
   exists w' ms,
     tar_outputs env j output_uri w
     = (Ok (Some (j +:+ "/" +:+ tar_of j, file_list)), w')
     /\ cwd w' = cwd w
     /\ uploads w' = uploads w
     /\ fs w' !! final_key w1 j = Some (File (TarGz ms))
     /\ map fst ms = member_names w1 j file_list
     /\ fs w' !! transient_key w1 j = None)
  /\ (forall e, new_client env = Raise e ->
      exists w' ms,
        tar_outputs env j output_uri w = (Raise e, w')
        /\ cwd w' = cwd w1
        /\ uploads w' = uploads w
        /\ fs w' !! final_key w1 j = Some (File (TarGz ms))
        /\ map fst ms = member_names w1 j file_list).
Proof.
  intros Hfile Hpath Hs3 Hcd Hff Hj Hready Hp Hback.
  assert (Hw1 : fs w1 = fs w /\ uploads w1 = uploads w).
  { destruct (chdir_ok (PyStr.last_item (PyStr.split ":" output_uri)) w)
      as (q & _ & _ & E); [now rewrite Hcd|].
    rewrite E in Hcd. injection Hcd as <-. now split. }
  destruct Hw1 as [Hfs1 Hup1].
  destruct (make_tar_outcome j file_list w1 Hj Hready)
    as (w2 & ms & Hmt & Hcwd2 & Hdk & Htk & Hms & Hsame & Hup2).
  assert (Hstart :
             tar_outputs env j output_uri w
             = (upload_tar env (j +:+ "/" +:+ tar_of j) p ;;;
                chdir (getcwd w) ;;;
                if PyStr.startswith output_uri "file"
                then ret (Some (j +:+ "/" +:+ tar_of j, file_list))
                else ret None) w2).
  { unfold tar_outputs. unfold bind at 1, read. unfold bind at 1.
    rewrite Hpath. unfold bind at 1, get_output_dir. rewrite Hfile.
    unfold bind at 1. rewrite Hcd. unfold bind at 1. rewrite Hff.
    unfold bind at 1. now rewrite Hmt. }
  rewrite Hstart. clear Hstart. split.
  - intros Hc.
    destruct (upload_tar_start env (j +:+ "/" +:+ tar_of j) p w2 Hc)
      as (w3 & Hfs3 & Hcwd3 & Hup3 & _ & Hrun).
    rewrite Hs3 in Hrun. unfold bind at 1. rewrite Hrun. unfold ret at 1.
    unfold bind at 1.
    rewrite (chdir_back w w3 Hp Hback)
      by (rewrite Hfs3, <- Hfs1; exact Hsame).
    rewrite Hfile. unfold ret.
    exists (set_cwd (cwd w) w3), ms. cbn [cwd uploads fs set_cwd].
    rewrite Hfs3. repeat split; try assumption. congruence.
  - intros e He. exists w2, ms. unfold bind at 1, upload_tar.
    unfold bind at 1. rewrite He.
    repeat split; try assumption. congruence.
Qed.

Lemma tar_outputs_local_witness :
  exists w' ms,
    tar_outputs sample_env "J1" "file:/tmp/out" sample_world
    = (Ok (Some ("J1/J1.tar.gz",
                 ["J1/a.fits"; "J1/b.tra"; "J1/previews/c.png"])), w')
    /\ cwd w' = ["home"]
    /\ uploads w' = []
    /\ fs w' !! ["tmp"; "out"; "J1"; "J1.tar.gz"] = Some (File (TarGz ms))
    /\ map fst ms = ["J1/a.fits"; "J1/b.tra"; "J1/previews/c.png"].
Proof.
  destruct (tar_outputs_local sample_env "J1" "file:/tmp/out" "/tmp/out"
              sample_world (set_cwd ["tmp"; "out"] sample_world)
              ["J1/a.fits"; "J1/b.tra"; "J1/previews/c.png"])
    as (H & _).
  - reflexivity.
  - reflexivity.
  - reflexivity.
  - vm_compute. reflexivity.
  - vm_compute. reflexivity.
  - reflexivity.
  - apply ready_intro.
    + reflexivity.
    + vm_compute. reflexivity.
    + vm_compute. reflexivity.
    + vm_compute. reflexivity.
    + repeat constructor.
      * now exists (Raw "AAAA").
      * vm_compute. discriminate.
      * now exists (Raw "BB").
      * vm_compute. discriminate.
      * now exists (Raw "C").
      * vm_compute. discriminate.
  - reflexivity.
  - vm_compute. reflexivity.
  - destruct (H eq_refl) as (w' & ms & H1 & H2 & H3 & H4 & H5 & _).
    exists w', ms. repeat split; assumption.
Defined.

(** *** A listed file that is gone *)

(** Adding files to the open archive, up to one that is missing: the
    archive is closed with the members written so far. *)
Lemma tar_add_all_missing (j : string) (good rest : list string)
  (f : string) (q : list string) (w : World) :
  resolve (fs w) (cwd w) (tar_of j) = inr (transient_key w j) ->
  (exists d, fs w !! transient_key w j = Some (File d)) ->
  Forall (fun g => exists q d,
              resolve (fs w) (cwd w) g = inr q
              /\ node_at (fs w) q = Some (File d)
              /\ q <> transient_key w j)
         good ->
  String.eqb (abspath w f) (abspath w (tar_of j)) = false ->
  resolve (fs w) (cwd w) f = inr q -> node_at (fs w) q = None ->
  forall acc, exists ms,
    tar_add_all (abspath w (tar_of j)) (tar_of j) (good ++ f :: rest) acc w
    = (Raise (FileNotFoundError f),
       set_fs (<[transient_key w j := File (TarGz (acc ++ ms))]> (fs w)) w)
    /\ map fst ms = member_names w j good.
Proof.
  intros Hr (d0 & Hd0) Hgood He Hq Hn.
  induction Hgood as [|g good (qg & d & Hqg & Hng & Hne) _ IH]; intros acc.
  - exists []. split; [|reflexivity]. cbn [app tar_add_all]. unfold tar_add.
    rewrite He, Hq, Hn, app_nil_r.
    rewrite (write_file_at _ _ _ _ Hr); [reflexivity|].
    unfold transient_key in *. rewrite node_at_key, Hd0. discriminate.
  - cbn [app tar_add_all]. unfold tar_add, member_names.
    rewrite filter_cons.
    destruct (String.eqb (abspath w g) (abspath w (tar_of j))) eqn:E.
    + rewrite app_nil_r. destruct (IH acc) as (ms & -> & Hms). exists ms.
      rewrite decide_False by discriminate. split; [reflexivity | exact Hms].
    + rewrite Hqg, Hng.
      destruct (IH (acc ++ [(arcname g, Some d)])) as (ms & -> & Hms).
      exists ((arcname g, Some d) :: ms).
      rewrite decide_True by reflexivity. split.
      * now rewrite <- app_assoc.
      * cbn. now rewrite Hms.
Qed.

(** X9. When a listed path names an entry that is gone (its directory
    exists, the entry does not), [make_tar] raises [FileNotFoundError]
    for that path and cleans nothing up: the archive stays at the
    transient place [{jobId}.tar.gz] in the working directory, holding
    the files listed before the missing one, and nothing else in the
    file system has changed; an archive of an earlier run in the job
    directory is still the old one. *)
Theorem make_tar_missing_file (j : string) (good rest : list string)
  (f : string) (q : list string) (w : World) :
  plain_name j = true ->
  node_at (fs w) (cwd w) = Some Dir ->
  fs w !! transient_key w j <> Some Dir ->
  Forall (fun g => exists q d,
              resolve (fs w) (cwd w) g = inr q
              /\ node_at (fs w) q = Some (File d)
              /\ q <> transient_key w j)
         good ->
  String.eqb (abspath w f) (abspath w (tar_of j)) = false ->
  resolve (fs w) (cwd w) f = inr q ->
  node_at (fs w) q = None ->
  q <> transient_key w j ->
  exists w' ms,
    make_tar (good ++ f :: rest) j w = (Raise (FileNotFoundError f), w')
    /\ cwd w' = cwd w
    /\ fs w' = <[transient_key w j := File (TarGz ms)]> (fs w)
    /\ map fst ms = member_names w j good
    /\ uploads w' = uploads w.
Proof.
  intros Hj Hc Htk Hgood He Hq Hn Hqtk.
  pose proof (tar_name_plain j Hj) as Hname. fold (tar_of j) in Hname.
  destruct (make_tar_start j (good ++ f :: rest) w Hj Hc Htk)
    as (w2 & Hstart & Hcwd2 & Hfs2).
  pose proof (no_upload_make_tar (good ++ f :: rest) j w) as Hu.
  set (tk := transient_key w j) in *.
  set (t2 := delete tk (fs w)) in *.
  set (t3 := <[tk := File (TarGz [])]> t2).
  set (w3 := set_fs t3 w2).
  assert (Hrun : exists ms,
             make_tar_rest (good ++ f :: rest) j w2
             = (Raise (FileNotFoundError f),
                set_fs (<[tk := File (TarGz ms)]> t3) w3)
             /\ map fst ms = member_names w j good).
  { assert (Hktk : tk <> []) by apply key_nonempty.
    assert (S2 : same_dirs (fs w) t2) by now apply same_dirs_delete_file.
    assert (S3 : same_dirs (fs w) t3).
    { eapply same_dirs_trans; [exact S2|].
      apply same_dirs_insert_file; [exact Hktk|].
      unfold t2. now rewrite lookup_delete_eq. }
    assert (Hother : forall k, k <> tk -> node_at t3 k = node_at (fs w) k).
    { intros k Hk. destruct k as [|x k]; [reflexivity|]. cbn [node_at].
      unfold t3, t2. now rewrite lookup_insert_ne, lookup_delete_ne. }
    (* the archive is created *)
    unfold make_tar_rest. unfold bind at 1. unfold tarfile_open_x.
    rewrite Hfs2, Hcwd2.
    rewrite (resolve_name t2 (cwd w) (tar_of j) Hname (proj1 (S2 (cwd w)) Hc)).
    fold (transient_key w j). fold tk.
    assert (Hfree : node_at t2 tk = None).
    { unfold tk, transient_key. rewrite node_at_key.
      fold (transient_key w j). fold tk. unfold t2. apply lookup_delete_eq. }
    rewrite Hfree. fold t3. fold w3.
    (* the files are added, up to the missing one *)
    assert (Hcwd3 : cwd w3 = cwd w) by exact Hcwd2.
    assert (Htk3 : transient_key w3 j = tk).
    { unfold transient_key. now rewrite Hcwd3. }
    assert (Hres3 : resolve (fs w3) (cwd w3) (tar_of j)
                    = inr (transient_key w3 j)).
    { rewrite Htk3, Hcwd3. cbn [fs w3 set_fs].
      apply (resolve_name t3 (cwd w) (tar_of j) Hname
               (proj1 (S3 (cwd w)) Hc)). }
    assert (Hgood3 : Forall (fun g => exists q d,
                              resolve (fs w3) (cwd w3) g = inr q
                              /\ node_at (fs w3) q = Some (File d)
                              /\ q <> transient_key w3 j) good).
    { eapply Forall_impl; [exact Hgood|].
      intros g (qg & d & Hqg & Hng & Hne).
      exists qg, d. rewrite Htk3, Hcwd3. cbn [fs w3 set_fs].
      split; [now apply (resolve_same_dirs (fs w) t3)|]. split; [|exact Hne].
      now rewrite Hother. }
    destruct (tar_add_all_missing j good rest f q w3 Hres3)
      with (acc := @nil member) as (ms & Hadd & Hms).
    { exists (TarGz []). rewrite Htk3. cbn [fs w3 set_fs]. unfold t3.
      apply lookup_insert_eq. }
    { exact Hgood3. }
    { now rewrite !(abspath_cwd w w3) by exact Hcwd3. }
    { rewrite Hcwd3. cbn [fs w3 set_fs].
      now apply (resolve_same_dirs (fs w) t3). }
    { cbn [fs w3 set_fs]. now rewrite Hother. }
    rewrite (abspath_cwd w2 w3) in Hadd by reflexivity.
    unfold bind at 1. rewrite Hadd, Htk3. cbn [app fs w3 set_fs].
    rewrite (member_names_cwd w w3) in Hms by exact Hcwd3.
    exists ms. split; [reflexivity | exact Hms]. }
  destruct Hrun as (ms & Hrun & Hms).
  rewrite Hstart, Hrun in Hu. cbn [snd uploads set_fs w3] in Hu.
  eexists _, ms. rewrite Hstart. split; [exact Hrun|].
  cbn [cwd fs uploads set_fs w3].
  split; [exact Hcwd2|]. split; [|split; [exact Hms | exact Hu]].
  unfold t3, t2. now rewrite insert_insert_eq, insert_delete_eq.
Qed.

Lemma make_tar_missing_file_witness :
  exists w' ms,
    make_tar ["J1/a.fits"; "J1/gone.fits"; "J1/b.tra"] "J1"
      (set_cwd ["tmp"; "out"] sample_world)
    = (Raise (FileNotFoundError "J1/gone.fits"), w')
    /\ fs w' = <[ ["tmp"; "out"; "J1.tar.gz"] := File (TarGz ms) ]> sample_tree
    /\ map fst ms = ["J1/a.fits"].
Proof.
  destruct (make_tar_missing_file "J1" ["J1/a.fits"] ["J1/b.tra"]
              "J1/gone.fits" ["tmp"; "out"; "J1"; "gone.fits"]
              (set_cwd ["tmp"; "out"] sample_world))
    as (w' & ms & H1 & _ & H2 & H3 & _).
  - reflexivity.
  - vm_compute. reflexivity.
  - vm_compute. discriminate.
  - repeat constructor.
    exists ["tmp"; "out"; "J1"; "a.fits"], (Raw "AAAA").
    split; [vm_compute; reflexivity|].
    split; [vm_compute; reflexivity | discriminate].
  - vm_compute. reflexivity.
  - vm_compute. reflexivity.
  - vm_compute. reflexivity.
  - discriminate.
  - exists w', ms. split; [exact H1|]. split; [exact H2 | exact H3].
Defined.

End PackagingFacts.

(** ** The logger: verbosity gates, open lines, reports *)

Module LogToolsFacts.

Import Log LogTools LogSpec LogToolsSpec.

(** What [eformat] does for a call without [sep]: the message is the
    joined arguments through the filters, whatever [end] was passed. *)
Lemma eformat_effect (self : CaldpLogger) (o : Sink) args keys :
  k_sep keys = None ->
  eformat self o args keys
  = (if eol_pending self then fst (write self o [] no_keys) else self,
     if eol_pending self then snd (write self o [] no_keys) else o,
     message self args).
Proof.
  intros Hs. unfold eformat, message, format. rewrite Hs.
  destruct (eol_pending self); cbn [write fst snd filters set_eol_pending
    k_end k_sep default from_option]; now rewrite LogFacts.append_empty.
Qed.

Lemma write_keeps (self : CaldpLogger) (o : Sink) args keys :
  filters (fst (write self o args keys)) = filters self
  /\ errors (fst (write self o args keys)) = errors self
  /\ warnings (fst (write self o args keys)) = warnings self
  /\ infos (fst (write self o args keys)) = infos self
  /\ debugs (fst (write self o args keys)) = debugs self
  /\ verbose_level (fst (write self o args keys)) = verbose_level self
  /\ records (snd (write self o args keys)) = records o.
Proof. now repeat split. Qed.

Lemma log_with_effect lv (self : CaldpLogger) (o : Sink) args keys :
  k_sep keys = None ->
  records (snd (log_with lv self o args keys))
  = records o ++ [(lv, message self args)]
  /\ filters (fst (log_with lv self o args keys)) = filters self
  /\ errors (fst (log_with lv self o args keys)) = errors self
  /\ warnings (fst (log_with lv self o args keys)) = warnings self
  /\ infos (fst (log_with lv self o args keys)) = infos self
  /\ debugs (fst (log_with lv self o args keys)) = debugs self
  /\ verbose_level (fst (log_with lv self o args keys)) = verbose_level self.
Proof.
  intros Hs. unfold log_with. rewrite (eformat_effect _ _ _ _ Hs).
  destruct (eol_pending self); cbn; now repeat split.
Qed.

Lemma debug_effect (self : CaldpLogger) (o : Sink) args keys :
  k_sep keys = None ->
  records (snd (debug self o args keys))
  = records o ++ [(DEBUG, message self args)]
  /\ status (fst (debug self o args keys)) = status self
  /\ debugs (fst (debug self o args keys)) = debugs self + 1.
Proof.
  intros Hs. unfold debug, status.
  match goal with |- context [log_with DEBUG ?s o args keys] =>
    destruct (log_with_effect DEBUG s o args keys Hs)
      as (Hr & _ & He & Hw & Hi & Hd & _) end.
  rewrite Hr, He, Hw, Hi, Hd. now repeat split.
Qed.

Lemma warn_effect (self : CaldpLogger) (o : Sink) args keys :
  k_sep keys = None ->
  records (snd (warn self o args keys))
  = (if verbose_level self <=? -2 then records o
     else records o ++ [(WARNING, message self args)])
  /\ warnings (fst (warn self o args keys)) = warnings self + 1.
Proof.
  intros Hs. unfold warn. cbn [verbose_level set_counters].
  rewrite Z.gtb_ltb, Z.ltb_antisym.
  destruct (verbose_level self <=? -2); cbn [negb]; [now split|].
  match goal with |- context [log_with WARNING ?s o args keys] =>
    destruct (log_with_effect WARNING s o args keys Hs)
      as (Hr & _ & _ & Hw & _) end.
  rewrite Hr, Hw. now split.
Qed.

(** X10. [debug] is not gated by the verbosity level: its record always
    reaches the sink.  [verbose] and [verbose_warning] act exactly when
    the level of the logger is at least the [verbosity] of the call (50
    when none is passed); [verbose] then counts and emits a DEBUG record
    and leaves [status()] alone; [verbose_warning] then counts a
    warning, and emits it unless the level is -2 or below.  The message
    is the joined arguments whatever [end] was passed. *)
Theorem verbosity_gates (self : CaldpLogger) (o : Sink) (args : list pyval)
  (end_ : option string) (verbosity : option Z) :
  let keys := keys_of end_ verbosity in
  let v := default DEFAULT_VERBOSITY_LEVEL verbosity in
  records (snd (debug self o args keys))
  = records o ++ [(DEBUG, message self args)]
  /\ records (snd (verbose self o args keys))
     = (if verbose_level self <? v then records o
        else records o ++ [(DEBUG, message self args)])
  /\ status (fst (verbose self o args keys)) = status self
  /\ debugs (fst (verbose self o args keys))
     = (if verbose_level self <? v then debugs self else debugs self + 1)
  /\ records (snd (verbose_warning self o args keys))
     = (if (verbose_level self <? v) || (verbose_level self <=? -2)
        then records o
        else records o ++ [(WARNING, message self args)])
  /\ warnings (fst (verbose_warning self o args keys))
     = (if verbose_level self <? v then warnings self
        else warnings self + 1).
Proof.
  intros keys v.
  assert (Hs : k_sep keys = None) by reflexivity.
  destruct (debug_effect self o args keys Hs) as (Hd1 & Hd2 & Hd3).
  destruct (warn_effect self o args keys Hs) as (Hw1 & Hw2).
  unfold verbose, verbose_warning, should_output.
  change (default DEFAULT_VERBOSITY_LEVEL (k_verbosity keys)) with v.
  destruct (verbose_level self <? v); cbn [negb orb fst snd];
    repeat split; assumption.
Qed.

Lemma set_verbose_level_back (self : CaldpLogger) (z : Z) :
  set_verbose_level (verbose_level self) (set_verbose_level z self) = self.
Proof. now destruct self. Qed.

Lemma set_verbose_int (self : CaldpLogger) (z : Z) :
  set_verbose self (LInt z)
  = if (-3 <=? z) && (z <=? 100)
    then Ok (set_verbose_level z self, verbose_level self)
    else Raise out_of_range.
Proof. reflexivity. Qed.

Lemma set_verbose_back (self self1 : CaldpLogger) (level : vlevel)
  (old : Z) :
  set_verbose self level = Ok (self1, old) ->
  old = get_verbose self
  /\ set_verbose self1 (LInt old)
     = if (-3 <=? old) && (old <=? 100)
       then Ok (self, get_verbose self1) else Raise out_of_range.
Proof.
  unfold set_verbose at 1. intros H.
  destruct ((-3 <=? vlevel_num level) && (vlevel_num level <=? 100));
    [|discriminate].
  injection H as <- <-. split; [reflexivity|].
  rewrite set_verbose_int.
  destruct ((-3 <=? verbose_level self) && (verbose_level self <=? 100));
    [|reflexivity].
  now rewrite set_verbose_level_back.
Qed.

Lemma in_range_spec (z : Z) :
  (-3 <=? z) && (z <=? 100) = true <-> -3 <= z <= 100.
Proof. rewrite andb_true_iff, !Z.leb_le. tauto. Qed.

(** X11. A level changed by [set_verbose] is put back by passing the
    returned value to [set_verbose] again: when that value lies between
    -3 and 100 the logger is exactly as it was before the first call,
    and the second call returns the level that the first one had set.
    When the value lies outside, the second call raises
    [AssertionError]. *)
Theorem set_verbose_restore (self self1 : CaldpLogger) (level : vlevel)
  (old : Z) :
  set_verbose self level = Ok (self1, old) ->
  old = get_verbose self
  /\ (-3 <= old <= 100 ->
      set_verbose self1 (LInt old) = Ok (self, get_verbose self1))
  /\ (~ -3 <= old <= 100 ->
      set_verbose self1 (LInt old) = Raise out_of_range).
Proof.
  intros H. apply set_verbose_back in H as (Ho & H).
  split; [exact Ho|]. rewrite H. split; intros Hr.
  - apply in_range_spec in Hr. now rewrite Hr.
  - destruct ((-3 <=? old) && (old <=? 100)) eqn:E; [|reflexivity].
    apply in_range_spec in E. contradiction.
Qed.

Lemma set_verbose_restore_witness :
  set_verbose (fresh_logger 50) (LInt 0) = Ok (fresh_logger 0, 50).
Proof.
  destruct (set_verbose_restore (fresh_logger 0) (fresh_logger 50)
              (LBool true) 0) as (_ & H & _);
    [reflexivity|].
  apply H. lia.
Defined.

(** X12. The constructor takes any integer that [CALDP_VERBOSITY] holds,
    also one outside -3..100, which [set_verbose] would refuse.  With
    such a level in place every [set_verbose] with a level in range,
    or with [True] or [False], succeeds and returns the level from the
    environment; putting that level back with the returned value then
    raises [AssertionError]. *)
Theorem unchecked_initial_level (g : Globals) (v : string) (z : Z)
  (o : Sink) :
  PyStr.int_of_str v = Some z ->
  ~ -3 <= z <= 100 ->
  exists lg,
    init g (Some v) o = (Ok lg, g, o)
    /\ get_verbose lg = z
    /\ (forall level, -3 <= vlevel_num level <= 100 ->
          exists lg',
            set_verbose lg level = Ok (lg', z)
            /\ set_verbose lg' (LInt z) = Raise out_of_range).
Proof.
  intros Hv Hz. exists (fresh_logger z). unfold init. rewrite Hv.
  split; [reflexivity|]. split; [reflexivity|].
  intros level Hl.
  assert (Hset : exists lg', set_verbose (fresh_logger z) level = Ok (lg', z)).
  { unfold set_verbose. apply in_range_spec in Hl. rewrite Hl.
    now eexists. }
  destruct Hset as (lg' & Hset). exists lg'. split; [exact Hset|].
  apply set_verbose_back in Hset as (_ & ->).
  destruct ((-3 <=? z) && (z <=? 100)) eqn:E; [|reflexivity].
  apply in_range_spec in E. contradiction.
Qed.

Lemma unchecked_initial_level_witness :
  exists lg,
    init no_globals (Some "200") empty_sink = (Ok lg, no_globals, empty_sink)
    /\ get_verbose lg = 200
    /\ exists lg',
        set_verbose lg (LBool true) = Ok (lg', 200)
        /\ set_verbose lg' (LInt 200) = Raise out_of_range.
Proof.
  destruct (unchecked_initial_level no_globals "200" 200 empty_sink)
    as (lg & H1 & H2 & H3); [reflexivity | lia |].
  exists lg. split; [exact H1|]. split; [exact H2|].
  apply (H3 (LBool true)). simpl. lia.
Defined.

Lemma message_filters (a b : CaldpLogger) args :
  filters a = filters b -> message a args = message b args.
Proof. unfold message. now intros ->. Qed.

Lemma info_effect (self : CaldpLogger) (o : Sink) args keys :
  k_sep keys = None ->
  records (snd (info self o args keys))
  = (if verbose_level self >? -1
     then records o ++ [(INFO, message self args)] else records o)
  /\ filters (fst (info self o args keys)) = filters self
  /\ errors (fst (info self o args keys)) = errors self
  /\ warnings (fst (info self o args keys)) = warnings self
  /\ infos (fst (info self o args keys)) = infos self + 1
  /\ verbose_level (fst (info self o args keys)) = verbose_level self.
Proof.
  intros Hs. unfold info. cbn [verbose_level set_counters].
  destruct (verbose_level self >? -1); [|now repeat split].
  match goal with |- context [log_with INFO ?s o args keys] =>
    destruct (log_with_effect INFO s o args keys Hs)
      as (Hr & Hf & He & Hw & Hi & _ & Hv) end.
  rewrite Hr, Hf, He, Hw, Hi, Hv. now repeat split.
Qed.

(** X13. [standard_status] reports the three counts as they were before
    the call, in three INFO records [N errors], [N warnings], [N infos],
    and itself adds three to the count of infos: afterwards [status()]
    is the old one with infos + 3.  At a level of -1 or below nothing is
    emitted but the three infos are still counted. *)
Theorem standard_status_report (self : CaldpLogger) (o : Sink) :
  status (fst (standard_status self o))
  = (errors self, warnings self, infos self + 3)
  /\ records (snd (standard_status self o))
     = (if verbose_level self >? -1
        then records o
             ++ [(INFO, message self [VInt (errors self); VStr "errors"]);
                 (INFO, message self [VInt (warnings self); VStr "warnings"]);
                 (INFO, message self [VInt (infos self); VStr "infos"])]
        else records o).
Proof.
  unfold standard_status, status.
  set (a1 := [VInt (errors self); VStr "errors"]).
  set (a2 := [VInt (warnings self); VStr "warnings"]).
  set (a3 := [VInt (infos self); VStr "infos"]).
  destruct (info_effect self o a1 no_keys eq_refl)
    as (R1 & F1 & E1 & W1 & I1 & V1).
  destruct (info self o a1 no_keys) as [s1 o1]. cbn [fst snd] in *.
  destruct (info_effect s1 o1 a2 no_keys eq_refl)
    as (R2 & F2 & E2 & W2 & I2 & V2).
  destruct (info s1 o1 a2 no_keys) as [s2 o2]. cbn [fst snd] in *.
  destruct (info_effect s2 o2 a3 no_keys eq_refl)
    as (R3 & F3 & E3 & W3 & I3 & V3).
  split.
  - rewrite E3, W3, I3, E2, W2, I2, E1, W1, I1. f_equal. lia.
  - rewrite R3, R2, R1, V2, V1.
    rewrite (message_filters s2 self) by congruence.
    rewrite (message_filters s1 self) by congruence.
    destruct (verbose_level self >? -1); [|reflexivity].
    now rewrite <- !app_assoc.
Qed.

Lemma rev_app_spec (a acc : string) :
  String.rev_app a acc = String.rev a +:+ acc.
Proof.
  revert acc. induction a as [|x a IH]; intros acc; [reflexivity|].
  unfold String.rev. cbn [String.rev_app].
  rewrite (IH (String x acc)), (IH (String x EmptyString)).
  now rewrite StrFacts.append_assoc.
Qed.

Lemma rev_app_append (a b acc : string) :
  String.rev_app (a +:+ b) acc = String.rev_app b (String.rev_app a acc).
Proof.
  revert acc. induction a as [|x a IH]; intros acc; [reflexivity|].
  rewrite StrFacts.append_cons. cbn [String.rev_app]. apply IH.
Qed.

Lemma rev_append (a b : string) :
  String.rev (a +:+ b) = String.rev b +:+ String.rev a.
Proof.
  unfold String.rev at 1. rewrite rev_app_append. apply rev_app_spec.
Qed.

Lemma endswith_append (a b : string) :
  PyStr.endswith b PyStr.nl = true ->
  PyStr.endswith (a +:+ b) PyStr.nl = true.
Proof.
  unfold PyStr.endswith. rewrite rev_append.
  change (String.rev PyStr.nl) with PyStr.nl.
  destruct (String.rev b) as [|c r]; [discriminate|].
  rewrite StrFacts.append_cons. unfold PyStr.nl. cbn [String.prefix].
  destruct (ascii_dec PyStr.LF c); [|discriminate].
  intros _. now destruct (r +:+ String.rev a).
Qed.

(** [write] leaves the flag right whatever it was before. *)
Lemma write_tracked (self : CaldpLogger) (o : Sink) args keys :
  line_tracked (write self o args keys).
Proof.
  unfold line_tracked, write. cbn [fst snd eol_pending set_eol_pending
    stdout stdout_write].
  intros H. apply negb_false_iff in H. right. now apply endswith_append.
Qed.

Lemma log_with_tracked lv (self : CaldpLogger) (o : Sink) args keys :
  line_tracked (self, o) -> line_tracked (log_with lv self o args keys).
Proof.
  intros H. unfold log_with, eformat.
  destruct (eol_pending self) eqn:E.
  - pose proof (write_tracked self o [] no_keys) as Hw.
    destruct (write self o [] no_keys) as [s1 o1]. exact Hw.
  - exact H.
Qed.

Lemma counted_tracked (self : CaldpLogger) (o : Sink) e w i d :
  line_tracked (self, o) -> line_tracked (set_counters e w i d self, o).
Proof. intros H. exact H. Qed.

Lemma info_tracked (self : CaldpLogger) (o : Sink) args keys :
  line_tracked (self, o) -> line_tracked (info self o args keys).
Proof.
  intros H. unfold info.
  match goal with |- context [if ?c then _ else _] => destruct c end;
    [apply log_with_tracked|]; now apply counted_tracked.
Qed.

Lemma warn_tracked (self : CaldpLogger) (o : Sink) args keys :
  line_tracked (self, o) -> line_tracked (warn self o args keys).
Proof.
  intros H. unfold warn.
  match goal with |- context [if ?c then _ else _] => destruct c end;
    [apply log_with_tracked|]; now apply counted_tracked.
Qed.

Lemma error_tracked (self : CaldpLogger) (o : Sink) args keys :
  line_tracked (self, o) -> line_tracked (error self o args keys).
Proof.
  intros H. unfold error.
  match goal with |- context [if ?c then _ else _] => destruct c end;
    [apply log_with_tracked|]; now apply counted_tracked.
Qed.

Lemma debug_tracked (self : CaldpLogger) (o : Sink) args keys :
  line_tracked (self, o) -> line_tracked (debug self o args keys).
Proof.
  intros H. unfold debug. apply log_with_tracked. now apply counted_tracked.
Qed.

Lemma pair_eta {A B} (p : A * B) : p = (fst p, snd p).
Proof. now destruct p. Qed.

Lemma standard_status_tracked (self : CaldpLogger) (o : Sink) :
  line_tracked (self, o) -> line_tracked (standard_status self o).
Proof.
  intros H. unfold standard_status, status.
  set (a1 := [VInt (errors self); VStr "errors"]).
  set (a2 := [VInt (warnings self); VStr "warnings"]).
  set (a3 := [VInt (infos self); VStr "infos"]).
  pose proof (info_tracked self o a1 no_keys H) as H1.
  destruct (info self o a1 no_keys) as [s1 o1].
  pose proof (info_tracked s1 o1 a2 no_keys H1) as H2.
  destruct (info s1 o1 a2 no_keys) as [s2 o2].
  now apply info_tracked.
Qed.

Lemma run_op_tracked (st : CaldpLogger * Sink) (c : op) :
  line_tracked st -> line_tracked (run_op st c).
Proof.
  intros H. rewrite (pair_eta st) in H.
  destruct c; cbn [run_op].
  - apply write_tracked.
  - now apply info_tracked.
  - now apply warn_tracked.
  - now apply error_tracked.
  - now apply debug_tracked.
  - unfold verbose. destruct (should_output (fst st) keys);
      [now apply debug_tracked | exact H].
  - unfold verbose_warning. destruct (should_output (fst st) keys);
      [now apply warn_tracked | exact H].
  - now apply standard_status_tracked.
  - unfold divider. destruct (negb (name =? "")%string);
      now apply info_tracked.
  - exact H.
  - exact H.
Qed.

(** X14. The flag [eol_pending] follows standard output through every
    call of the module: if it is down only when standard output holds
    whole lines, then the same is true after any sequence of [write],
    [info], [warn], [error], [debug], [verbose], [verbose_warning],
    [standard_status], [divider], [increment_errors] and [reset],
    whatever the arguments, the filters and the verbosity level. *)
Theorem open_line_tracked (st : CaldpLogger * Sink) (cs : list op) :
  line_tracked st -> line_tracked (run_ops st cs).
Proof.
  revert st. unfold run_ops.
  induction cs as [|c cs IH]; intros st H; [exact H|].
  cbn [fold_left]. apply IH. now apply run_op_tracked.
Qed.

Lemma open_line_tracked_witness :
  line_tracked
    (run_ops (fresh_logger 0, empty_sink)
       [OWrite [VStr "working"] (keys_of (Some "...") None);
        OInfo [VStr "done"] no_keys; OStandardStatus]).
Proof.
  apply open_line_tracked. intros _. left. reflexivity.
Defined.

Lemma length_repeat_string (s : string) (k : nat) :
  String.length (repeat_string s k) = (k * String.length s)%nat.
Proof.
  induction k as [|k IH]; [reflexivity|].
  cbn [repeat_string]. rewrite FileOpsFacts.length_append, IH. lia.
Qed.

Lemma len_mul (s : string) (k : Z) :
  0 <= k -> len (mul s k) = k * len s.
Proof.
  intros Hk. unfold len, mul. rewrite length_repeat_string. lia.
Qed.

Lemma mul_nothing (s : string) (k : Z) : k <= 0 -> mul s k = EmptyString.
Proof.
  intros Hk. unfold mul. now replace (Z.to_nat k) with 0%nat by lia.
Qed.

Lemma len_append (a b : string) : len (a +:+ b) = len a + len b.
Proof. unfold len. rewrite FileOpsFacts.length_append. lia. Qed.

Lemma message_plain (self : CaldpLogger) args :
  filters self = [] -> message self args = PyStr.join " " (map str args).
Proof. unfold message. now intros ->. Qed.

(** X16. With no filters and a level that lets [info] through, [divider]
    emits one INFO record.  For a name that fits ([len(name) + 2 <= n])
    and a fill of one character the text is the name between two equal
    runs of the fill, a space on each side of the name, and it is [n]
    wide when [n - len(name)] is even and [n - 1] wide when it is odd.
    For a name that does not fit the text is the name between two
    spaces, wider than [n].  Without a name the text is the fill
    repeated [n] times. *)
Theorem divider_line (name char : string) (n : Z) (self : CaldpLogger)
  (o : Sink) :
  filters self = [] ->
  verbose_level self > -1 ->
  String.length char = 1%nat ->
  let out := records (snd (divider name char n info no_keys self o)) in
  let n2 := (n - len name - 2) / 2 in
  (name <> EmptyString -> len name + 2 <= n ->
   exists text,
     out = records o ++ [(INFO, text)]
     /\ text = mul char n2 +:+ " " +:+ name +:+ " " +:+ mul char n2
     /\ len text = n - (n - len name) mod 2)
  /\ (name <> EmptyString -> n < len name + 2 ->
      out = records o ++ [(INFO, " " +:+ name +:+ " ")])
  /\ (name = EmptyString -> 0 <= n ->
      exists text,
        out = records o ++ [(INFO, text)]
        /\ text = mul char n /\ len text = n).
Proof.
  intros Hf Hv Hc out n2.
  assert (Hl : len char = 1) by (unfold len; lia).
  apply Z.gtb_gt in Hv.
  assert (R : forall args,
             records (snd (info self o args no_keys))
             = records o ++ [(INFO, PyStr.join " " (map str args))]).
  { intros args.
    destruct (info_effect self o args no_keys eq_refl) as (-> & _).
    now rewrite Hv, message_plain. }
  unfold out, divider. repeat split.
  - intros Hn Hfit. apply String.eqb_neq in Hn. rewrite Hn. cbn [negb].
    fold n2. rewrite R. eexists. split; [reflexivity|].
    split; [reflexivity|].
    cbn [map str PyStr.join String.concat].
    rewrite !len_append, len_mul by (unfold n2; Z.div_mod_to_equations; lia).
    rewrite Hl. change (len " ") with 1.
    unfold n2. Z.div_mod_to_equations. lia.
  - intros Hn Hfit. apply String.eqb_neq in Hn. rewrite Hn. cbn [negb].
    fold n2. rewrite R.
    rewrite mul_nothing by (unfold n2; Z.div_mod_to_equations; lia).
    cbn [map str PyStr.join String.concat].
    change (EmptyString +:+ " " +:+ name +:+ " " +:+ EmptyString)
      with (" " +:+ name +:+ " " +:+ EmptyString).
    now rewrite LogFacts.append_empty.
  - intros -> Hn. cbn [String.eqb negb]. rewrite R. eexists.
    split; [reflexivity|]. split; [reflexivity|].
    cbn [map str PyStr.join String.concat]. rewrite len_mul by lia. lia.
Qed.

Lemma divider_line_witness :
  records (snd (divider "setup" "-" 20 info no_keys (fresh_logger 0)
                  empty_sink))
  = [(INFO, "------ setup ------")].
Proof.
  destruct (divider_line "setup" "-" 20 (fresh_logger 0) empty_sink)
    as (H & _); [reflexivity | cbn; lia | reflexivity |].
  destruct H as (text & -> & -> & _);
    [discriminate | unfold len; simpl; lia |].
  reflexivity.
Defined.

End LogToolsFacts.

(** ** The logger: handlers and streams *)

Module LogHandlersFacts.

Import Log LogHandlers LogToolsSpec LogHandlersSpec.

Lemma is_in_spec (x : nat) (l : list nat) : is_in x l = true <-> x ∈ l.
Proof.
  unfold is_in. rewrite existsb_exists. split.
  - intros (y & Hy & E). apply Nat.eqb_eq in E. subst y.
    now apply list_elem_of_In.
  - intros H. exists x. split; [now apply list_elem_of_In | apply Nat.eqb_refl].
Qed.

Lemma is_in_false (x : nat) (l : list nat) : x ∉ l -> is_in x l = false.
Proof.
  intros H. destruct (is_in x l) eqn:E; [|reflexivity].
  apply is_in_spec in E. contradiction.
Qed.

Lemma list_remove_sub (x : nat) (l r : list nat) :
  list_remove x l = Some r -> forall y, y ∈ r -> y ∈ l.
Proof.
  revert r. induction l as [|a l IH]; intros r H y Hy; [discriminate|].
  cbn [list_remove] in H. destruct (Nat.eqb a x).
  - injection H as <-. now right.
  - destruct (list_remove x l) as [r'|]; [|discriminate].
    injection H as <-. apply elem_of_cons in Hy as [->|Hy]; [left|right].
    now apply (IH r').
Qed.

Lemma list_remove_nodup (x : nat) (l r : list nat) :
  NoDup l -> list_remove x l = Some r -> NoDup r /\ x ∉ r.
Proof.
  revert r. induction l as [|a l IH]; intros r Hn H; [discriminate|].
  apply NoDup_cons in Hn as [Ha Hn]. cbn [list_remove] in H.
  destruct (Nat.eqb a x) eqn:E.
  - injection H as <-. apply Nat.eqb_eq in E. subst a. now split.
  - destruct (list_remove x l) as [r'|] eqn:Er; [|discriminate].
    injection H as <-. destruct (IH r' Hn eq_refl) as [Hr Hx].
    apply Nat.eqb_neq in E. split.
    + apply NoDup_cons. split; [|exact Hr].
      intros Hin. apply Ha. now apply (list_remove_sub x l r').
    + intros Hin. apply elem_of_cons in Hin as [->|Hin]; [now apply E|].
      contradiction.
Qed.

Lemma list_remove_none (x : nat) (l : list nat) :
  x ∉ l -> list_remove x l = None.
Proof.
  induction l as [|a l IH]; intros H; [reflexivity|].
  cbn [list_remove]. apply not_elem_of_cons in H as [Hx Hl].
  destruct (Nat.eqb a x) eqn:E; [apply Nat.eqb_eq in E; congruence|].
  now rewrite IH.
Qed.

(** The handlers of a wired logger are objects that exist. *)
Lemma wired_bound (self : Wiring) (rt : Runtime) (hdlr : nat) :
  wired self rt -> hdlr ∈ handlers self -> (hdlr < length (objs rt))%nat.
Proof.
  intros [_ _ Ho] Hin. rewrite Forall_forall in Ho.
  destruct (Ho hdlr Hin) as (h & Hh & _). now apply lookup_lt_Some in Hh.
Qed.

Lemma add_stream_handler_effect (self : Wiring) (s : stream) (lv : Z)
  (rt : Runtime) :
  wired self rt ->
  exists self' rt',
    add_stream_handler self s lv rt = (self', rt', length (objs rt))
    /\ handlers self' = handlers self ++ [length (objs rt)]
    /\ objs rt' = objs rt ++ [handler_on s lv (formatter self)]
    /\ trace rt' = trace rt
    /\ formatter self' = formatter self /\ console self' = console self
    /\ name self' = name self /\ level self' = level self
    /\ log_file self' = log_file self
    /\ wired self' rt'.
Proof.
  intros Hw. pose proof Hw as [(lg & Hlg & Hh & Hp & Hl) Hn Ho].
  unfold add_stream_handler. eexists _, _. split; [reflexivity|].
  cbn [handlers set_handlers objs addHandler set_loggers set_objs trace
       formatter console name level log_file].
  repeat (split; [reflexivity|]).
  assert (Hfresh : length (objs rt) ∉ handlers self).
  { intros Hin. apply (wired_bound _ _ _ Hw) in Hin. lia. }
  constructor; cbn [handlers set_handlers objs addHandler set_loggers
                    set_objs name formatter level loggers].
  - rewrite lookup_alter_eq, Hlg. cbn [fmap option_fmap option_map].
    rewrite is_in_false by now rewrite Hh.
    eexists. split; [reflexivity|]. cbn. now rewrite Hh.
  - apply NoDup_app. split; [exact Hn|]. split; [|apply NoDup_singleton].
    intros x Hx Hx'. apply list_elem_of_singleton in Hx'. now subst x.
  - apply Forall_app. split.
    + eapply Forall_impl; [exact Ho|]. intros x (h & Hx & Hf).
      exists h. split; [|exact Hf]. now apply lookup_app_l_Some.
    + constructor; [|constructor].
      exists (handler_on s lv (formatter self)). split; [|reflexivity].
      now rewrite lookup_app_r, Nat.sub_diag by lia.
Qed.

Lemma remove_stream_handler_effect (self : Wiring) (hdlr : nat)
  (rt : Runtime) (l : list nat) :
  wired self rt ->
  list_remove hdlr (handlers self) = Some l ->
  exists self' rt',
    remove_stream_handler self hdlr rt = (Ok tt, self', rt')
    /\ handlers self' = l
    /\ objs rt' = objs rt /\ trace rt' = trace rt
    /\ formatter self' = formatter self /\ console self' = console self
    /\ name self' = name self /\ level self' = level self
    /\ log_file self' = log_file self
    /\ wired self' rt'.
Proof.
  intros [(lg & Hlg & Hh & Hp & Hl) Hn Ho] Hr.
  unfold remove_stream_handler. rewrite Hr. eexists _, _.
  split; [reflexivity|].
  cbn [handlers set_handlers objs removeHandler set_loggers trace formatter
       console name level log_file].
  repeat (split; [reflexivity|]).
  constructor; cbn [handlers set_handlers objs removeHandler set_loggers
                    name formatter level loggers].
  - rewrite lookup_alter_eq, Hlg. cbn [fmap option_fmap option_map].
    rewrite Hh, Hr. eexists. split; [reflexivity|]. now cbn.
  - now destruct (list_remove_nodup _ _ _ Hn Hr).
  - rewrite Forall_forall in *. intros x Hx. apply Ho.
    now apply (list_remove_sub hdlr _ l).
Qed.

Lemma remove_stream_handler_absent (self : Wiring) (hdlr : nat)
  (rt : Runtime) :
  hdlr ∉ handlers self ->
  remove_stream_handler self hdlr rt = (Raise ValueError, self, rt).
Proof.
  intros H. unfold remove_stream_handler. now rewrite list_remove_none.
Qed.

Lemma setFormatter_lookup (f : Formatter) (os : list Handler) (a i : nat) :
  setFormatter f os a !! i
  = if Nat.eqb i a then reformatted f <$> os !! i else os !! i.
Proof.
  unfold setFormatter. destruct (Nat.eqb i a) eqn:E.
  - apply Nat.eqb_eq in E. subst i. destruct (os !! a) as [h|] eqn:Ha.
    + rewrite list_lookup_insert_eq by now apply lookup_lt_Some in Ha.
      reflexivity.
    + now rewrite Ha.
  - apply Nat.eqb_neq in E. destruct (os !! a) as [h|]; [|reflexivity].
    now rewrite list_lookup_insert_ne.
Qed.

Lemma reformatted_twice (f : Formatter) (x : option Handler) :
  reformatted f <$> (reformatted f <$> x) = reformatted f <$> x.
Proof. now destruct x. Qed.

Lemma formatters_set (f : Formatter) (l : list nat) :
  forall (os : list Handler) (i : nat),
    fold_left (setFormatter f) l os !! i
    = if is_in i l then reformatted f <$> os !! i else os !! i.
Proof.
  induction l as [|a l IH]; intros os i; [reflexivity|].
  cbn [fold_left]. rewrite IH, setFormatter_lookup.
  unfold is_in. cbn [existsb]. fold (is_in i l).
  destruct (Nat.eqb i a), (is_in i l); cbn [orb]; try reflexivity.
  apply reformatted_twice.
Qed.

Lemma set_formatter_effect (self : Wiring) (enable_time : bool)
  (rt : Runtime) :
  wired self rt ->
  exists self' rt',
    set_formatter self enable_time rt = (self', rt')
    /\ handlers self' = handlers self
    /\ formatter self' = Levelled enable_time
    /\ (forall i, objs rt' !! i
                  = if is_in i (handlers self)
                    then reformatted (Levelled enable_time) <$> objs rt !! i
                    else objs rt !! i)
    /\ trace rt' = trace rt
    /\ console self' = console self
    /\ name self' = name self /\ level self' = level self
    /\ log_file self' = log_file self
    /\ wired self' rt'.
Proof.
  intros [Hlg Hn Ho]. unfold set_formatter. eexists _, _.
  split; [reflexivity|].
  cbn [handlers set_formatter_attr formatter objs set_objs trace console
       name level log_file].
  split; [reflexivity|]. split; [reflexivity|].
  split; [intros i; apply formatters_set|].
  repeat (split; [reflexivity|]).
  constructor; cbn [handlers set_formatter_attr formatter objs set_objs
                    name level loggers].
  - exact Hlg.
  - exact Hn.
  - rewrite Forall_forall in *. intros x Hx.
    destruct (Ho x Hx) as (h & Hh & _).
    exists (reformatted (Levelled enable_time) h).
    rewrite formatters_set, (proj2 (is_in_spec x _) Hx), Hh.
    now split.
Qed.

Lemma add_console_handler_wired (self : Wiring) (s : stream) (rt : Runtime) :
  wired self rt ->
  wired (fst (add_console_handler self s rt))
        (snd (add_console_handler self s rt)).
Proof.
  intros Hw. unfold add_console_handler.
  destruct (console self); [exact Hw|].
  destruct (add_stream_handler_effect self s (level self) rt Hw)
    as (self1 & rt1 & -> & _ & _ & _ & _ & _ & _ & _ & _ & [H1 H2 H3]).
  cbn [fst snd]. now constructor.
Qed.

Lemma remove_stream_handler_wired (self : Wiring) (hdlr : nat)
  (rt : Runtime) :
  wired self rt ->
  wired (snd (fst (remove_stream_handler self hdlr rt)))
        (snd (remove_stream_handler self hdlr rt)).
Proof.
  intros Hw. destruct (list_remove hdlr (handlers self)) as [l|] eqn:E.
  - destruct (remove_stream_handler_effect self hdlr rt l Hw E)
      as (self1 & rt1 & -> & _ & _ & _ & _ & _ & _ & _ & _ & H).
    exact H.
  - unfold remove_stream_handler. rewrite E. exact Hw.
Qed.

Lemma remove_console_handler_wired (self : Wiring) (rt : Runtime) :
  wired self rt ->
  wired (snd (fst (remove_console_handler self rt)))
        (snd (remove_console_handler self rt)).
Proof.
  intros Hw. unfold remove_console_handler.
  destruct (console self) as [hdlr|]; [|exact Hw].
  pose proof (remove_stream_handler_wired self hdlr rt Hw) as H.
  destruct (remove_stream_handler self hdlr rt) as [[[[]|e] self1] rt1];
    cbn [fst snd] in *; [|exact H].
  destruct H as [H1 H2 H3]. now constructor.
Qed.

Lemma set_formatter_wired (self : Wiring) (enable_time : bool)
  (rt : Runtime) :
  wired self rt ->
  wired (fst (set_formatter self enable_time rt))
        (snd (set_formatter self enable_time rt)).
Proof.
  intros Hw.
  destruct (set_formatter_effect self enable_time rt Hw)
    as (self1 & rt1 & -> & _ & _ & _ & _ & _ & _ & _ & _ & H).
  exact H.
Qed.

Lemma set_test_mode_wired (self : Wiring) (rt : Runtime) :
  wired self rt ->
  wired (snd (fst (set_test_mode self rt))) (snd (set_test_mode self rt)).
Proof.
  intros Hw. unfold set_test_mode.
  pose proof (remove_console_handler_wired self rt Hw) as H.
  destruct (remove_console_handler self rt) as [[[[]|e] self1] rt1];
    cbn [fst snd] in *; [|exact H].
  pose proof (add_console_handler_wired self1 Stdout rt1 H) as H2.
  destruct (add_console_handler self1 Stdout rt1) as [self2 rt2].
  cbn [fst snd] in H2. unfold set_log_time.
  pose proof (set_formatter_wired self2 false rt2 H2) as H3.
  destruct (set_formatter self2 false rt2) as [self3 rt3]. exact H3.
Qed.

Lemma run_hop_wired (st : Wiring * Runtime) (c : hop) :
  wired (fst st) (snd st) -> wired (fst (run_hop st c)) (snd (run_hop st c)).
Proof.
  intros Hw. destruct c as [s| |filelike lv|hdlr|b|]; cbn [run_hop].
  - now apply add_console_handler_wired.
  - pose proof (remove_console_handler_wired _ _ Hw) as H.
    now destruct (remove_console_handler (fst st) (snd st)) as [[r s1] r1].
  - destruct (add_stream_handler_effect (fst st) filelike lv (snd st) Hw)
      as (self1 & rt1 & -> & _ & _ & _ & _ & _ & _ & _ & _ & H).
    exact H.
  - pose proof (remove_stream_handler_wired _ hdlr _ Hw) as H.
    now destruct (remove_stream_handler (fst st) hdlr (snd st))
      as [[r s1] r1].
  - now apply set_formatter_wired.
  - pose proof (set_test_mode_wired _ _ Hw) as H.
    now destruct (set_test_mode (fst st) (snd st)) as [[r s1] r1].
Qed.

(** The logger object right after [getLogger], [setLevel] and the
    assignment of [propagate], for a name that was not in use. *)
Lemma init_base (n : string) (lv : Z) (rt : Runtime) (self0 : Wiring) :
  loggers rt !! n = None ->
  name self0 = n -> handlers self0 = [] -> level self0 = lv ->
  wired self0
    (set_loggers
       (alter (fun lg => {| llevel := lv; propagate := false;
                            lhandlers := lhandlers lg |})
              n (loggers (getLogger n rt))) (getLogger n rt)).
Proof.
  intros Hfree Hn Hh Hl. unfold getLogger. rewrite Hfree.
  constructor; cbn [loggers set_loggers objs].
  - rewrite Hn, lookup_alter_eq, lookup_insert_eq.
    eexists. split; [reflexivity|]. cbn. now rewrite Hh, Hl.
  - rewrite Hh. constructor.
  - rewrite Hh. constructor.
Qed.

Lemma set_console_wired (self : Wiring) (rt : Runtime) (c : option nat) :
  wired self rt -> wired (set_console c self) rt.
Proof. intros [H1 H2 H3]. now constructor. Qed.

Lemma init_handlers_wired (env : Logging) (n : string)
  (enable_console : bool) (lv : Z) (enable_time : bool)
  (file : option string) (rt rt1 : Runtime) (self : Wiring) :
  loggers rt !! n = None ->
  init_handlers env n enable_console lv enable_time file rt = (Ok self, rt1) ->
  wired self rt1.
Proof.
  intros Hfree. unfold init_handlers.
  set (self0 := {| name := n; handlers := []; formatter := Levelled enable_time;
                   console := None; log_file := file; level := lv |}).
  pose proof (init_base n lv rt self0 Hfree eq_refl eq_refl eq_refl) as Hw.
  set (rt2 := set_loggers _ (getLogger n rt)) in *.
  destruct file as [path|].
  - unfold add_file_handler. cbn [log_file self0].
    destruct (open_log env path); [discriminate|].
    destruct (add_stream_handler_effect self0 (LogFile path) (level self0)
                rt2 Hw)
      as (self1 & rt3 & -> & _ & _ & _ & _ & _ & _ & _ & _ & H).
    intros E. injection E as <- <-. now apply set_console_wired.
  - destruct enable_console.
    + pose proof (add_console_handler_wired self0 Stderr rt2 Hw) as H.
      destruct (add_console_handler self0 Stderr rt2) as [self1 rt3].
      intros E. now injection E as <- <-.
    + intros E. now injection E as <- <-.
Qed.

(** X17. The two lists of handlers stay in step.  For a [CaldpLogger]
    constructed under a name that no logger had, and after any sequence
    of [add_console_handler], [remove_console_handler],
    [add_stream_handler], [remove_stream_handler], [set_formatter] and
    [set_test_mode], whether the calls return or raise: the logger
    object of [logging] holds exactly the handlers in the list of the
    [CaldpLogger], in the same order and none twice, and each of them
    has the formatter that was set last, also the handlers added after
    it was set. *)
Theorem handler_lists_agree (env : Logging) (n : string)
  (enable_console : bool) (lv : Z) (enable_time : bool)
  (file : option string) (rt rt1 : Runtime) (self : Wiring)
  (cs : list hop) :
  loggers rt !! n = None ->
  init_handlers env n enable_console lv enable_time file rt = (Ok self, rt1) ->
  wired (fst (run_hops (self, rt1) cs)) (snd (run_hops (self, rt1) cs)).
Proof.
  intros Hfree Hinit.
  pose proof (init_handlers_wired env _ _ _ _ _ _ _ _ Hfree Hinit) as Hw.
  clear Hfree Hinit. unfold run_hops.
  change (wired (fst (self, rt1)) (snd (self, rt1))) in Hw.
  generalize dependent (self, rt1). clear self rt1.
  induction cs as [|c cs IH]; intros st Hw; [exact Hw|].
  cbn [fold_left]. apply IH. now apply run_hop_wired.
Qed.

Lemma handler_lists_agree_witness :
  exists self rt1,
    init_handlers plain_logging "CALDP" true 10 true None empty_runtime
    = (Ok self, rt1)
    /\ wired (fst (run_hops (self, rt1)
                     [HSetTestMode; HAddStream (FileLike 0) 10;
                      HRemoveStream 1; HRemoveStream 7]))
             (snd (run_hops (self, rt1)
                     [HSetTestMode; HAddStream (FileLike 0) 10;
                      HRemoveStream 1; HRemoveStream 7])).
Proof.
  eexists _, _. split; [reflexivity|].
  apply (handler_lists_agree plain_logging "CALDP" true 10 true None
           empty_runtime); reflexivity.
Defined.

(** *** What reaches the streams *)

Lemma init_console_effect (env : Logging) (n : string) (lv : Z)
  (enable_time : bool) (rt : Runtime) :
  loggers rt !! n = None ->
  exists self rt1,
    init_handlers env n true lv enable_time None rt = (Ok self, rt1)
    /\ name self = n /\ level self = lv
    /\ formatter self = Levelled enable_time
    /\ handlers self = [length (objs rt)]
    /\ console self = Some (length (objs rt))
    /\ objs rt1 = objs rt ++ [handler_on Stderr lv (Levelled enable_time)]
    /\ trace rt1 = trace rt
    /\ wired self rt1.
Proof.
  intros Hfree. unfold init_handlers.
  set (self0 := {| name := n; handlers := []; formatter := Levelled enable_time;
                   console := None; log_file := None; level := lv |}).
  pose proof (init_base n lv rt self0 Hfree eq_refl eq_refl eq_refl) as Hw.
  set (rt2 := set_loggers _ (getLogger n rt)) in *.
  assert (Ho : objs rt2 = objs rt /\ trace rt2 = trace rt).
  { unfold rt2, getLogger. now rewrite Hfree. }
  destruct Ho as [Ho Ht].
  unfold add_console_handler. cbn [console self0].
  destruct (add_stream_handler_effect self0 Stderr (level self0) rt2 Hw)
    as (self1 & rt3 & -> & H1 & H2 & H3 & H4 & H5 & H6 & H7 & H8 & H9).
  eexists _, _. split; [reflexivity|].
  cbn [name level formatter handlers console set_console].
  rewrite H1, H2, H3, H4, H6, H7, Ho, Ht.
  repeat (split; [reflexivity|]). now apply set_console_wired.
Qed.

(** [set_test_mode] on a logger whose only handler is its console. *)
Lemma set_test_mode_effect (self : Wiring) (rt : Runtime) (k : nat) :
  wired self rt -> handlers self = [k] -> console self = Some k ->
  exists self2 rt2,
    set_test_mode self rt = (Ok tt, self2, rt2)
    /\ name self2 = name self /\ level self2 = level self
    /\ formatter self2 = Levelled false
    /\ handlers self2 = [length (objs rt)]
    /\ console self2 = Some (length (objs rt))
    /\ objs rt2 !! length (objs rt)
       = Some (handler_on Stdout (level self) (Levelled false))
    /\ trace rt2 = trace rt
    /\ wired self2 rt2.
Proof.
  intros Hw Hh Hc. unfold set_test_mode, remove_console_handler.
  rewrite Hc.
  assert (Hr : list_remove k (handlers self) = Some []).
  { rewrite Hh. cbn. now rewrite Nat.eqb_refl. }
  destruct (remove_stream_handler_effect self k rt [] Hw Hr)
    as (s1 & r1 & -> & A1 & A2 & A3 & A4 & A5 & A6 & A7 & A8 & A9).
  apply (set_console_wired _ _ None) in A9.
  unfold add_console_handler. cbn [console set_console].
  destruct (add_stream_handler_effect (set_console None s1) Stdout
              (level (set_console None s1)) r1 A9)
    as (s2 & r2 & -> & B1 & B2 & B3 & B4 & B5 & B6 & B7 & B8 & B9).
  cbn [handlers formatter name level log_file set_console] in *.
  apply (set_console_wired _ _ (Some (length (objs r1)))) in B9.
  unfold set_log_time.
  destruct (set_formatter_effect _ false r2 B9)
    as (s3 & r3 & -> & C1 & C2 & C3 & C4 & C5 & C6 & C7 & C8 & C9).
  cbn [handlers formatter name level log_file console set_console] in *.
  eexists _, _. split; [reflexivity|].
  split; [congruence|]. split; [congruence|]. split; [exact C2|].
  split; [now rewrite C1, B1, A1, A2|]. split; [now rewrite C5, A2|].
  split; [|split; [congruence | exact C9]].
  rewrite C3, B1, A1, B2, A2. cbn [app is_in existsb].
  rewrite Nat.eqb_refl. cbn [orb].
  rewrite lookup_app_r, Nat.sub_diag by lia. cbn.
  unfold reformatted, handler_on. cbn. now rewrite A7.
Qed.

(** A record on a wired logger whose own level is set. *)
Lemma log_record_wired (env : Logging) (self : Wiring) (rt : Runtime)
  (asctime : string) (lv : levelname) (msg : string) :
  wired self rt -> level self <> 0 ->
  log_record env (name self) asctime rt (lv, msg)
  = if levelno lv >=? level self then
      match handlers self with
      | [] => if levelno lv >=? 30
              then set_trace (trace rt ++ [(Stderr, msg +:+ PyStr.nl)]) rt
              else rt
      | _ => set_trace (fold_left (handle asctime lv msg (objs rt))
                          (handlers self) (trace rt)) rt
      end
    else rt.
Proof.
  intros [(lg & Hlg & Hh & Hp & Hl) _ _] Hnz.
  unfold log_record, isEnabledFor, callHandlers. rewrite Hlg. cbn [fst snd].
  rewrite Hl, Hh, Hp, app_nil_r.
  apply Z.eqb_neq in Hnz. now rewrite Hnz.
Qed.

Lemma log_record_one (env : Logging) (self : Wiring) (rt : Runtime)
  (k : nat) (h : Handler) (asctime : string) (lv : levelname)
  (msg : string) :
  wired self rt -> handlers self = [k] -> objs rt !! k = Some h ->
  level self <> 0 -> level self <= levelno lv -> hlevel h <= levelno lv ->
  log_record env (name self) asctime rt (lv, msg)
  = set_trace (trace rt ++ [(target h, line (hformatter h) asctime lv msg)])
      rt.
Proof.
  intros Hw Hh Hk Hnz Hl Hhl. rewrite (log_record_wired env _ _ _ _ _ Hw Hnz).
  rewrite Hh. cbn [fold_left]. unfold handle. rewrite Hk.
  apply Z.geb_le in Hl, Hhl. now rewrite Hl, Hhl.
Qed.

Lemma info_quiet (c : CaldpLogger) (o : Sink) args keys :
  eol_pending c = false -> stdout (snd (info c o args keys)) = stdout o.
Proof.
  intros E. unfold info, log_with, eformat. cbn [verbose_level set_counters
    eol_pending]. rewrite E.
  now destruct (verbose_level c >? -1).
Qed.

(** [info] with what it sets off, on a logger with one handler. *)
Lemma logged_info_one (env : Logging) (self : Wiring) (rt : Runtime)
  (k : nat) (h : Handler) (asctime : string) (c : CaldpLogger)
  (args : list pyval) :
  wired self rt -> handlers self = [k] -> objs rt !! k = Some h ->
  level self <> 0 -> level self <= 20 -> hlevel h <= 20 ->
  verbose_level c > -1 -> eol_pending c = false ->
  trace (snd (logged env (fun c o => info c o args no_keys) asctime self c rt))
  = trace rt
    ++ [(target h, line (hformatter h) asctime INFO (message c args))].
Proof.
  intros Hw Hh Hk Hnz Hl Hhl Hv He. unfold logged.
  pose proof (info_quiet c empty_sink args no_keys He) as Hq.
  destruct (LogToolsFacts.info_effect c empty_sink args no_keys eq_refl)
    as (Hr & _).
  destruct (info c empty_sink args no_keys) as [c' o']. cbn [fst snd] in *.
  apply Z.gtb_gt in Hv. rewrite Hv in Hr. rewrite Hq, Hr.
  cbn [stdout empty_sink String.eqb records app fold_left].
  now rewrite (log_record_one env self rt k h).
Qed.

(** X18. What a message looks like.  For a [CaldpLogger] made with the
    default arguments under a name that no logger had, at a level
    between 1 and 20, a call of [info] that the verbosity lets through
    writes one line to standard error:
    [{asctime} - INFO - {message}] (without the time when the logger was
    made with [enable_time=False]).  After [set_test_mode()] the same
    call writes [INFO - {message}] to standard output and nothing to
    standard error. *)
Theorem console_lines (env : Logging) (n : string) (lv : Z)
  (enable_time : bool) (rt : Runtime) (asctime : string) (c : CaldpLogger)
  (args : list pyval) :
  loggers rt !! n = None ->
  0 < lv <= 20 ->
  verbose_level c > -1 -> eol_pending c = false ->
  exists self rt1 self2 rt2,
    init_handlers env n true lv enable_time None rt = (Ok self, rt1)
    /\ trace (snd (logged env (fun c o => info c o args no_keys) asctime
                     self c rt1))
       = trace rt
         ++ [(Stderr,
              (if enable_time then asctime +:+ " - " else EmptyString)
              +:+ "INFO - " +:+ message c args +:+ PyStr.nl)]
    /\ set_test_mode self rt1 = (Ok tt, self2, rt2)
    /\ trace (snd (logged env (fun c o => info c o args no_keys) asctime
                     self2 c rt2))
       = trace rt ++ [(Stdout, "INFO - " +:+ message c args +:+ PyStr.nl)].
Proof.
  intros Hfree Hlv Hv He.
  destruct (init_console_effect env n lv enable_time rt Hfree)
    as (self & rt1 & Hinit & A1 & A2 & A3 & A4 & A5 & A6 & A7 & A8).
  destruct (set_test_mode_effect self rt1 _ A8 A4 A5)
    as (self2 & rt2 & Htest & B1 & B2 & B3 & B4 & B5 & B6 & B7 & B8).
  exists self, rt1, self2, rt2. split; [exact Hinit|].
  split; [|split; [exact Htest|]].
  - rewrite (logged_info_one env self rt1 (length (objs rt))
               (handler_on Stderr lv (Levelled enable_time)));
      try assumption; try (rewrite ?A2; cbn; lia).
    + rewrite A7. unfold line, format_record. cbn [target hformatter handler_on
        levelname_text].
      now rewrite !StrFacts.append_assoc.
    + rewrite A6. now rewrite lookup_app_r, Nat.sub_diag by lia.
  - rewrite (logged_info_one env self2 rt2 (length (objs rt1))
               (handler_on Stdout (level self) (Levelled false)));
      try assumption; try (rewrite ?B2, ?A2; cbn; lia).
    rewrite B7, A7. unfold line, format_record. cbn [target hformatter
      handler_on levelname_text].
    change (EmptyString +:+ "INFO" +:+ " - " +:+ message c args)
      with ("INFO" +:+ " - " +:+ message c args).
    now rewrite !StrFacts.append_assoc.
Qed.

Lemma console_lines_witness :
  exists self rt1 self2 rt2,
    init_handlers plain_logging "CALDP" true 10 true None empty_runtime
    = (Ok self, rt1)
    /\ set_test_mode self rt1 = (Ok tt, self2, rt2)
    /\ trace (snd (logged plain_logging
                     (fun c o => info c o [VStr "this is just informative."]
                                   no_keys)
                     "2020-01-01 00:00:00,000" self2 (fresh_logger 0) rt2))
       = [(Stdout, "INFO - this is just informative." +:+ PyStr.nl)].
Proof.
  destruct (console_lines plain_logging "CALDP" 10 true empty_runtime
              "2020-01-01 00:00:00,000" (fresh_logger 0)
              [VStr "this is just informative."])
    as (self & rt1 & self2 & rt2 & H1 & _ & H2 & H3);
    [reflexivity | lia | cbn; lia | reflexivity |].
  exists self, rt1, self2, rt2. split; [exact H1|]. split; [exact H2|].
  exact H3.
Defined.

(** *** Open lines *)





End LogHandlersFacts.
